(** * ftl-robot-host: the port router (robot.js) and the Pololu A-Star
      board driver, embedded in Rocq.

    The two JavaScript classes are translated method by method.  Mutable
    object fields become record fields that are passed along explicitly,
    a [throw] becomes the [Throw] case of [result], and calls that leave
    the program (the I2C bus, [setTimeout]) are recorded in the state. *)

From Stdlib Require Import ZArith Lia List Bool String Ascii SpecFloat.
From Stdlib Require Import DecimalString DecimalPos.
Import ListNotations.

Local Open Scope string_scope.
Local Open Scope Z_scope.

(* ===================================================================== *)
(** ** JavaScript values and operators used by the two files             *)
(* ===================================================================== *)

Module JS.

(** What a [throw] carries: [new Error(msg)] written in the source, or
    the [TypeError] the runtime raises on [undefined.x], [new undefined]
    and [Buffer.from(undefined)]. *)
Inductive exn : Type :=
| Error (msg : string)
| TypeError (msg : string).

Inductive result (A : Type) : Type :=
| Ok (a : A)
| Throw (e : exn).
Arguments Ok {A} a.
Arguments Throw {A} e.

Definition bind {A B : Type} (m : result A) (k : A -> result B) : result B :=
  match m with
  | Ok a => k a
  | Throw e => Throw e
  end.

(** The values the board driver stores in its state cache: the
    constructor writes [false] and [0.0], the decoder writes the results
    of integer operators.  [JNaN] is what [+] gives on [undefined]. *)
Inductive jsval : Type :=
| JUndefined
| JBool (b : bool)
| JNum (z : Z)
| JNaN.

(** [!!v] *)
Definition ToBoolean (v : jsval) : bool :=
  match v with
  | JUndefined => false
  | JBool b => b
  | JNum z => negb (z =? 0)
  | JNaN => false
  end.

(** ToInt32 on an integer: wrap into [-2^31, 2^31). *)
Definition wrap32 (z : Z) : Z := (z + 2 ^ 31) mod 2 ^ 32 - 2 ^ 31.

(** ToInt32 on a value, as the bit operators apply it to an operand. *)
Definition ToInt32 (v : jsval) : Z :=
  match v with
  | JUndefined => 0
  | JBool b => if b then 1 else 0
  | JNum z => wrap32 z
  | JNaN => 0
  end.

(** [a << n], [a >> n], [a & b], [a | b], [~a] *)
Definition shift_left (a : jsval) (n : Z) : jsval :=
  JNum (wrap32 (Z.shiftl (ToInt32 a) (n mod 32))).
Definition shift_right (a : jsval) (n : Z) : jsval :=
  JNum (Z.shiftr (ToInt32 a) (n mod 32)).
Definition bit_and (a b : jsval) : jsval := JNum (Z.land (ToInt32 a) (ToInt32 b)).
Definition bit_or (a b : jsval) : jsval := JNum (Z.lor (ToInt32 a) (ToInt32 b)).
Definition bit_not (a : jsval) : jsval := JNum (Z.lnot (ToInt32 a)).

(** [a + b] on the operands that occur here (no strings). *)
Definition add (a b : jsval) : jsval :=
  match a, b with
  | JNum x, JNum y => JNum (x + y)
  | JNum x, JBool y => JNum (x + if y then 1 else 0)
  | JBool x, JNum y => JNum ((if x then 1 else 0) + y)
  | JBool x, JBool y => JNum ((if x then 1 else 0) + if y then 1 else 0)
  | _, _ => JNaN
  end.

(** A Node [Buffer]: a fixed-length array of bytes, each in 0..255. *)
Definition Buffer : Type := list Z.

Definition is_byte (b : Z) : Prop := 0 <= b < 256.

(** [buf[i]]: [undefined] outside the buffer. *)
Definition Buffer_get (buf : Buffer) (i : Z) : jsval :=
  if i <? 0 then JUndefined
  else match nth_error buf (Z.to_nat i) with
       | Some b => JNum b
       | None => JUndefined
       end.

Fixpoint replace_nth {A : Type} (l : list A) (n : nat) (x : A) : list A :=
  match l, n with
  | [], _ => []
  | _ :: t, O => x :: t
  | h :: t, S n' => h :: replace_nth t n' x
  end.

(** [buf[i] = v]: the value is truncated to eight bits; an index outside
    the buffer is ignored (a typed array never grows). *)
Definition Buffer_set (buf : Buffer) (i : Z) (v : jsval) : Buffer :=
  if i <? 0 then buf
  else replace_nth buf (Z.to_nat i) (ToInt32 v mod 256).

(** [Buffer.from(src)]: a fresh copy; [Buffer.from(undefined)] throws. *)
Definition Buffer_from (src : option Buffer) : result Buffer :=
  match src with
  | Some b => Ok b
  | None =>
      Throw (TypeError "The first argument must be of type string or an instance of Buffer, ArrayBuffer, or Array or an Array-like Object. Received undefined")
  end.

(** [arr[i] = v] on an ordinary array: in place when the index exists,
    padded with holes when it lies beyond the end. *)
Fixpoint Array_set (arr : list jsval) (n : nat) (v : jsval) : list jsval :=
  match arr, n with
  | [], O => [v]
  | [], S n' => JUndefined :: Array_set [] n' v
  | _ :: t, O => v :: t
  | h :: t, S n' => h :: Array_set t n' v
  end.

(** [arr[i]] *)
Definition Array_get (arr : list jsval) (i : Z) : jsval :=
  if i <? 0 then JUndefined else nth (Z.to_nat i) arr JUndefined.

(** *** Numbers that are not integers: IEEE 754 binary64 *)

Definition number : Type := spec_float.
Definition prec : Z := 53.
Definition emax : Z := 1024.

Definition of_Z (z : Z) : number := binary_normalize prec emax z 0 false.

(** [a < b], [a * b], [-a]; a comparison with NaN is false. *)
Definition lt (a b : number) : bool := SFltb a b.
Definition mul (a b : number) : number := SFmul prec emax a b.
Definition neg (a : number) : number := SFopp a.

(** [Math.round(x)]: the nearest integer, ties towards +Infinity; NaN,
    the infinities and numbers without a fractional part are returned as
    they are; a result of zero keeps the sign of [x]. *)
Definition Math_round (x : number) : number :=
  match x with
  | S754_finite s m e =>
      if 0 <=? e then x
      else
        let d := 2 ^ (- e) in
        let n := if s then Z.neg m else Z.pos m in
        binary_normalize prec emax ((2 * n + d) / (2 * d)) 0 s
  | _ => x
  end.

(** ToInt32 on a number, as [&] applies it: NaN, the infinities and the
    zeros give 0, anything else is cut towards zero and wrapped. *)
Definition ToInt32_number (x : number) : Z :=
  match x with
  | S754_finite s m e =>
      let mag := if 0 <=? e then Z.pos m * 2 ^ e else Z.pos m / 2 ^ (- e) in
      wrap32 (if s then - mag else mag)
  | _ => 0
  end.

End JS.

Import JS.

Declare Scope js_scope.
Notation "x <- m ;; k" := (JS.bind m (fun x => k))
  (at level 61, m at next level, right associativity) : js_scope.
Notation "' pat <- m ;; k" :=
  (JS.bind m (fun x => match x with pat => k end))
  (at level 61, pat pattern, m at next level, right associativity) : js_scope.
Local Open Scope js_scope.

(* ===================================================================== *)
(** ** constants.js                                                       *)
(* ===================================================================== *)

Module Constants.

(** Modelled from the spec: constants.js is not among the sources.  The
    spec lists the recognized pin modes INPUT, INPUT_PULLUP and OUTPUT and
    the direction constraints IN, OUT and BOTH; the sources name the
    members [PinModes.INPUT], [PinModes.INPUT_PULLUP], [PinModes.OUTPUT]
    and [PortDirections.BOTH].  The values bound to these members are not
    known, so they are the fields of a record that the definitions take
    as a parameter. *)
Record t : Type := {
  PinModes_INPUT : string;
  PinModes_INPUT_PULLUP : string;
  PinModes_OUTPUT : string;
  PortDirections_BOTH : string
}.

(** [Constants.PinModes[key]] for a key that is one of its members. *)
Definition PinModes (c : t) (key : string) : option string :=
  if (key =? "INPUT")%string then Some (PinModes_INPUT c)
  else if (key =? "INPUT_PULLUP")%string then Some (PinModes_INPUT_PULLUP c)
  else if (key =? "OUTPUT")%string then Some (PinModes_OUTPUT c)
  else None.

(** The three mode values are told apart by the driver's [switch]. *)
Definition distinct_modes (c : t) : Prop :=
  PinModes_INPUT c <> PinModes_INPUT_PULLUP c /\
  PinModes_INPUT c <> PinModes_OUTPUT c /\
  PinModes_INPUT_PULLUP c <> PinModes_OUTPUT c.

End Constants.

(* ===================================================================== *)
(** ** The Pololu A-Star board driver                                     *)
(* ===================================================================== *)

Module PololuAstarBoard.

Record Buttons : Type := {
  buttonA : jsval;
  buttonB : jsval;
  buttonC : jsval
}.

Record Leds : Type := {
  red : jsval;
  green : jsval;
  yellow : jsval
}.

Record BoardState : Type := {
  buttons : Buttons;
  battMV : jsval;
  leds : Leds;
  motors : jsval * jsval;
  digitalIn : list jsval;
  digitalOut : list jsval;
  analogIn : list jsval
}.

(** A call made on the I2C bus object [d_i2c]. *)
Inductive bus_op : Type :=
| readSync (addr register length : Z)
| writeSync (addr register : Z) (data : option Buffer)
| writeByteSync (addr register : Z) (byte : jsval)
| writeWordSync (addr register : Z) (word : jsval).

(** The fields of a driver object.  [d_i2c] is the bus object, kept as
    the calls made on it, oldest first (the bus is taken not to fail).
    [d_hasNewData] is [undefined] until [setupWrite] sets it; only its
    truth value is ever read.  [d_i2cPolling] is the period of the
    interval timer that fires [getBoardStatus]; [d_writeTimer] is the due
    time of the timer made last.  After them come the clock and the due
    times of the pending [setTimeout] timers, oldest first; each of them
    fires [flushWrite], the only method ever given to [setTimeout]. *)
Record Board : Type := {
  d_addr : Z;
  d_boardState : BoardState;
  d_lastBuf : option Buffer;
  d_outBuf : option Buffer;
  d_hasNewData : bool;
  d_writeTimer : option Z;
  d_i2c : list bus_op;
  clock : Z;
  timeouts : list Z;
  d_i2cPolling : Z
}.

Definition with_boardState (s : BoardState) (b : Board) : Board :=
  {| d_addr := d_addr b; d_boardState := s; d_lastBuf := d_lastBuf b;
     d_outBuf := d_outBuf b; d_hasNewData := d_hasNewData b;
     d_writeTimer := d_writeTimer b; d_i2c := d_i2c b; clock := clock b;
     timeouts := timeouts b; d_i2cPolling := d_i2cPolling b |}.

Definition with_lastBuf (l : option Buffer) (b : Board) : Board :=
  {| d_addr := d_addr b; d_boardState := d_boardState b; d_lastBuf := l;
     d_outBuf := d_outBuf b; d_hasNewData := d_hasNewData b;
     d_writeTimer := d_writeTimer b; d_i2c := d_i2c b; clock := clock b;
     timeouts := timeouts b; d_i2cPolling := d_i2cPolling b |}.

Definition with_outBuf (o : option Buffer) (b : Board) : Board :=
  {| d_addr := d_addr b; d_boardState := d_boardState b;
     d_lastBuf := d_lastBuf b; d_outBuf := o;
     d_hasNewData := d_hasNewData b; d_writeTimer := d_writeTimer b;
     d_i2c := d_i2c b; clock := clock b; timeouts := timeouts b;
     d_i2cPolling := d_i2cPolling b |}.

Definition with_hasNewData (h : bool) (b : Board) : Board :=
  {| d_addr := d_addr b; d_boardState := d_boardState b;
     d_lastBuf := d_lastBuf b; d_outBuf := d_outBuf b; d_hasNewData := h;
     d_writeTimer := d_writeTimer b; d_i2c := d_i2c b; clock := clock b;
     timeouts := timeouts b; d_i2cPolling := d_i2cPolling b |}.

Definition with_clock (t : Z) (b : Board) : Board :=
  {| d_addr := d_addr b; d_boardState := d_boardState b;
     d_lastBuf := d_lastBuf b; d_outBuf := d_outBuf b;
     d_hasNewData := d_hasNewData b; d_writeTimer := d_writeTimer b;
     d_i2c := d_i2c b; clock := t; timeouts := timeouts b;
     d_i2cPolling := d_i2cPolling b |}.

Definition with_timeouts (ts : list Z) (b : Board) : Board :=
  {| d_addr := d_addr b; d_boardState := d_boardState b;
     d_lastBuf := d_lastBuf b; d_outBuf := d_outBuf b;
     d_hasNewData := d_hasNewData b; d_writeTimer := d_writeTimer b;
     d_i2c := d_i2c b; clock := clock b; timeouts := ts;
     d_i2cPolling := d_i2cPolling b |}.

(** A call on the bus object: appended to its history. *)
Definition i2c (op : bus_op) (b : Board) : Board :=
  {| d_addr := d_addr b; d_boardState := d_boardState b;
     d_lastBuf := d_lastBuf b; d_outBuf := d_outBuf b;
     d_hasNewData := d_hasNewData b; d_writeTimer := d_writeTimer b;
     d_i2c := d_i2c b ++ [op]; clock := clock b; timeouts := timeouts b;
     d_i2cPolling := d_i2cPolling b |}.

(** [this.d_writeTimer = setTimeout(this.flushWrite.bind(this), delay)] *)
Definition setTimeout_flushWrite (delay : Z) (b : Board) : Board :=
  let t := clock b + delay in
  {| d_addr := d_addr b; d_boardState := d_boardState b;
     d_lastBuf := d_lastBuf b; d_outBuf := d_outBuf b;
     d_hasNewData := d_hasNewData b; d_writeTimer := Some t;
     d_i2c := d_i2c b; clock := clock b; timeouts := timeouts b ++ [t];
     d_i2cPolling := d_i2cPolling b |}.

(** The constructor: the state cache is all [false] and [0.0], no register
    image has been read ([this.d_lastBuf;] assigns nothing) and the poll
    is registered every 100 time units. *)
Definition new (addr start : Z) : Board :=
  {| d_addr := addr;
     d_boardState :=
       {| buttons := {| buttonA := JBool false; buttonB := JBool false;
                        buttonC := JBool false |};
          battMV := JNum 0;
          leds := {| red := JBool false; green := JBool false;
                     yellow := JBool false |};
          motors := (JNum 0, JNum 0);
          digitalIn := repeat (JBool false) 6;
          digitalOut := repeat (JBool false) 6;
          analogIn := repeat (JNum 0) 5 |};
     d_lastBuf := None;
     d_outBuf := None;
     d_hasNewData := false;
     d_writeTimer := None;
     d_i2c := [];
     clock := start;
     timeouts := [];
     d_i2cPolling := 100 |}.

Definition set_analogIn (s : BoardState) (i : nat) (v : jsval) : BoardState :=
  {| buttons := buttons s; battMV := battMV s; leds := leds s;
     motors := motors s; digitalIn := digitalIn s;
     digitalOut := digitalOut s; analogIn := Array_set (analogIn s) i v |}.

Definition set_digitalIn (s : BoardState) (i : nat) (v : jsval) : BoardState :=
  {| buttons := buttons s; battMV := battMV s; leds := leds s;
     motors := motors s; digitalIn := Array_set (digitalIn s) i v;
     digitalOut := digitalOut s; analogIn := analogIn s |}.

Definition set_buttons (s : BoardState) (b : Buttons) : BoardState :=
  {| buttons := b; battMV := battMV s; leds := leds s; motors := motors s;
     digitalIn := digitalIn s; digitalOut := digitalOut s;
     analogIn := analogIn s |}.

Definition set_battMV (s : BoardState) (v : jsval) : BoardState :=
  {| buttons := buttons s; battMV := v; leds := leds s; motors := motors s;
     digitalIn := digitalIn s; digitalOut := digitalOut s;
     analogIn := analogIn s |}.

(** The decoding half of [getBoardStatus], lines 84 to 103: the cache
    [s] after the image [buf] has been decoded into it. *)
Definition decode (buf : Buffer) (s : BoardState) : BoardState :=
  let buttonVals := Buffer_get buf 3 in
  let dinVals := Buffer_get buf 4 in
  let s :=
    fold_left
      (fun s i =>
         let byteStart := 5 + Z.of_nat i * 2 in
         set_analogIn s i
           (add (shift_left (Buffer_get buf byteStart) 8)
                (Buffer_get buf (byteStart + 1))))
      (seq 0 5) s in
  let battMV := add (shift_left (Buffer_get buf 15) 8) (Buffer_get buf 16) in
  let s :=
    set_buttons s
      {| buttonA := bit_and buttonVals (JNum 1);
         buttonB := bit_and (shift_right buttonVals 1) (JNum 1);
         buttonC := bit_and (shift_right buttonVals 2) (JNum 1) |} in
  let s :=
    fold_left
      (fun s i =>
         set_digitalIn s i (bit_and (shift_right dinVals (Z.of_nat i)) (JNum 1)))
      (seq 0 6) s in
  set_battMV s battMV.

(** [getBoardStatus()]; [answer] is the buffer the bus returns for the
    23-byte read.  Both [d_lastBuf] and [d_outBuf] are replaced. *)
Definition getBoardStatus (answer : Buffer) (b : Board) : Board :=
  let b := i2c (readSync (d_addr b) 0 23) b in
  let buf := answer in
  let b := with_lastBuf (Some buf) b in
  let b := with_outBuf (Some buf) b in
  with_boardState (decode buf (d_boardState b)) b.

(** [flushWrite()] *)
Definition flushWrite (b : Board) : result Board :=
  if negb (d_hasNewData b) then Ok b
  else
    let b := i2c (writeSync (d_addr b) 0 (d_outBuf b)) b in
    copy <- Buffer_from (d_lastBuf b) ;;
    Ok (with_outBuf (Some copy) b).

(** [setupWrite()] *)
Definition setupWrite (b : Board) : result Board :=
  b <- match d_outBuf b with
       | Some _ => Ok b
       | None =>
           copy <- Buffer_from (d_lastBuf b) ;;
           Ok (with_outBuf (Some copy) b)
       end ;;
  let b := if negb (d_hasNewData b) then setTimeout_flushWrite 25 b else b in
  Ok (with_hasNewData true b).

(** [this.d_outBuf[i] = v] *)
Definition outBuf_set (i : Z) (v : jsval) (b : Board) : result Board :=
  match d_outBuf b with
  | Some out => Ok (with_outBuf (Some (Buffer_set out i v)) b)
  | None => Throw (TypeError "Cannot set properties of undefined")
  end.

(** [writeByte(register, byte)] *)
Definition writeByte (register byte : Z) (b : Board) : result Board :=
  b <- setupWrite b ;;
  outBuf_set register (JNum byte) b.

(** [writeWord(register, word)] *)
Definition writeWord (register word : Z) (b : Board) : result Board :=
  b <- setupWrite b ;;
  b <- outBuf_set register
         (bit_and (shift_right (JNum word) 8) (JNum 255)) b ;;
  outBuf_set (register + 1) (bit_and (JNum word) (JNum 255)) b.

(** [writeBuffer(register, buffer)] *)
Definition writeBuffer (register : Z) (buffer : list Z) (b : Board)
  : result Board :=
  b <- setupWrite b ;;
  fold_left
    (fun r i =>
       b <- r ;;
       outBuf_set (register + Z.of_nat i) (Buffer_get buffer (Z.of_nat i)) b)
    (seq 0 (List.length buffer)) (Ok b).

(** [this.d_lastBuf[i]] *)
Definition lastBuf_get (i : Z) (b : Board) : result jsval :=
  match d_lastBuf b with
  | Some last => Ok (Buffer_get last i)
  | None => Throw (TypeError "Cannot read properties of undefined")
  end.

(** The byte [configurePin] sends, lines 167 to 173: the new setting in
    the high nibble for an even channel, in the low nibble for an odd
    one, next to the other nibble of the byte read last. *)
Definition pin_outByte (channel : Z) (newSetting configByte : jsval) : jsval :=
  if Z.rem channel 2 =? 0
  then bit_or (bit_and (shift_left newSetting 4) (JNum 240))
              (bit_and configByte (JNum 15))
  else bit_or (bit_and configByte (JNum 240))
              (bit_and newSetting (JNum 15)).

Section WithConstants.

Variable C : Constants.t.

(** The [switch] of [configurePin]: the setting after the mode bits have
    been or-ed in; a mode that matches no case leaves it at 4. *)
Definition mode_setting (mode : string) : jsval :=
  let newSetting := JNum 4 in
  if (mode =? Constants.PinModes_INPUT C)%string
  then bit_or newSetting (JNum 1)
  else if (mode =? Constants.PinModes_INPUT_PULLUP C)%string
  then bit_or newSetting (JNum 2)
  else if (mode =? Constants.PinModes_OUTPUT C)%string
  then bit_or newSetting (JNum 0)
  else newSetting.

(** [configurePin(channel, mode)] *)
Definition configurePin (channel : Z) (mode : string) (b : Board)
  : result Board :=
  let configByteIdx := channel / 2 in
  configByte <- lastBuf_get configByteIdx b ;;
  let newSetting := mode_setting mode in
  let outByte := pin_outByte channel newSetting configByte in
  Ok (i2c (writeByteSync (d_addr b) configByteIdx outByte) b).

End WithConstants.

(** [writeDigital(channel, value)] *)
Definition writeDigital (channel : Z) (value : jsval) (b : Board)
  : result Board :=
  oldByte <- lastBuf_get 18 b ;;
  let newByte :=
    if ToBoolean value
    then bit_or oldByte (shift_left (JNum 1) channel)
    else bit_and oldByte (bit_not (shift_left (JNum 1) channel)) in
  let b := with_lastBuf (option_map (fun last => Buffer_set last 18 newByte)
                                    (d_lastBuf b)) b in
  Ok (i2c (writeByteSync (d_addr b) 18 newByte) b).

(** The number [writePWM] rounds, lines 201 to 219: the value clamped to
    [-1, 1], its magnitude scaled by 400 and the sign put back. *)
Definition pwm_output (value : number) : number :=
  let isNegative := false in
  let value := if lt value (of_Z (-1)) then of_Z (-1) else value in
  let value := if lt (of_Z 1) value then of_Z 1 else value in
  let '(isNegative, value) :=
    if lt value (of_Z 0) then (true, neg value) else (isNegative, value) in
  let output := mul value (of_Z 400) in
  if isNegative then neg output else output.

(** [writePWM(channel, value)] *)
Definition writePWM (channel : Z) (value : number) (b : Board) : Board :=
  let output := Math_round (pwm_output value) in
  let chOffset := 19 + channel * 2 in
  i2c (writeWordSync (d_addr b) chOffset
         (JNum (Z.land (ToInt32_number output) 65535))) b.

Definition readDigital (channel : Z) (b : Board) : jsval :=
  Array_get (digitalIn (d_boardState b)) channel.

Definition readAnalog (channel : Z) (b : Board) : jsval :=
  Array_get (analogIn (d_boardState b)) channel.

Definition readBattMV (b : Board) : jsval := battMV (d_boardState b).

(** *** The timers

    The code runs on one thread: a timer callback runs to completion
    between two calls.  [advance t b] moves the clock to [t] and fires, in
    the order they were set, the timers that are due by then. *)
Definition advance (t : Z) (b : Board) : result Board :=
  let b := with_clock (Z.max (clock b) t) b in
  let ready := filter (fun d => d <=? clock b) (timeouts b) in
  let later := filter (fun d => negb (d <=? clock b)) (timeouts b) in
  fold_left (fun r _ => b <- r ;; flushWrite b) ready
            (Ok (with_timeouts later b)).

(** What happens to a driver between two timer firings: a buffered write
    is requested, or the poll timer fires and the bus answers. *)
Inductive action : Type :=
| act_writeByte (register byte : Z)
| act_writeWord (register word : Z)
| act_writeBuffer (register : Z) (buffer : list Z)
| act_getBoardStatus (answer : Buffer).

Definition perform (a : action) (b : Board) : result Board :=
  match a with
  | act_writeByte register byte => writeByte register byte b
  | act_writeWord register word => writeWord register word b
  | act_writeBuffer register buffer => writeBuffer register buffer b
  | act_getBoardStatus answer => Ok (getBoardStatus answer b)
  end.

(** A schedule: each action with the time at which it happens. *)
Fixpoint run (schedule : list (Z * action)) (b : Board) : result Board :=
  match schedule with
  | [] => Ok b
  | (t, a) :: rest =>
      b <- advance t b ;;
      b <- perform a b ;;
      run rest b
  end.

Definition is_write (a : action) : bool :=
  match a with
  | act_getBoardStatus _ => false
  | _ => true
  end.

End PololuAstarBoard.

(* ===================================================================== *)
(** ** Plain objects used as maps                                         *)
(* ===================================================================== *)

Module Obj.

(** An object literal [{}] filled by [obj[key] = v]: its own properties
    in the order they were first assigned, which is the order [for..in]
    walks them (keys written as array indices aside).  An object has each
    name once; in a list that repeats a name the first pair is the
    property and the later ones are never read. *)
Definition t (V : Type) : Type := list (string * V).

(** The property names every such object inherits from
    [Object.prototype]; none of them is enumerable. *)
Definition Object_prototype : list string :=
  [ "constructor"; "hasOwnProperty"; "isPrototypeOf";
    "propertyIsEnumerable"; "toLocaleString"; "toString"; "valueOf";
    "__proto__"; "__defineGetter__"; "__defineSetter__";
    "__lookupGetter__"; "__lookupSetter__" ].

Definition inherited (key : string) : bool :=
  existsb (String.eqb key) Object_prototype.

Fixpoint own {V : Type} (o : t V) (key : string) : option V :=
  match o with
  | [] => None
  | (k, v) :: rest => if (k =? key)%string then Some v else own rest key
  end.

(** What reading [obj[key]] gives. *)
Inductive slot (V : Type) : Type :=
| Own (v : V)
| Proto
| Absent.
Arguments Own {V} v.
Arguments Proto {V}.
Arguments Absent {V}.

Definition get {V : Type} (o : t V) (key : string) : slot V :=
  match own o key with
  | Some v => Own v
  | None => if inherited key then Proto else Absent
  end.

(** [obj[key] = v], for a key other than [__proto__]: assigning to that
    name changes the prototype and adds no property, so the statements
    that assign to a name not known to be present exclude it. *)
Fixpoint set {V : Type} (o : t V) (key : string) (v : V) : t V :=
  match o with
  | [] => [(key, v)]
  | (k, x) :: rest =>
      if (k =? key)%string then (k, v) :: rest
      else (k, x) :: set rest key v
  end.

Definition keys {V : Type} (o : t V) : list string := map fst o.

(** [for (var key in obj)] with [obj[key]] read in the body: each name of
    the object once, with the property it names.  [seen] holds the names
    already visited. *)
Fixpoint walk {V : Type} (seen : list string) (o : t V) : list (string * V) :=
  match o with
  | [] => []
  | (k, v) :: rest =>
      if existsb (String.eqb k) seen then walk seen rest
      else (k, v) :: walk (k :: seen) rest
  end.

Definition for_in {V : Type} (o : t V) : list (string * V) := walk [] o.

(** An object literal [{k1: v1, k2: v2, ...}] as it is written: a name
    that is written again keeps its place and takes the later value.
    (The name [__proto__] aside, which a literal does not store.) *)
Definition literal {V : Type} (pairs : list (string * V)) : t V :=
  fold_left (fun o '(k, v) => set o k v) pairs [].

End Obj.

(* ===================================================================== *)
(** ** Strings: [split], [parseInt], number to string                     *)
(* ===================================================================== *)

Module Str.

(** The integers a JavaScript number holds exactly, and prints and
    parses digit by digit: those up to [Number.MAX_SAFE_INTEGER],
    2^53 - 1, in magnitude. *)
Definition max_safe_integer : Z := 9007199254740991.

(** ['' + n] for an integer [n] of magnitude at most [max_safe_integer]:
    its decimal digits.  (Beyond 2^53 a number is printed by its
    shortest round-trip digits, and from 1e21 on with an exponent.) *)
Definition of_number (n : Z) : string := NilZero.string_of_int (Z.to_int n).

(** [s.split(sep)] for a one-character separator. *)
Fixpoint split (sep : ascii) (s : string) : list string :=
  match s with
  | EmptyString => [EmptyString]
  | String c rest =>
      match split sep rest with
      | [] => []
      | piece :: pieces =>
          if Ascii.eqb c sep then EmptyString :: piece :: pieces
          else String c piece :: pieces
      end
  end.

Definition is_space (c : ascii) : bool :=
  let n := nat_of_ascii c in
  ((9 <=? n) && (n <=? 13) || (n =? 32))%nat.

Fixpoint skip_spaces (s : string) : string :=
  match s with
  | EmptyString => EmptyString
  | String c rest => if is_space c then skip_spaces rest else s
  end.

Definition digit (c : ascii) : option Z :=
  let n := nat_of_ascii c in
  if ((48 <=? n) && (n <=? 57))%nat then Some (Z.of_nat n - 48) else None.

(** The value of the longest run of digits at the front of [s], starting
    from [acc]; [None] when not one digit has been read. *)
Fixpoint digits (s : string) (acc : option Z) : option Z :=
  match s with
  | EmptyString => acc
  | String c rest =>
      match digit c with
      | Some d =>
          digits rest (Some (10 * match acc with Some a => a | None => 0 end + d))
      | None => acc
      end
  end.

(** [parseInt(s, 10)]; [None] is NaN.  The value is exact, as it is in
    JavaScript for results of magnitude at most [max_safe_integer];
    larger ones are rounded there to the nearest number. *)
Definition parseInt (s : string) : option Z :=
  match skip_spaces s with
  | String "-" rest => option_map Z.opp (digits rest None)
  | String "+" rest => digits rest None
  | s' => digits s' None
  end.

End Str.

(* ===================================================================== *)
(** ** The port router, robot.js                                          *)
(* ===================================================================== *)

Module Robot.

Local Set Implicit Arguments.

(** An entry of the configuration's [portMap]. *)
Record MapInfo : Type := {
  deviceId : string;
  mi_devicePortType : string;
  mi_devicePort : Z;
  mi_direction : option string
}.

(** An entry of [d_portDeviceMaps].  [device] refers to a device object
    by its key in [d_devices]; it is [None] when
    [this.d_devices[mapInfo.deviceId]] gave no device. *)
Record PortDevice : Type := {
  device : option string;
  devicePortType : string;
  devicePort : Z;
  direction : option string
}.

(** A port descriptor of [getPortList]; [pd_direction] is [None] when the
    descriptor has no [direction] property. *)
Record PortDescriptor : Type := {
  channel : Z;
  pd_direction : option string
}.

Record PortList : Type := {
  digital : list PortDescriptor;
  analog : list PortDescriptor;
  pwm : list PortDescriptor
}.

Section WithDevices.

(** The values handed through to the devices, of which the router only
    ever takes the truth value ([!!value]). *)
Variable JSValue : Type.
Variable truthy : JSValue -> bool.
Variable boolean : bool -> JSValue.

(** Bus objects, device classes, the [config] object a device is built
    from, and device objects. *)
Variable Interface : Type.
Variable DeviceClass : Type.
Variable DeviceConfig : Type.
Variable Device : Type.

(** device.js and devices/device-types.js are not among the sources: the
    methods the router calls on a device object, the [new] of a device
    class, and the table of built-in classes are parameters. *)
Variable device_write : Device -> string -> Z -> JSValue -> result Device.
Variable device_read : Device -> string -> Z -> result (JSValue * Device).
Variable device_configurePin : Device -> Z -> string -> result Device.
Variable device_enable : Device -> result Device.
Variable device_disable : Device -> result Device.
Variable construct :
  DeviceClass -> string -> Obj.slot (option Interface) -> DeviceConfig ->
  result Device.
Variable BuiltinDeviceTypes : string -> option DeviceClass.
Variable C : Constants.t.

Record InterfaceSpec : Type := {
  if_type : string;
  if_id : string;
  if_implementation : option Interface
}.

Record DeviceSpec : Type := {
  type : string;
  id : string;
  interfaceId : string;
  implementation : option DeviceClass;
  config : DeviceConfig
}.

(** The configuration object.  [portMap] is an object keyed by channel
    name; the constructor walks it with [for (var portName in portMap)],
    which is [Obj.for_in]. *)
Record Config : Type := {
  interfaces : option (list InterfaceSpec);
  devices : option (list DeviceSpec);
  portMap : Obj.t MapInfo
}.

(** A method call made on a device object. *)
Inductive call : Type :=
| call_write (dev portType : string) (port : Z) (value : JSValue)
| call_read (dev portType : string) (port : Z)
| call_configurePin (dev : string) (port : Z) (mode : string)
| call_enable (dev : string)
| call_disable (dev : string).

(** The fields of a router object, and [calls]: the method calls made on
    device objects so far, oldest first. *)
Record Robot : Type := {
  d_config : Config;
  d_interfaces : Obj.t (option Interface);
  d_devices : Obj.t Device;
  d_portDeviceMaps : Obj.t PortDevice;
  d_ready : bool;
  d_enabled : bool;
  calls : list call
}.

Definition with_interfaces (x : Obj.t (option Interface)) (r : Robot) : Robot :=
  {| d_config := d_config r; d_interfaces := x; d_devices := d_devices r;
     d_portDeviceMaps := d_portDeviceMaps r; d_ready := d_ready r;
     d_enabled := d_enabled r; calls := calls r |}.

Definition with_devices (x : Obj.t Device) (r : Robot) : Robot :=
  {| d_config := d_config r; d_interfaces := d_interfaces r; d_devices := x;
     d_portDeviceMaps := d_portDeviceMaps r; d_ready := d_ready r;
     d_enabled := d_enabled r; calls := calls r |}.

Definition with_portDeviceMaps (x : Obj.t PortDevice) (r : Robot) : Robot :=
  {| d_config := d_config r; d_interfaces := d_interfaces r;
     d_devices := d_devices r; d_portDeviceMaps := x; d_ready := d_ready r;
     d_enabled := d_enabled r; calls := calls r |}.

Definition with_enabled (x : bool) (r : Robot) : Robot :=
  {| d_config := d_config r; d_interfaces := d_interfaces r;
     d_devices := d_devices r; d_portDeviceMaps := d_portDeviceMaps r;
     d_ready := d_ready r; d_enabled := x; calls := calls r |}.

Definition with_call (c : call) (r : Robot) : Robot :=
  {| d_config := d_config r; d_interfaces := d_interfaces r;
     d_devices := d_devices r; d_portDeviceMaps := d_portDeviceMaps r;
     d_ready := d_ready r; d_enabled := d_enabled r;
     calls := calls r ++ [c] |}.

(** [setupInterfaces()]; the warning it prints is not kept. *)
Definition setupInterfaces (r : Robot) : Robot :=
  match interfaces (d_config r) with
  | None => r
  | Some interfaceList =>
      fold_left
        (fun r ifaceSpec =>
           let exists_already :=
             match Obj.get (d_interfaces r) (if_id ifaceSpec) with
             | Obj.Own (Some _) => true
             | Obj.Own None => false
             | Obj.Proto => true
             | Obj.Absent => false
             end in
           if exists_already then r
           else with_interfaces
                  (Obj.set (d_interfaces r) (if_id ifaceSpec)
                           (if_implementation ifaceSpec)) r)
        interfaceList r
  end.

(** [getInterface(id)] *)
Definition getInterface (id : string) (r : Robot) : Obj.slot (option Interface) :=
  Obj.get (d_interfaces r) id.

(** The first loop of [setupDevices]: one device object per device spec. *)
Definition createDevices (deviceList : list DeviceSpec) (r : Robot)
  : result Robot :=
  fold_left
    (fun acc deviceSpec =>
       r <- acc ;;
       let deviceImpl :=
         match BuiltinDeviceTypes (type deviceSpec) with
         | Some builtin => Some builtin
         | None => implementation deviceSpec
         end in
       match deviceImpl with
       | None => Throw (TypeError "deviceImpl is not a constructor")
       | Some cls =>
           d <- construct cls (id deviceSpec)
                  (getInterface (interfaceId deviceSpec) r)
                  (config deviceSpec) ;;
           Ok (with_devices (Obj.set (d_devices r) (id deviceSpec) d) r)
       end)
    deviceList (Ok r).

(** The second loop of [setupDevices], over the entries [for..in] hands
    out. *)
Fixpoint mapPorts (entries : list (string * MapInfo)) (r : Robot)
  : result Robot :=
  match entries with
  | [] => Ok r
  | (portName, mapInfo) :: rest =>
      match Obj.get (d_portDeviceMaps r) portName with
      | Obj.Own _ | Obj.Proto =>
          Throw (Error ("Attempting to assign already mapped port: " ++ portName))
      | Obj.Absent =>
          let entry :=
            {| device :=
                 match Obj.get (d_devices r) (deviceId mapInfo) with
                 | Obj.Own _ => Some (deviceId mapInfo)
                 | _ => None
                 end;
               devicePortType := mi_devicePortType mapInfo;
               devicePort := mi_devicePort mapInfo;
               direction := mi_direction mapInfo |} in
          mapPorts rest
            (with_portDeviceMaps
               (Obj.set (d_portDeviceMaps r) portName entry) r)
      end
  end.

(** [setupDevices()] *)
Definition setupDevices (r : Robot) : result Robot :=
  match devices (d_config r) with
  | None => Throw (TypeError "Cannot read properties of undefined (reading 'length')")
  | Some deviceList =>
      r <- createDevices deviceList r ;;
      mapPorts (Obj.for_in (portMap (d_config r))) r
  end.

(** The fields as the constructor sets them before the two setup calls. *)
Definition blank (robotConfig : Config) : Robot :=
  {| d_config := robotConfig; d_interfaces := []; d_devices := [];
     d_portDeviceMaps := []; d_ready := false; d_enabled := false;
     calls := [] |}.

(** [new Robot(robotConfig)] *)
Definition new (robotConfig : Config) : result Robot :=
  let r := blank robotConfig in
  let r := setupInterfaces r in
  setupDevices r.

(** A method call [device.m(...)] on the device an entry refers to: the
    call is recorded and the device object takes its new state. *)
Definition on_device {A : Type} (dev : option string) (c : string -> call)
  (m : Device -> result (A * Device)) (r : Robot) : result (A * Robot) :=
  match dev with
  | None => Throw (TypeError "Cannot read properties of undefined")
  | Some key =>
      match Obj.own (d_devices r) key with
      | None => Throw (TypeError "Cannot read properties of undefined")
      | Some d =>
          let r := with_call (c key) r in
          '(a, d') <- m d ;;
          Ok (a, with_devices (Obj.set (d_devices r) key d') r)
      end
  end.

Definition unit_result (m : result Device) : result (unit * Device) :=
  d <- m ;; Ok (tt, d).

(** The body shared by [enable()] and [disable()]: the loop over
    [d_devices]. *)
Definition each_device (c : string -> call) (m : Device -> result Device)
  (r : Robot) : result Robot :=
  fold_left
    (fun acc key =>
       r <- acc ;;
       '(_, r) <- on_device (Some key) c (fun d => unit_result (m d)) r ;;
       Ok r)
    (Obj.keys (d_devices r)) (Ok r).

Definition enable (r : Robot) : result Robot :=
  each_device call_enable device_enable (with_enabled true r).

Definition disable (r : Robot) : result Robot :=
  each_device call_disable device_disable (with_enabled false r).

(** [Constants.PinModes[mode] === undefined] *)
Definition PinModes_undefined (mode : string) : bool :=
  match Constants.PinModes C mode with
  | Some _ => false
  | None => negb (Obj.inherited mode)
  end.

(** [if (deviceMapInfo.direction)]: a string is false when it is empty. *)
Definition direction_set (d : option string) : bool :=
  match d with
  | Some s => negb (s =? "")%string
  | None => false
  end.

Definition configureDigitalPinMode (channel : Z) (mode : string) (r : Robot)
  : result Robot :=
  let channelName := "D-" ++ Str.of_number channel in
  if PinModes_undefined mode
  then Throw (Error ("Invalid pin mode (" ++ mode ++ ") specified"))
  else
    match Obj.get (d_portDeviceMaps r) channelName with
    | Obj.Own deviceMapInfo =>
        if direction_set (direction deviceMapInfo)
        then Throw (Error ("Attempting to configure a non-configurable pin " ++ channelName))
        else
          '(_, r) <- on_device (device deviceMapInfo)
                       (fun dev => call_configurePin dev (devicePort deviceMapInfo) mode)
                       (fun d => unit_result
                                   (device_configurePin d (devicePort deviceMapInfo) mode))
                       r ;;
          Ok r
    | Obj.Proto => Throw (TypeError "Cannot read properties of undefined")
    | Obj.Absent =>
        Throw (Error ("Attempting to set mode on unmapped pin " ++ channelName))
    end.

(** The part [writeDigital] and [writePWM] have in common once the
    channel name and the value are fixed. *)
Definition write_port (channelName : string) (value : JSValue) (r : Robot)
  : result Robot :=
  match Obj.get (d_portDeviceMaps r) channelName with
  | Obj.Own deviceMapInfo =>
      '(_, r) <- on_device (device deviceMapInfo)
                   (fun dev => call_write dev (devicePortType deviceMapInfo)
                                          (devicePort deviceMapInfo) value)
                   (fun d => unit_result
                               (device_write d (devicePortType deviceMapInfo)
                                             (devicePort deviceMapInfo) value))
                   r ;;
      Ok r
  | Obj.Proto => Throw (TypeError "Cannot read properties of undefined")
  | Obj.Absent =>
      Throw (Error ("Attempting to write to unmapped port " ++ channelName))
  end.

Definition writeDigital (channel : Z) (value : JSValue) (r : Robot)
  : result Robot :=
  if negb (d_enabled r) then Ok r
  else
    let channelName := "D-" ++ Str.of_number channel in
    let value := boolean (truthy value) in
    write_port channelName value r.

Definition writePWM (channel : Z) (value : JSValue) (r : Robot)
  : result Robot :=
  if negb (d_enabled r) then Ok r
  else
    let channelName := "PWM-" ++ Str.of_number channel in
    write_port channelName value r.

(** The body the three read methods share once the channel name is
    fixed. *)
Definition read_port (channelName : string) (r : Robot)
  : result (JSValue * Robot) :=
  match Obj.get (d_portDeviceMaps r) channelName with
  | Obj.Own deviceMapInfo =>
      on_device (device deviceMapInfo)
        (fun dev => call_read dev (devicePortType deviceMapInfo)
                              (devicePort deviceMapInfo))
        (fun d => device_read d (devicePortType deviceMapInfo)
                              (devicePort deviceMapInfo))
        r
  | Obj.Proto => Throw (TypeError "Cannot read properties of undefined")
  | Obj.Absent =>
      Throw (Error ("Attempting to read from unmapped port " ++ channelName))
  end.

Definition readDigital (channel : Z) (r : Robot) : result (JSValue * Robot) :=
  read_port ("D-" ++ Str.of_number channel) r.

Definition readAnalog (channel : Z) (r : Robot) : result (JSValue * Robot) :=
  read_port ("A-" ++ Str.of_number channel) r.

Definition readBattMV (r : Robot) : result (JSValue * Robot) :=
  read_port "batt" r.

(** The outcome of a read, with the router's flag set to [x] in the
    state it leaves. *)
Definition flagged (x : bool) (res : result (JSValue * Robot))
  : result (JSValue * Robot) :=
  match res with
  | Ok (v, r) => Ok (v, with_enabled x r)
  | Throw e => Throw e
  end.

(** [pData.direction || Constants.PortDirections.BOTH] *)
Definition direction_or_BOTH (d : option string) : string :=
  match d with
  | Some s => if (s =? "")%string then Constants.PortDirections_BOTH C else s
  | None => Constants.PortDirections_BOTH C
  end.

(** One round of the loop of [getPortList]. *)
Definition addPort (portList : PortList) (portName : string) (pData : PortDevice)
  : PortList :=
  let portNameSplit := Str.split "-" portName in
  match portNameSplit with
  | pType :: second :: _ =>
      match Str.parseInt second with
      | None => portList
      | Some pChannel =>
          if (pType =? "D")%string then
            {| digital := digital portList ++
                 [{| channel := pChannel;
                     pd_direction := Some (direction_or_BOTH (direction pData)) |}];
               analog := analog portList;
               pwm := pwm portList |}
          else if (pType =? "A")%string then
            {| digital := digital portList;
               analog := analog portList ++
                 [{| channel := pChannel; pd_direction := None |}];
               pwm := pwm portList |}
          else if (pType =? "PWM")%string then
            {| digital := digital portList;
               analog := analog portList;
               pwm := pwm portList ++
                 [{| channel := pChannel; pd_direction := None |}] |}
          else portList
      end
  | _ => portList
  end.

(** [getPortList()]: the list, and the router after the call. *)
Definition getPortList (r : Robot) : PortList * Robot :=
  let portList := {| digital := []; analog := []; pwm := [] |} in
  let portMap := d_portDeviceMaps r in
  (fold_left (fun portList '(portName, pData) => addPort portList portName pData)
             portMap portList,
   r).

End WithDevices.

End Robot.

(* ===================================================================== *)
(** ** Vocabulary of the properties                                       *)
(* ===================================================================== *)

Module Spec.

Import PololuAstarBoard.

(** [clamp(v, -1, 1)] *)
Definition clamp (v : number) : number :=
  if lt v (of_Z (-1)) then of_Z (-1)
  else if lt (of_Z 1) v then of_Z 1
  else v.

(** The 16-bit two's-complement encoding of an integer. *)
Definition twos_complement16 (n : Z) : Z := n mod 2 ^ 16.

(** The signed integer a 16-bit two's-complement word stands for. *)
Definition s16_decode (w : Z) : Z := if w <? 32768 then w else w - 65536.

(** The integer the spec asks [writePWM] to send:
    round(clamp(v, -1, 1) * 400). *)
Definition pwm_level (v : number) : Z :=
  ToInt32_number (Math_round (mul (clamp v) (of_Z 400))).

(** That integer encoded on 16 bits. *)
Definition pwm_word (v : number) : Z := twos_complement16 (pwm_level v).

(** The sign bit of a number; NaN has none. *)
Definition sign_bit (x : number) : option bool :=
  match x with
  | S754_zero s | S754_infinity s | S754_finite s _ _ => Some s
  | S754_nan => None
  end.

(** Modelled from the spec: the bus transport is an external collaborator
    and its [writeWordSync] is not among the sources.  The register map of
    the spec stores each PWM word big-endian: the high byte goes to the
    register addressed and the low byte to the one after it.  [wire_word]
    lists the (register, byte) pairs such a call leaves on the board. *)
Definition wire_word (register word : Z) : list (Z * Z) :=
  [(register, word / 256 mod 256); (register + 1, word mod 256)].

(** What one action makes of the pending buffer: a write lays its bytes
    over it, a poll replaces it by the image read. *)
Definition overlay (a : action) (out : Buffer) : Buffer :=
  match a with
  | act_writeByte register byte => Buffer_set out register (JNum byte)
  | act_writeWord register word =>
      Buffer_set
        (Buffer_set out register (bit_and (shift_right (JNum word) 8) (JNum 255)))
        (register + 1) (bit_and (JNum word) (JNum 255))
  | act_writeBuffer register buffer =>
      fold_left
        (fun out i =>
           Buffer_set out (register + Z.of_nat i) (Buffer_get buffer (Z.of_nat i)))
        (seq 0 (List.length buffer)) out
  | act_getBoardStatus answer => answer
  end.

(** All the writes of a schedule laid over a buffer, in order. *)
Definition merged (schedule : list (Z * action)) (out : Buffer) : Buffer :=
  fold_left (fun out a => overlay a out) (map snd schedule) out.

(** The buffer the first write of a window starts from: the pending
    buffer when there is one, else a copy of the image read last. *)
Definition pending (b : Board) (last : Buffer) : Buffer :=
  match d_outBuf b with
  | Some out => out
  | None => last
  end.

(** A flush window is open on [b]: since [b0], a first write at [t0] has
    set the one timer, and nothing has reached the bus. *)
Definition in_window (t0 : Z) (b0 b : Board) (out : Buffer) : Prop :=
  d_outBuf b = Some out /\ d_hasNewData b = true /\
  timeouts b = [t0 + 25] /\ clock b < t0 + 25 /\
  d_addr b = d_addr b0 /\ d_i2c b = d_i2c b0 /\ d_lastBuf b = d_lastBuf b0.

(** The error the port loop of the constructor throws at a name that is
    already bound. *)
Definition mapped_twice (name : string) : exn :=
  Error ("Attempting to assign already mapped port: " ++ name).

(** The integer a number value holds. *)
Definition num_of (v : jsval) : Z :=
  match v with
  | JNum z => z
  | _ => 0
  end.

(** The nibbles of two bytes are as wanted for the setting [4 | bits] and
    the old byte [old]: [hi] has the setting in its high nibble and the
    low nibble of [old]; [lo] has the setting in its low nibble and the
    high nibble of [old]. *)
Definition nibbles_check (hi lo bits old : Z) : bool :=
  (hi / 16 =? Z.lor 4 bits) && (hi mod 16 =? old mod 16) &&
  (lo mod 16 =? Z.lor 4 bits) && (lo / 16 =? old / 16).

End Spec.

(* ===================================================================== *)
(** ** Concrete inputs for the examples                                   *)
(* ===================================================================== *)

Module Examples.

Import PololuAstarBoard.

(** A register image: buttons A and C down, analog input 0 at 300,
    battery at 7200 mV. *)
Definition image : Buffer :=
  [0; 0; 0; 5; 42; 1; 44; 0; 0; 0; 0; 0; 0; 255; 255; 28; 32; 0; 0; 0; 0; 0; 0].

Definition zeros : Buffer := repeat 0 23.

(** A driver at bus address 20 after its first poll. *)
Definition polled : Board := getBoardStatus zeros (new 20 0).

Definition modes : Constants.t :=
  {| Constants.PinModes_INPUT := "INPUT";
     Constants.PinModes_INPUT_PULLUP := "INPUT_PULLUP";
     Constants.PinModes_OUTPUT := "OUTPUT";
     Constants.PortDirections_BOTH := "BOTH" |}.

(** A device that remembers what was written to each of its ports and
    reads it back. *)
Definition Memo : Type := list (string * Z * jsval).

Definition memo_write (d : Memo) (portType : string) (port : Z) (value : jsval)
  : result Memo :=
  Ok ((portType, port, value) :: d).

Definition memo_read (d : Memo) (portType : string) (port : Z)
  : result (jsval * Memo) :=
  match find (fun e => (fst (fst e) =? portType)%string && (snd (fst e) =? port)) d with
  | Some e => Ok (snd e, d)
  | None => Ok (JUndefined, d)
  end.

Definition memo_configurePin (d : Memo) (port : Z) (mode : string) : result Memo :=
  Ok d.

Definition memo_construct (cls : unit) (id : string)
  (iface : Obj.slot (option unit)) (config : unit) : result Memo :=
  Ok [].

Definition memo_builtin (type : string) : option unit :=
  if (type =? "Memo")%string then Some tt else None.

Definition port (dev portType : string) (n : Z) (dir : option string)
  : Robot.MapInfo :=
  {| Robot.deviceId := dev; Robot.mi_devicePortType := portType;
     Robot.mi_devicePort := n; Robot.mi_direction := dir |}.

Definition memo_spec : Robot.DeviceSpec unit unit :=
  {| Robot.type := "Memo"; Robot.id := "board"; Robot.interfaceId := "i2c";
     Robot.implementation := None; Robot.config := tt |}.

(** One device, a digital, an analog and a PWM port. *)
Definition config : Robot.Config unit unit unit :=
  {| Robot.interfaces := Some [];
     Robot.devices := Some [memo_spec];
     Robot.portMap :=
       [("D-0", port "board" "digital" 0 None);
        ("A-0", port "board" "analog" 0 (Some "IN"));
        ("PWM-1", port "board" "pwm" 1 (Some "OUT"))] |}.

(** A port map as one may write it, with the name D-0 twice. *)
Definition ports_twice : list (string * Robot.MapInfo) :=
  [("D-0", port "board" "digital" 0 None);
   ("A-0", port "board" "analog" 0 None);
   ("D-0", port "board" "digital" 1 None)].

(** The configuration with that port map: the object literal holds D-0
    once, with the later entry. *)
Definition config_twice : Robot.Config unit unit unit :=
  {| Robot.interfaces := Some [];
     Robot.devices := Some [memo_spec];
     Robot.portMap := Obj.literal ports_twice |}.

(** A port map with a name that every object inherits. *)
Definition config_inherited : Robot.Config unit unit unit :=
  {| Robot.interfaces := Some [];
     Robot.devices := Some [memo_spec];
     Robot.portMap :=
       Obj.literal [("D-0", port "board" "digital" 0 None);
                    ("toString", port "board" "digital" 1 None)] |}.

Definition robot_of (c : Robot.Config unit unit unit)
  : result (Robot.Robot jsval unit unit unit Memo) :=
  Robot.new jsval memo_construct memo_builtin c.

(** The router built from [config]; it starts disabled. *)
Definition robot : Robot.Robot jsval unit unit unit Memo :=
  Eval vm_compute in
    match robot_of config with
    | Ok r => r
    | Throw _ => Robot.blank jsval Memo config
    end.

End Examples.

(* ===================================================================== *)
(** ** A driver over its lifetime                                         *)
(* ===================================================================== *)

Module Session.

Import PololuAstarBoard.

(** Everything a caller or a timer can ask of a driver: the buffered
    writes and the poll of [action], and the three methods that write to
    the bus at once.  The three read methods change nothing and are left
    out. *)
Inductive request : Type :=
| req_action (a : action)
| req_configurePin (channel : Z) (mode : string)
| req_writeDigital (channel : Z) (value : jsval)
| req_writePWM (channel : Z) (value : number).

Definition serve (C : Constants.t) (q : request) (b : Board) : result Board :=
  match q with
  | req_action a => perform a b
  | req_configurePin channel mode => configurePin C channel mode b
  | req_writeDigital channel value => writeDigital channel value b
  | req_writePWM channel value => Ok (writePWM channel value b)
  end.

(** Requests with the times at which they arrive; the timers that are due
    fire before each of them. *)
Fixpoint session (C : Constants.t) (schedule : list (Z * request)) (b : Board)
  : result Board :=
  match schedule with
  | [] => Ok b
  | (t, q) :: rest =>
      b <- advance t b ;;
      b <- serve C q b ;;
      session C rest b
  end.

Definition is_poll (q : request) : bool :=
  match q with
  | req_action (act_getBoardStatus _) => true
  | _ => false
  end.

(** The block writes among the calls made on the bus: the flushes. *)
Definition flushes (ops : list bus_op) : nat :=
  List.length
    (filter (fun op => match op with writeSync _ _ _ => true | _ => false end)
            ops).

(** A driver is balanced when it has flushed or is waiting to flush
    exactly as often as its flag says: once when [d_hasNewData] is set,
    never when it is not. *)
Definition balanced (b : Board) : Prop :=
  (flushes (d_i2c b) + List.length (timeouts b))%nat
  = if d_hasNewData b then 1%nat else 0%nat.

(** The bits 0 to 7 of [new] are those of [old], but for bit [channel],
    which is [value]. *)
Definition one_bit_changed (old new channel : Z) (value : bool) : bool :=
  forallb
    (fun j =>
       Bool.eqb (Z.testbit new j)
                (if j =? channel then value else Z.testbit old j))
    [0; 1; 2; 3; 4; 5; 6; 7].

(** The parts of a driver that no method assigns after the constructor:
    the bus address and the output side of the state cache. *)
Definition same_outputs (b b' : Board) : Prop :=
  d_addr b' = d_addr b /\
  leds (d_boardState b') = leds (d_boardState b) /\
  motors (d_boardState b') = motors (d_boardState b) /\
  digitalOut (d_boardState b') = digitalOut (d_boardState b).

(** The two bytes [writeDigital] can send for an old byte are bytes, and
    differ from the old byte in the bit of the channel only.  [set] is
    the byte for a true value, [clr] the one for a false value. *)
Definition digital_check (old set clr channel : Z) : bool :=
  (0 <=? set) && (set <? 256) && one_bit_changed old set channel true &&
  (0 <=? clr) && (clr <? 256) && one_bit_changed old clr channel false.

End Session.


(* ===================================================================== *)
(** ** More example configurations                                        *)
(* ===================================================================== *)

Module MoreExamples.

(** Three interface entries with the id i2c: the first comes without an
    implementation, the other two with the implementations 1 and 2. *)
Definition buses : Robot.Config nat unit unit :=
  {| Robot.interfaces :=
       Some [{| Robot.if_type := "I2C"; Robot.if_id := "i2c";
                Robot.if_implementation := None |};
             {| Robot.if_type := "I2C"; Robot.if_id := "i2c";
                Robot.if_implementation := Some 1%nat |};
             {| Robot.if_type := "I2C"; Robot.if_id := "i2c";
                Robot.if_implementation := Some 2%nat |}];
     Robot.devices := Some [];
     Robot.portMap := [] |}.

(** A device list whose second device names no built-in type and brings
    no implementation. *)
Definition classless : Robot.Config unit unit unit :=
  {| Robot.interfaces := None;
     Robot.devices :=
       Some [Examples.memo_spec;
             {| Robot.type := "Servo"; Robot.id := "arm";
                Robot.interfaceId := "i2c";
                Robot.implementation := None; Robot.config := tt |}];
     Robot.portMap := [] |}.

(** A device whose [enable] and [disable] do nothing. *)
Definition memo_switch (d : Examples.Memo) : result Examples.Memo := Ok d.

End MoreExamples.

(* ===================================================================== *)
(** ** Properties of the board driver                                     *)
(* ===================================================================== *)

Import PololuAstarBoard.
Import Spec.

(** *** Integer operators on bytes *)

Lemma wrap32_small z : - 2 ^ 31 <= z < 2 ^ 31 -> wrap32 z = z.
Proof. intros H. unfold wrap32. rewrite Z.mod_small; lia. Qed.

Lemma nth_Array_set_eq arr n v : nth n (Array_set arr n v) JUndefined = v.
Proof.
  revert arr. induction n as [|n IH]; intros [|h t]; simpl; auto.
Qed.

Lemma nth_Array_set_neq arr n m v :
  n <> m -> nth m (Array_set arr n v) JUndefined = nth m arr JUndefined.
Proof.
  revert arr m. induction n as [|n IH]; intros [|h t] [|m] Hneq; simpl;
    try congruence; auto.
  - destruct m; reflexivity.
  - rewrite IH by congruence. destruct m; reflexivity.
Qed.

Lemma byte_hi_lo hi lo :
  is_byte hi -> is_byte lo ->
  add (shift_left (JNum hi) 8) (JNum lo) = JNum (hi * 256 + lo).
Proof.
  unfold is_byte, shift_left, add, ToInt32. intros Hh Hl.
  rewrite (wrap32_small hi) by lia.
  change (8 mod 32) with 8. rewrite Z.shiftl_mul_pow2 by lia.
  change (2 ^ 8) with 256. rewrite wrap32_small by lia. reflexivity.
Qed.

Lemma byte_bit x n :
  is_byte x -> 0 <= n < 32 ->
  bit_and (shift_right (JNum x) n) (JNum 1) = JNum (Z.b2z (Z.testbit x n)).
Proof.
  unfold is_byte, bit_and, shift_right, ToInt32. intros Hx Hn.
  rewrite (wrap32_small x) by lia. rewrite (wrap32_small 1) by lia.
  rewrite Z.mod_small by lia.
  assert (Hs : 0 <= Z.shiftr x n < 256).
  { rewrite Z.shiftr_div_pow2 by lia. split.
    - apply Z.div_pos; [lia | apply Z.pow_pos_nonneg; lia].
    - apply Z.le_lt_trans with x; [| lia].
      apply Z.div_le_upper_bound; [apply Z.pow_pos_nonneg; lia |].
      assert (0 < 2 ^ n) by (apply Z.pow_pos_nonneg; lia). nia. }
  rewrite wrap32_small by lia.
  change 1 with (Z.ones 1). rewrite Z.land_ones by lia.
  change (2 ^ 1) with 2. rewrite <- Z.bit0_mod. rewrite Z.shiftr_spec by lia.
  rewrite Z.add_0_l. reflexivity.
Qed.

Lemma byte_bit0 x :
  is_byte x -> bit_and (JNum x) (JNum 1) = JNum (Z.b2z (Z.testbit x 0)).
Proof.
  unfold is_byte, bit_and, ToInt32. intros Hx.
  rewrite (wrap32_small x) by lia. rewrite (wrap32_small 1) by lia.
  change 1 with (Z.ones 1). rewrite Z.land_ones by lia.
  change (2 ^ 1) with 2. rewrite <- Z.bit0_mod. reflexivity.
Qed.

Lemma Forall_is_byte_nth (buf : Buffer) (i : nat) :
  Forall is_byte buf -> is_byte (nth i buf 0).
Proof.
  intros H. destruct (Nat.lt_ge_cases i (List.length buf)) as [Hlt | Hge].
  - apply Forall_nth; assumption.
  - rewrite nth_overflow by assumption. unfold is_byte. lia.
Qed.

Lemma Buffer_get_nth (buf : Buffer) (i : Z) :
  0 <= i < Z.of_nat (List.length buf) ->
  Buffer_get buf i = JNum (nth (Z.to_nat i) buf 0).
Proof.
  intros H. unfold Buffer_get.
  destruct (Z.ltb_spec i 0) as [Hn | _]; [lia |].
  destruct (nth_error buf (Z.to_nat i)) as [x |] eqn:E.
  - rewrite (nth_error_nth _ _ _ E). reflexivity.
  - apply nth_error_None in E. lia.
Qed.

(** *** Decoding a poll *)

(** C6.  For every 23-byte register image read by the poll, the decoder
    stores in the state cache: bits 0, 1 and 2 of byte 3 as buttons A, B
    and C; bits 0 to 5 of byte 4 as the six digital inputs; the
    big-endian unsigned 16-bit word at bytes 5+2i and 6+2i as analog
    input i; and the big-endian word at bytes 15 and 16 as the battery
    millivolts.  The bits are stored as the numbers 1 and 0, which are
    true and false under [!!].  With byte 3 equal to 5 the buttons A, B,
    C read true, false, true; with bytes 5 and 6 equal to 1 and 44 analog
    input 0 is 300. *)
Theorem getBoardStatus_decodes :
  forall (buf : Buffer) (b : Board),
    List.length buf = 23%nat ->
    Forall is_byte buf ->
    let s := d_boardState (getBoardStatus buf b) in
    let byte i := nth (Z.to_nat i) buf 0 in
    (buttonA (buttons s) = JNum (Z.b2z (Z.testbit (byte 3) 0)) /\
     buttonB (buttons s) = JNum (Z.b2z (Z.testbit (byte 3) 1)) /\
     buttonC (buttons s) = JNum (Z.b2z (Z.testbit (byte 3) 2))) /\
    (forall i, 0 <= i < 6 ->
       Array_get (digitalIn s) i = JNum (Z.b2z (Z.testbit (byte 4) i))) /\
    (forall i, 0 <= i < 5 ->
       Array_get (analogIn s) i
       = JNum (byte (5 + 2 * i) * 256 + byte (6 + 2 * i))) /\
    battMV s = JNum (byte 15 * 256 + byte 16) /\
    (byte 3 = 5 ->
       ToBoolean (buttonA (buttons s)) = true /\
       ToBoolean (buttonB (buttons s)) = false /\
       ToBoolean (buttonC (buttons s)) = true) /\
    (byte 5 = 1 -> byte 6 = 44 -> Array_get (analogIn s) 0 = JNum 300).
Proof.
  intros buf b Hlen Hbytes s byte.
  assert (Hget : forall i, 0 <= i < 23 -> Buffer_get buf i = JNum (byte i)).
  { intros i Hi. apply Buffer_get_nth. lia. }
  assert (Hb : forall i, is_byte (byte i)).
  { intros i. apply Forall_is_byte_nth. assumption. }
  assert (Hbtn : buttons s =
            {| buttonA := JNum (Z.b2z (Z.testbit (byte 3) 0));
               buttonB := JNum (Z.b2z (Z.testbit (byte 3) 1));
               buttonC := JNum (Z.b2z (Z.testbit (byte 3) 2)) |}).
  { subst s. unfold getBoardStatus, decode.
    cbn [d_boardState with_boardState fold_left seq set_digitalIn set_battMV
         set_buttons buttons].
    rewrite (Hget 3) by lia.
    rewrite byte_bit0, !byte_bit by (auto; lia). reflexivity. }
  assert (Hain : forall i, 0 <= i < 5 ->
            Array_get (analogIn s) i
            = JNum (byte (5 + 2 * i) * 256 + byte (6 + 2 * i))).
  { intros i Hi. unfold Array_get.
    destruct (Z.ltb_spec i 0) as [Hn | _]; [lia |].
    subst s. unfold getBoardStatus, decode.
    cbn [d_boardState with_boardState fold_left seq set_digitalIn set_battMV
         set_buttons set_analogIn analogIn Z.of_nat].
    change (Z.pos (Pos.of_succ_nat 0)) with 1.
    change (Z.pos (Pos.of_succ_nat 1)) with 2.
    change (Z.pos (Pos.of_succ_nat 2)) with 3.
    change (Z.pos (Pos.of_succ_nat 3)) with 4.
    cbn [Z.mul Z.add Pos.mul Pos.add Pos.succ].
    rewrite !Hget by lia. rewrite !byte_hi_lo by auto.
    assert (Hi' : i = 0 \/ i = 1 \/ i = 2 \/ i = 3 \/ i = 4) by lia.
    destruct Hi' as [-> | [-> | [-> | [-> | ->]]]];
      cbn [Z.to_nat Pos.to_nat Pos.iter_op Nat.add];
      repeat (rewrite nth_Array_set_neq by lia);
      rewrite nth_Array_set_eq; reflexivity. }
  assert (Hdin : forall i, 0 <= i < 6 ->
            Array_get (digitalIn s) i = JNum (Z.b2z (Z.testbit (byte 4) i))).
  { intros i Hi. unfold Array_get.
    destruct (Z.ltb_spec i 0) as [Hn | _]; [lia |].
    subst s. unfold getBoardStatus, decode.
    cbn [d_boardState with_boardState fold_left seq set_digitalIn set_battMV
         set_buttons set_analogIn digitalIn Z.of_nat].
    change (Z.pos (Pos.of_succ_nat 0)) with 1.
    change (Z.pos (Pos.of_succ_nat 1)) with 2.
    change (Z.pos (Pos.of_succ_nat 2)) with 3.
    change (Z.pos (Pos.of_succ_nat 3)) with 4.
    change (Z.pos (Pos.of_succ_nat 4)) with 5.
    rewrite !Hget by lia. rewrite !byte_bit by (auto; lia).
    assert (Hi' : i = 0 \/ i = 1 \/ i = 2 \/ i = 3 \/ i = 4 \/ i = 5) by lia.
    destruct Hi' as [-> | [-> | [-> | [-> | [-> | ->]]]]];
      cbn [Z.to_nat Pos.to_nat Pos.iter_op Nat.add];
      repeat (rewrite nth_Array_set_neq by lia);
      rewrite nth_Array_set_eq; reflexivity. }
  assert (Hbatt : battMV s = JNum (byte 15 * 256 + byte 16)).
  { subst s. unfold getBoardStatus, decode.
    cbn [d_boardState with_boardState set_battMV battMV].
    rewrite !Hget by lia. rewrite byte_hi_lo by auto. reflexivity. }
  split; [rewrite Hbtn; cbn [buttonA buttonB buttonC]; auto |].
  split; [exact Hdin |]. split; [exact Hain |]. split; [exact Hbatt |].
  split.
  - intros H3. rewrite Hbtn. cbn [buttonA buttonB buttonC]. rewrite H3.
    repeat split; reflexivity.
  - intros H5 H6. rewrite (Hain 0) by lia.
    change (5 + 2 * 0) with 5. change (6 + 2 * 0) with 6.
    rewrite H5, H6. reflexivity.
Qed.

Lemma getBoardStatus_decodes_witness :
  List.length Examples.image = 23%nat /\
  Forall is_byte Examples.image /\
  ToBoolean (buttonA (buttons (d_boardState
     (getBoardStatus Examples.image (new 20 0))))) = true /\
  Array_get (analogIn (d_boardState
     (getBoardStatus Examples.image (new 20 0)))) 0 = JNum 300.
Proof.
  assert (Hlen : List.length Examples.image = 23%nat) by reflexivity.
  assert (Hb : Forall is_byte Examples.image).
  { unfold Examples.image, is_byte. repeat constructor; lia. }
  destruct (getBoardStatus_decodes Examples.image (new 20 0) Hlen Hb)
    as (_ & _ & _ & _ & Hbtn & Hain).
  split; [exact Hlen |]. split; [exact Hb |]. split.
  - apply Hbtn. reflexivity.
  - apply Hain; reflexivity.
Defined.

(** *** The PWM word *)

Lemma SFopp_binary_round_aux s m e l :
  SFopp (binary_round_aux prec emax s m e l)
  = binary_round_aux prec emax (negb s) m e l.
Proof.
  unfold binary_round_aux.
  destruct (shr_fexp prec emax m e l) as [mrs' e'].
  destruct (shr_fexp prec emax _ e' loc_Exact) as [mrs'' e''].
  destruct (shr_m mrs''); try reflexivity.
  destruct (e'' <=? emax - prec); reflexivity.
Qed.

Lemma sign_binary_round_aux s m e l :
  binary_round_aux prec emax s m e l = S754_nan \/
  sign_bit (binary_round_aux prec emax s m e l) = Some s.
Proof.
  unfold binary_round_aux.
  destruct (shr_fexp prec emax m e l) as [mrs' e'].
  destruct (shr_fexp prec emax _ e' loc_Exact) as [mrs'' e''].
  destruct (shr_m mrs''); [right; reflexivity | | left; reflexivity].
  destruct (e'' <=? emax - prec); right; reflexivity.
Qed.

(** Scaling the magnitude and putting the sign back is scaling the signed
    number: IEEE multiplication is symmetric in the sign. *)
Lemma neg_mul_neg (x : number) :
  neg (mul (neg x) (of_Z 400)) = mul x (of_Z 400).
Proof.
  unfold neg, mul.
  change (of_Z 400) with (S754_finite false 7036874417766400 (-44)).
  destruct x as [s | s | | s m e]; cbn [SFopp SFmul].
  - destruct s; reflexivity.
  - destruct s; reflexivity.
  - reflexivity.
  - rewrite SFopp_binary_round_aux. destruct s; reflexivity.
Qed.

Lemma sign_mul_400 (x : number) :
  mul x (of_Z 400) = S754_nan \/ sign_bit (mul x (of_Z 400)) = sign_bit x.
Proof.
  unfold mul.
  change (of_Z 400) with (S754_finite false 7036874417766400 (-44)).
  destruct x as [s | s | | s m e]; cbn [SFmul sign_bit].
  - right. destruct s; reflexivity.
  - right. destruct s; reflexivity.
  - left. reflexivity.
  - replace (xorb s false) with s by (destruct s; reflexivity).
    apply sign_binary_round_aux.
Qed.

Lemma sign_clamp (v : number) : sign_bit (clamp v) = sign_bit v.
Proof.
  unfold clamp, lt, SFltb.
  change (of_Z (-1)) with (S754_finite true 4503599627370496 (-52)).
  change (of_Z 1) with (S754_finite false 4503599627370496 (-52)).
  destruct v as [s | s | | s m e]; cbn [SFcompare]; try reflexivity.
  - destruct s; reflexivity.
  - destruct s;
      repeat match goal with
             | |- context [if ?c then _ else _] => destruct c
             end; reflexivity.
Qed.

Lemma lt_minus_one_not_above_one (v : number) :
  lt v (of_Z (-1)) = true -> lt (of_Z 1) v = false.
Proof.
  unfold lt, SFltb.
  change (of_Z (-1)) with (S754_finite true 4503599627370496 (-52)).
  change (of_Z 1) with (S754_finite false 4503599627370496 (-52)).
  destruct v as [s | s | | s m e]; cbn [SFcompare]; try discriminate.
  - destruct s; [reflexivity | discriminate].
  - destruct s; [reflexivity | discriminate].
Qed.

Lemma pwm_output_clamp (v : number) :
  pwm_output v = mul (clamp v) (of_Z 400).
Proof.
  unfold pwm_output, clamp.
  destruct (lt v (of_Z (-1))) eqn:Hlo.
  - reflexivity.
  - destruct (lt (of_Z 1) v) eqn:Hhi.
    + reflexivity.
    + destruct (lt v (of_Z 0)) eqn:Hneg.
      * apply neg_mul_neg.
      * reflexivity.
Qed.

Lemma pwm_word_range (v : number) : 0 <= pwm_word v < 65536.
Proof. unfold pwm_word, twos_complement16. apply Z.mod_pos_bound. lia. Qed.

(** *** The range of the PWM word

    How [SFmul] rounds: the mantissa is divided by a power of two and the
    result moved up by at most one. *)

Lemma digits2_pos_bounds (p : positive) :
  2 ^ (Zpos (digits2_pos p) - 1) <= Zpos p < 2 ^ Zpos (digits2_pos p).
Proof.
  induction p as [p IH | p IH |]; cbn [digits2_pos].
  - rewrite Pos2Z.inj_succ. replace (Z.succ (Zpos (digits2_pos p)) - 1)
      with (Z.succ (Zpos (digits2_pos p) - 1)) by lia.
    rewrite !Z.pow_succ_r by lia. rewrite (Pos2Z.inj_xI p).
    remember (2 ^ (Zpos (digits2_pos p) - 1)) as lo in *.
    remember (2 ^ Zpos (digits2_pos p)) as hi in *. clear Heqlo Heqhi. lia.
  - rewrite Pos2Z.inj_succ. replace (Z.succ (Zpos (digits2_pos p)) - 1)
      with (Z.succ (Zpos (digits2_pos p) - 1)) by lia.
    rewrite !Z.pow_succ_r by lia. rewrite (Pos2Z.inj_xO p).
    remember (2 ^ (Zpos (digits2_pos p) - 1)) as lo in *.
    remember (2 ^ Zpos (digits2_pos p)) as hi in *. clear Heqlo Heqhi. lia.
  - cbn. lia.
Qed.

Lemma shr_1_m (mrs : shr_record) :
  0 <= shr_m mrs ->
  shr_m (shr_1 mrs) = shr_m mrs / 2 /\ 0 <= shr_m (shr_1 mrs).
Proof.
  destruct mrs as [m r s]. cbn [shr_m]. intros Hm.
  destruct m as [| p | p]; [| | lia].
  - cbn. split; [reflexivity | lia].
  - destruct p as [p | p |]; cbn [shr_1 shr_m].
    + split; [| lia]. rewrite (Pos2Z.inj_xI p).
      apply Z.div_unique with (r := 1); lia.
    + split; [| lia]. rewrite (Pos2Z.inj_xO p).
      apply Z.div_unique with (r := 0); lia.
    + split; [reflexivity | lia].
Qed.

Lemma iter_pos_shr_1 (p : positive) :
  forall mrs : shr_record,
    0 <= shr_m mrs ->
    shr_m (iter_pos shr_1 p mrs) = shr_m mrs / 2 ^ Zpos p /\
    0 <= shr_m (iter_pos shr_1 p mrs).
Proof.
  induction p as [p IH | p IH |]; intros mrs Hm; cbn [iter_pos].
  - destruct (shr_1_m mrs Hm) as [E1 P1].
    destruct (IH _ P1) as [E2 P2]. destruct (IH _ P2) as [E3 P3].
    split; [| exact P3]. rewrite E3, E2, E1.
    assert (Hp : 0 < 2 ^ Zpos p) by (apply Z.pow_pos_nonneg; lia).
    rewrite !Z.div_div by lia. f_equal.
    rewrite (Pos2Z.inj_xI p).
    replace (2 * Zpos p + 1) with (1 + Zpos p + Zpos p) by lia.
    rewrite !Z.pow_add_r by lia. change (2 ^ 1) with 2. lia.
  - destruct (IH _ Hm) as [E2 P2]. destruct (IH _ P2) as [E3 P3].
    split; [| exact P3]. rewrite E3, E2.
    assert (Hp : 0 < 2 ^ Zpos p) by (apply Z.pow_pos_nonneg; lia).
    rewrite !Z.div_div by lia. f_equal.
    rewrite (Pos2Z.inj_xO p).
    replace (2 * Zpos p) with (Zpos p + Zpos p) by lia.
    rewrite !Z.pow_add_r by lia. reflexivity.
  - destruct (shr_1_m mrs Hm) as [E1 P1]. split; [| exact P1].
    rewrite E1. reflexivity.
Qed.

Lemma shr_m_of_loc (m : Z) (l : location) : shr_m (shr_record_of_loc m l) = m.
Proof. destruct l as [| []]; reflexivity. Qed.

(** [shr_fexp] moves the exponent up to the one the format asks for and
    divides the mantissa accordingly. *)
Lemma shr_fexp_spec (m e : Z) (l : location) :
  0 <= m ->
  let e' := Z.max e (fexp prec emax (Zdigits2 m + e)) in
  snd (shr_fexp prec emax m e l) = e' /\
  shr_m (fst (shr_fexp prec emax m e l)) = m / 2 ^ (e' - e) /\
  0 <= shr_m (fst (shr_fexp prec emax m e l)).
Proof.
  intros Hm e'. unfold shr_fexp, shr.
  remember (fexp prec emax (Zdigits2 m + e)) as f eqn:Ef.
  destruct (f - e) as [| p | p] eqn:En; cbn [fst snd].
  - rewrite shr_m_of_loc. subst e'. rewrite Z.max_l by lia.
    rewrite Z.sub_diag. change (2 ^ 0) with 1. rewrite Z.div_1_r. auto.
  - assert (Hmrs : 0 <= shr_m (shr_record_of_loc m l))
      by (rewrite shr_m_of_loc; exact Hm).
    destruct (iter_pos_shr_1 p _ Hmrs) as [E1 P1].
    subst e'. rewrite Z.max_r by lia.
    split; [lia |]. split; [| exact P1].
    rewrite E1, shr_m_of_loc. f_equal. f_equal. lia.
  - rewrite shr_m_of_loc. subst e'. rewrite Z.max_l by lia.
    rewrite Z.sub_diag. change (2 ^ 0) with 1. rewrite Z.div_1_r. auto.
Qed.

Lemma round_nearest_even_bounds (m : Z) (l : location) :
  m <= round_nearest_even m l <= m + 1.
Proof.
  unfold round_nearest_even. destruct l as [| []]; try lia.
  destruct (Z.even m); lia.
Qed.

Lemma pow2_pos (k : Z) : 0 < 2 ^ k \/ 2 ^ k = 0.
Proof.
  destruct (Z.le_gt_cases 0 k) as [H | H].
  - left. apply Z.pow_pos_nonneg; lia.
  - right. apply Z.pow_neg_r. lia.
Qed.

Lemma pow2_split (a b : Z) : 0 <= a -> 0 <= b -> 2 ^ (a + b) = 2 ^ a * 2 ^ b.
Proof. intros. apply Z.pow_add_r; assumption. Qed.

(** The product of a mantissa by 400 * 2^44, rounded: when the exact
    value is below 400 the rounded one is at most 400. *)
Lemma binary_round_aux_le_400 (s : bool) (M : positive) (E : Z) :
  -1200 <= E <= 4 ->
  Zpos M * 2 ^ (E + 1200) < 400 * 2 ^ 1200 ->
  match binary_round_aux prec emax s (Zpos M) E loc_Exact with
  | S754_finite s' m e =>
      s' = s /\ -1200 <= e /\ Zpos m * 2 ^ (e + 1200) <= 400 * 2 ^ 1200
  | S754_zero s' => s' = s
  | _ => True
  end.
Proof.
  intros HE HM. unfold binary_round_aux.
  assert (HMpos : 0 <= Zpos M) by lia.
  destruct (shr_fexp_spec (Zpos M) E loc_Exact HMpos) as (He1 & Hm1 & Hp1).
  destruct (shr_fexp prec emax (Zpos M) E loc_Exact) as [mrs1 e1].
  cbn [fst snd] in He1, Hm1, Hp1. rewrite <- He1 in Hm1.
  pose proof (round_nearest_even_bounds (shr_m mrs1) (loc_of_shr_record mrs1))
    as Hround.
  remember (round_nearest_even (shr_m mrs1) (loc_of_shr_record mrs1)) as mr
    eqn:Emr.
  assert (Hmr : 0 <= mr) by lia.
  destruct (shr_fexp_spec mr e1 loc_Exact Hmr) as (He2 & Hm2 & Hp2).
  destruct (shr_fexp prec emax mr e1 loc_Exact) as [mrs2 e2].
  cbn [fst snd] in He2, Hm2, Hp2. rewrite <- He2 in Hm2.
  destruct (shr_m mrs2) as [| m2 | m2] eqn:Em2; [reflexivity | | exact I].
  destruct (e2 <=? emax - prec); [| exact I].
  split; [reflexivity |].
  (* the exponents *)
  assert (HK : Zdigits2 (Zpos M) + E <= 9).
  { cbn [Zdigits2]. pose proof (digits2_pos_bounds M) as [Hlo _].
    assert (H1 : 2 ^ (Zpos (digits2_pos M) - 1) * 2 ^ (E + 1200)
                 < 2 ^ 9 * 2 ^ 1200).
    { apply Z.le_lt_trans with (Zpos M * 2 ^ (E + 1200)).
      - apply Z.mul_le_mono_nonneg_r; [apply Z.pow_nonneg; lia | exact Hlo].
      - change (2 ^ 9) with 512. lia. }
    rewrite <- !pow2_split in H1 by lia.
    apply Z.pow_lt_mono_r_iff in H1; lia. }
  assert (He1E : E <= e1 <= 4).
  { rewrite He1. unfold fexp, emin, prec, emax. lia. }
  assert (He2e1 : e1 <= e2) by (rewrite He2; lia).
  split; [lia |].
  (* the first shift floors *)
  assert (Hp : forall k, 0 <= k -> 0 < 2 ^ k)
    by (intros k Hk; apply Z.pow_pos_nonneg; lia).
  assert (H1 : shr_m mrs1 * 2 ^ (e1 - E) <= Zpos M).
  { rewrite Hm1, Z.mul_comm. apply Z.mul_div_le. apply Hp. lia. }
  assert (H2 : shr_m mrs1 * 2 ^ (e1 + 1200) < 25 * 2 ^ (4 - e1) * 2 ^ (e1 + 1200)).
  { replace (25 * 2 ^ (4 - e1) * 2 ^ (e1 + 1200)) with (400 * 2 ^ 1200).
    2:{ rewrite <- Z.mul_assoc, <- pow2_split by lia.
        replace (4 - e1 + (e1 + 1200)) with (4 + 1200) by lia.
        rewrite pow2_split by lia. change (2 ^ 4) with 16. lia. }
    apply Z.le_lt_trans with (Zpos M * 2 ^ (E + 1200)); [| exact HM].
    replace (e1 + 1200) with ((e1 - E) + (E + 1200)) by lia.
    rewrite pow2_split by lia. rewrite Z.mul_assoc.
    apply Z.mul_le_mono_nonneg_r; [apply Z.pow_nonneg; lia | exact H1]. }
  apply Z.mul_lt_mono_pos_r in H2; [| apply Hp; lia].
  assert (H3 : mr * 2 ^ (e1 + 1200) <= 400 * 2 ^ 1200).
  { replace (400 * 2 ^ 1200) with (25 * 2 ^ (4 - e1) * 2 ^ (e1 + 1200)).
    2:{ rewrite <- Z.mul_assoc, <- pow2_split by lia.
        replace (4 - e1 + (e1 + 1200)) with (4 + 1200) by lia.
        rewrite pow2_split by lia. change (2 ^ 4) with 16. lia. }
    apply Z.mul_le_mono_nonneg_r; [apply Z.pow_nonneg; lia | lia]. }
  (* the second shift floors *)
  assert (H4 : Zpos m2 * 2 ^ (e2 - e1) <= mr).
  { rewrite Hm2, Z.mul_comm. apply Z.mul_div_le. apply Hp. lia. }
  apply Z.le_trans with (mr * 2 ^ (e1 + 1200)); [| exact H3].
  replace (e2 + 1200) with ((e2 - e1) + (e1 + 1200)) by lia.
  rewrite pow2_split by lia. rewrite Z.mul_assoc.
  apply Z.mul_le_mono_nonneg_r; [apply Z.pow_nonneg; lia | exact H4].
Qed.

(** Integers up to 400 in size are numbers, and [&] reads them back. *)
Lemma ToInt32_of_small_all :
  forallb
    (fun z =>
       (ToInt32_number (binary_normalize prec emax z 0 false) =? z) &&
       (ToInt32_number (binary_normalize prec emax z 0 true) =? z))
    (map (fun n => Z.of_nat n - 400) (seq 0 801)) = true.
Proof. vm_compute. reflexivity. Qed.

Lemma ToInt32_of_small (z : Z) (s : bool) :
  -400 <= z <= 400 ->
  ToInt32_number (binary_normalize prec emax z 0 s) = z.
Proof.
  intros Hz. pose proof ToInt32_of_small_all as H.
  rewrite forallb_forall in H.
  assert (Hin : In z (map (fun n => Z.of_nat n - 400) (seq 0 801))).
  { apply in_map_iff. exists (Z.to_nat (z + 400)). split; [lia |].
    apply in_seq. lia. }
  apply H in Hin. apply andb_prop in Hin as [Hf Ht].
  apply Z.eqb_eq in Hf, Ht. destruct s; assumption.
Qed.

(** A finite number of size at most 400 rounds to an integer of its own
    sign and of size at most 400. *)
Lemma level_of_bounded (s : bool) (m : positive) (e : Z) :
  -1200 <= e ->
  Zpos m * 2 ^ (e + 1200) <= 400 * 2 ^ 1200 ->
  (if s then -400 <= ToInt32_number (Math_round (S754_finite s m e)) <= 0
   else 0 <= ToInt32_number (Math_round (S754_finite s m e)) <= 400).
Proof.
  intros He Hm. unfold Math_round.
  destruct (Z.leb_spec 0 e) as [Hpos | Hneg].
  - unfold ToInt32_number.
    destruct (Z.leb_spec 0 e) as [_ | Hcontra]; [| lia].
    assert (Hmag : 0 < Zpos m * 2 ^ e <= 400).
    { split; [apply Z.mul_pos_pos; [lia | apply Z.pow_pos_nonneg; lia] |].
      rewrite pow2_split in Hm by lia. rewrite Z.mul_assoc in Hm.
      apply Z.mul_le_mono_pos_r in Hm; [exact Hm |].
      apply Z.pow_pos_nonneg; lia. }
    destruct s; rewrite wrap32_small; lia.
  - remember (2 ^ (- e)) as d eqn:Ed.
    assert (Hd : 0 < d) by (subst d; apply Z.pow_pos_nonneg; lia).
    assert (Hmd : Zpos m <= 400 * d).
    { replace (2 ^ 1200) with (d * 2 ^ (e + 1200)) in Hm.
      2:{ subst d. rewrite <- pow2_split by lia. f_equal. lia. }
      rewrite Z.mul_assoc in Hm.
      apply Z.mul_le_mono_pos_r in Hm; [exact Hm |].
      apply Z.pow_pos_nonneg; lia. }
    destruct s.
    + assert (Hz : -400 <= (2 * Z.neg m + d) / (2 * d) <= 0).
      { split.
        - apply Z.div_le_lower_bound; lia.
        - assert (H : (2 * Z.neg m + d) / (2 * d) < 1)
            by (apply Z.div_lt_upper_bound; lia).
          lia. }
      rewrite ToInt32_of_small by lia. exact Hz.
    + assert (Hz : 0 <= (2 * Z.pos m + d) / (2 * d) <= 400).
      { split.
        - apply Z.div_pos; lia.
        - assert (H : (2 * Z.pos m + d) / (2 * d) < 401)
            by (apply Z.div_lt_upper_bound; lia).
          lia. }
      rewrite ToInt32_of_small by lia. exact Hz.
Qed.

(** The clamped value times 400, rounded twice: to a number by the
    multiplication and to an integer by [Math.round]. *)
Lemma mul_400_level (s : bool) (m : positive) (e : Z) :
  bounded prec emax m e = true ->
  e < -52 \/ (e = -52 /\ Zpos m <= Zpos 4503599627370496) ->
  (if s
   then -400 <= ToInt32_number (Math_round (mul (S754_finite s m e) (of_Z 400))) <= 0
   else 0 <= ToInt32_number (Math_round (mul (S754_finite s m e) (of_Z 400))) <= 400).
Proof.
  intros Hvalid Hone.
  unfold bounded, canonical_mantissa in Hvalid.
  apply andb_prop in Hvalid as [Hcanon _]. apply Z.eqb_eq in Hcanon.
  pose proof (digits2_pos_bounds m) as [_ Hhi].
  assert (Hd : Zpos (digits2_pos m) <= 53 /\ -1074 <= e).
  { unfold fexp, emin, prec, emax in Hcanon. lia. }
  change (Zpos 4503599627370496) with (2 ^ 52) in Hone.
  assert (Hcases : (Zpos m = 2 ^ 52 /\ e = -52) \/
                   Zpos m * 2 ^ (e + 1200) < 2 ^ 1200).
  { destruct Hone as [He | [He Hm]].
    - right. apply Z.lt_le_trans with (2 ^ 53 * 2 ^ (e + 1200)).
      + apply Z.mul_lt_mono_pos_r; [apply Z.pow_pos_nonneg; lia |].
        apply Z.lt_le_trans with (2 ^ Zpos (digits2_pos m)); [exact Hhi |].
        apply Z.pow_le_mono_r; lia.
      + rewrite <- pow2_split by lia. apply Z.pow_le_mono_r; lia.
    - destruct (Z.eq_dec (Zpos m) (2 ^ 52)) as [Heq | Hneq]; [left; auto |].
      right. subst e. replace (2 ^ 1200) with (2 ^ 52 * 2 ^ (-52 + 1200)).
      2:{ rewrite <- pow2_split by lia. reflexivity. }
      apply Z.mul_lt_mono_pos_r; [apply Z.pow_pos_nonneg; lia | lia]. }
  destruct Hcases as [[Hm52 He52] | Hstrict].
  - (* one and minus one *)
    change (2 ^ 52) with 4503599627370496 in Hm52.
    inversion Hm52. subst. destruct s; vm_compute; split; discriminate.
  - unfold mul.
    change (of_Z 400) with (S754_finite false 7036874417766400 (-44)).
    cbn [SFmul]. replace (xorb s false) with s by (destruct s; reflexivity).
    assert (HE : -1200 <= e + -44 <= 4) by lia.
    assert (HM : Zpos (m * 7036874417766400) * 2 ^ (e + -44 + 1200)
                 < 400 * 2 ^ 1200).
    { rewrite Pos2Z.inj_mul.
      change (Zpos 7036874417766400) with (400 * 2 ^ 44).
      replace (Zpos m * (400 * 2 ^ 44) * 2 ^ (e + -44 + 1200))
        with (400 * (Zpos m * (2 ^ 44 * 2 ^ (e + -44 + 1200)))) by ring.
      rewrite <- pow2_split by lia.
      replace (44 + (e + -44 + 1200)) with (e + 1200) by lia. lia. }
    pose proof (binary_round_aux_le_400 s _ _ HE HM) as Hround.
    destruct (binary_round_aux prec emax s
                (Zpos (m * 7036874417766400)) (e + -44) loc_Exact)
      as [s' | s' | | s' m' e'].
    + destruct s; cbn; lia.
    + destruct s; cbn; lia.
    + destruct s; cbn; lia.
    + destruct Hround as (-> & He' & Hm').
      apply level_of_bounded; assumption.
Qed.

(** What the two comparisons of the clamp leave: a finite number of size
    at most one has exponent below -52, or is at most 2^52 * 2^-52. *)
Lemma size_at_most_one (s : bool) (m : positive) (e : Z) :
  lt (S754_finite s m e) (of_Z (-1)) = false ->
  lt (of_Z 1) (S754_finite s m e) = false ->
  e < -52 \/ (e = -52 /\ Zpos m <= Zpos 4503599627370496).
Proof.
  unfold lt, SFltb.
  change (of_Z (-1)) with (S754_finite true 4503599627370496 (-52)).
  change (of_Z 1) with (S754_finite false 4503599627370496 (-52)).
  cbn [SFcompare]. rewrite !Pos.compare_cont_spec. cbn [Pos.switch_Eq].
  destruct s.
  - intros Hlo _. destruct (Z.compare_spec e (-52)) as [He | He | He].
    + right. split; [exact He |].
      destruct (Pos.compare_spec m 4503599627370496) as [Hm | Hm | Hm].
      * subst m. apply Z.le_refl.
      * apply Pos2Z.pos_lt_pos in Hm. apply Z.lt_le_incl. exact Hm.
      * discriminate Hlo.
    + left. exact He.
    + discriminate Hlo.
  - intros _ Hhi. destruct (Z.compare_spec (-52) e) as [He | He | He].
    + right. split; [lia |].
      destruct (Pos.compare_spec 4503599627370496 m) as [Hm | Hm | Hm].
      * subst m. apply Z.le_refl.
      * discriminate Hhi.
      * apply Pos2Z.pos_lt_pos in Hm. apply Z.lt_le_incl. exact Hm.
    + discriminate Hhi.
    + left. lia.
Qed.

(** The integer sent lies in [-400, 400] and has the sign of the input. *)
Lemma pwm_level_range (v : number) :
  valid_binary prec emax v = true ->
  match sign_bit v with
  | Some true => -400 <= pwm_level v <= 0
  | Some false => 0 <= pwm_level v <= 400
  | None => pwm_level v = 0
  end.
Proof.
  intros Hvalid. destruct v as [s | s | | s m e]; cbn [sign_bit].
  - destruct s; vm_compute; split; discriminate.
  - destruct s; vm_compute; split; discriminate.
  - reflexivity.
  - unfold pwm_level, clamp.
    destruct (lt (S754_finite s m e) (of_Z (-1))) eqn:Hlo.
    + destruct s; [vm_compute; split; discriminate |].
      exfalso. revert Hlo. unfold lt, SFltb.
      change (of_Z (-1)) with (S754_finite true 4503599627370496 (-52)).
      cbn [SFcompare]. discriminate.
    + destruct (lt (of_Z 1) (S754_finite s m e)) eqn:Hhi.
      * destruct s; [| vm_compute; split; discriminate].
        exfalso. revert Hhi. unfold lt, SFltb.
        change (of_Z 1) with (S754_finite false 4503599627370496 (-52)).
        cbn [SFcompare]. discriminate.
      * pose proof (mul_400_level s m e Hvalid (size_at_most_one s m e Hlo Hhi))
          as H.
        destruct s; exact H.
Qed.

Lemma s16_decode_encode (n : Z) :
  -32768 <= n < 32768 -> s16_decode (twos_complement16 n) = n.
Proof.
  intros Hn. unfold s16_decode, twos_complement16. change (2 ^ 16) with 65536.
  destruct (Z.lt_ge_cases n 0) as [Hneg | Hpos].
  - replace (n mod 65536) with (n + 65536).
    2:{ apply Z.mod_unique with (q := -1); lia. }
    destruct (Z.ltb_spec (n + 65536) 32768); lia.
  - rewrite Z.mod_small by lia. destruct (Z.ltb_spec n 32768); lia.
Qed.

(** C5.  For every number [v] and every channel (0 and 1 in particular),
    [writePWM] makes one bus call: a word write at register 19 + 2c of
    the 16-bit two's-complement encoding of round(clamp(v, -1, 1) * 400),
    where the product is the IEEE product of the signed, clamped value.
    For every well-formed double the integer encoded lies in [-400, 400],
    is not positive for a negative [v] and not negative for a positive
    one, and is what the word decodes to.  On the wire the word is sent
    high byte first.  A value above 1 gives the same call as 1, a value
    below -1 the same as -1, and 5.0 the same as 1.0. *)
Theorem writePWM_word_of_clamped_value :
  forall (channel : Z) (v : number) (b : Board),
    writePWM channel v b
    = i2c (writeWordSync (d_addr b) (19 + 2 * channel) (JNum (pwm_word v))) b /\
    wire_word (19 + 2 * channel) (pwm_word v)
    = [(19 + 2 * channel, pwm_word v / 256);
       (19 + 2 * channel + 1, pwm_word v mod 256)] /\
    (valid_binary prec emax v = true ->
     -400 <= pwm_level v <= 400 /\
     s16_decode (pwm_word v) = pwm_level v /\
     (sign_bit v = Some true -> pwm_level v <= 0) /\
     (sign_bit v = Some false -> 0 <= pwm_level v)) /\
    (pwm_output v = S754_nan \/ sign_bit (pwm_output v) = sign_bit v) /\
    (lt (of_Z 1) v = true -> writePWM channel v b = writePWM channel (of_Z 1) b) /\
    (lt v (of_Z (-1)) = true ->
       writePWM channel v b = writePWM channel (of_Z (-1)) b) /\
    writePWM channel (of_Z 5) b = writePWM channel (of_Z 1) b.
Proof.
  intros channel v b.
  assert (Hword : forall x,
            writePWM channel x b
            = i2c (writeWordSync (d_addr b) (19 + 2 * channel)
                                 (JNum (pwm_word x))) b).
  { intros x. unfold writePWM, pwm_word, pwm_level, twos_complement16.
    rewrite pwm_output_clamp.
    change 65535 with (Z.ones 16). rewrite Z.land_ones by lia.
    replace (19 + channel * 2) with (19 + 2 * channel) by lia. reflexivity. }
  split; [apply Hword |]. split.
  { unfold wire_word. pose proof (pwm_word_range v) as Hr.
    rewrite (Z.mod_small (pwm_word v / 256)); [reflexivity |].
    split; [apply Z.div_pos; lia | apply Z.div_lt_upper_bound; lia]. }
  split.
  { intros Hvalid. pose proof (pwm_level_range v Hvalid) as Hrange.
    assert (H400 : -400 <= pwm_level v <= 400).
    { destruct (sign_bit v) as [[|] |]; lia. }
    split; [exact H400 |]. split.
    - unfold pwm_word. apply s16_decode_encode. lia.
    - split; intros Hs; rewrite Hs in Hrange; lia. }
  split.
  { rewrite pwm_output_clamp. rewrite <- (sign_clamp v). apply sign_mul_400. }
  split; [| split].
  - intros Hhi. rewrite !Hword. unfold pwm_word, pwm_level, clamp.
    destruct (lt v (of_Z (-1))) eqn:Hlo.
    + apply lt_minus_one_not_above_one in Hlo. congruence.
    + rewrite Hhi. reflexivity.
  - intros Hlo. rewrite !Hword. unfold pwm_word, pwm_level, clamp. rewrite Hlo.
    reflexivity.
  - rewrite !Hword. reflexivity.
Qed.


Lemma writePWM_word_of_clamped_value_witness :
  lt (of_Z 1) (of_Z 5) = true /\
  valid_binary prec emax (S754_finite true 4503599627370496 (-53)) = true /\
  d_i2c (writePWM 0 (of_Z 5) Examples.polled)
  = [readSync 20 0 23; writeWordSync 20 19 (JNum 400)] /\
  d_i2c (writePWM 1 (of_Z (-7)) Examples.polled)
  = [readSync 20 0 23; writeWordSync 20 21 (JNum 65136)] /\
  s16_decode (pwm_word (S754_finite true 4503599627370496 (-53)))
  = pwm_level (S754_finite true 4503599627370496 (-53)).
Proof.
  assert (H5 : lt (of_Z 1) (of_Z 5) = true) by reflexivity.
  assert (H7 : lt (of_Z (-7)) (of_Z (-1)) = true) by reflexivity.
  assert (Hv : valid_binary prec emax
                 (S754_finite true 4503599627370496 (-53)) = true)
    by reflexivity.
  split; [exact H5 |]. split; [exact Hv |]. split; [| split].
  - destruct (writePWM_word_of_clamped_value 0 (of_Z 5) Examples.polled)
      as (_ & _ & _ & _ & Hhi & _ & _).
    rewrite (Hhi H5). reflexivity.
  - destruct (writePWM_word_of_clamped_value 1 (of_Z (-7)) Examples.polled)
      as (_ & _ & _ & _ & _ & Hlo & _).
    rewrite (Hlo H7). reflexivity.
  - destruct (writePWM_word_of_clamped_value 0
                (S754_finite true 4503599627370496 (-53)) Examples.polled)
      as (_ & _ & Hrange & _).
    destruct (Hrange Hv) as (_ & Hdecode & _). exact Hdecode.
Defined.

(** *** Pin configuration *)

(** The bytes [configurePin] builds on an even and on an odd channel,
    checked for each of the three settings against each of the 256 old
    bytes. *)
Lemma nibbles_all :
  forallb
    (fun old =>
       forallb
         (fun bits =>
            nibbles_check
              (num_of (pin_outByte 0 (bit_or (JNum 4) (JNum bits)) (JNum old)))
              (num_of (pin_outByte 1 (bit_or (JNum 4) (JNum bits)) (JNum old)))
              bits old)
         [0; 1; 2])
    (map Z.of_nat (seq 0 256)) = true.
Proof. vm_compute. reflexivity. Qed.

Lemma nibbles_check_sound (hi lo bits old : Z) :
  nibbles_check hi lo bits old = true ->
  (hi / 16 = Z.lor 4 bits /\ hi mod 16 = old mod 16) /\
  (lo mod 16 = Z.lor 4 bits /\ lo / 16 = old / 16).
Proof.
  unfold nibbles_check. intros H.
  apply andb_prop in H as [H Hlo2]. apply andb_prop in H as [H Hlo1].
  apply andb_prop in H as [Hhi1 Hhi2].
  apply Z.eqb_eq in Hhi1, Hhi2, Hlo1, Hlo2. auto.
Qed.

Lemma nibbles_of_byte (bits old : Z) :
  0 <= bits <= 2 -> is_byte old ->
  nibbles_check
    (num_of (pin_outByte 0 (bit_or (JNum 4) (JNum bits)) (JNum old)))
    (num_of (pin_outByte 1 (bit_or (JNum 4) (JNum bits)) (JNum old)))
    bits old = true.
Proof.
  intros Hbits Hold.
  pose proof nibbles_all as H. rewrite forallb_forall in H.
  assert (Hin : In old (map Z.of_nat (seq 0 256))).
  { apply in_map_iff. exists (Z.to_nat old). unfold is_byte in Hold.
    split; [lia |]. apply in_seq. lia. }
  specialize (H old Hin). rewrite forallb_forall in H.
  apply (H bits). cbn [In]. lia.
Qed.

Lemma pin_outByte_is_number (channel : Z) (setting v : jsval) :
  pin_outByte channel setting v = JNum (num_of (pin_outByte channel setting v)).
Proof. unfold pin_outByte. destruct (Z.rem channel 2 =? 0); reflexivity. Qed.

Lemma pin_outByte_parity (channel : Z) (setting v : jsval) :
  pin_outByte channel setting v
  = pin_outByte (if Z.even channel then 0 else 1) setting v.
Proof.
  unfold pin_outByte.
  assert (H : (Z.rem channel 2 =? 0) = Z.even channel).
  { destruct (Z.even channel) eqn:E.
    - apply Z.eqb_eq. apply Z.even_spec in E. destruct E as [k ->].
      rewrite Z.mul_comm. apply Z.rem_mul. lia.
    - apply Z.eqb_neq. intros Hrem.
      assert (Hev : Z.even channel = true); [| congruence].
      apply Z.even_spec. exists (Z.quot channel 2).
      pose proof (Z.quot_rem' channel 2). lia. }
  rewrite H. destruct (Z.even channel); reflexivity.
Qed.

(** What the bit operators make of a byte read from an image: the byte,
    or 0 for the [undefined] read past its end. *)
Lemma ToInt32_Buffer_get (last : Buffer) (i : Z) :
  Forall is_byte last -> is_byte (ToInt32 (Buffer_get last i)).
Proof.
  intros Hall. unfold Buffer_get.
  destruct (i <? 0); [cbn; unfold is_byte; lia |].
  destruct (nth_error last (Z.to_nat i)) as [x |] eqn:E;
    [| cbn; unfold is_byte; lia].
  apply nth_error_In in E. rewrite Forall_forall in Hall.
  specialize (Hall x E). unfold is_byte in *. cbn [ToInt32].
  rewrite wrap32_small; lia.
Qed.

Lemma pin_outByte_ToInt32 (channel : Z) (setting v : jsval) :
  is_byte (ToInt32 v) ->
  pin_outByte channel setting v = pin_outByte channel setting (JNum (ToInt32 v)).
Proof.
  intros Hv. unfold pin_outByte, bit_and, bit_or. cbn [ToInt32].
  unfold is_byte in Hv. rewrite (wrap32_small (ToInt32 v)) by lia.
  reflexivity.
Qed.

Section PinModes.

Variable C : Constants.t.
Hypothesis Hdistinct : Constants.distinct_modes C.

Lemma mode_setting_bits (mode : string) (bits : Z) :
  (mode = Constants.PinModes_INPUT C /\ bits = 1) \/
  (mode = Constants.PinModes_INPUT_PULLUP C /\ bits = 2) \/
  (mode = Constants.PinModes_OUTPUT C /\ bits = 0) ->
  mode_setting C mode = bit_or (JNum 4) (JNum bits).
Proof.
  destruct Hdistinct as (H12 & H13 & H23).
  unfold mode_setting. intros [[-> ->] | [[-> ->] | [-> ->]]].
  - rewrite String.eqb_refl. reflexivity.
  - destruct (String.eqb_spec (Constants.PinModes_INPUT_PULLUP C)
                              (Constants.PinModes_INPUT C)); [congruence |].
    rewrite String.eqb_refl. reflexivity.
  - destruct (String.eqb_spec (Constants.PinModes_OUTPUT C)
                              (Constants.PinModes_INPUT C)); [congruence |].
    destruct (String.eqb_spec (Constants.PinModes_OUTPUT C)
                              (Constants.PinModes_INPUT_PULLUP C)); [congruence |].
    rewrite String.eqb_refl. reflexivity.
Qed.

End PinModes.

(** C7.  For every channel c in 0..5 and every recognized pin mode, once a
    register image has been read, [configurePin] makes one bus call: a
    byte write to config byte floor(c/2).  The byte carries the nibble
    0b0100 | mode bits (input 1, input with pull-up 2, output 0) in its
    high nibble when c is even and in its low nibble when c is odd; its
    other nibble is that of the same byte of the image read last.  So
    configuring channel 0 leaves the nibble of channel 1 as it was. *)
Theorem configurePin_sets_one_nibble :
  forall (C : Constants.t) (b : Board) (last : Buffer)
         (channel : Z) (mode : string) (bits : Z),
    Constants.distinct_modes C ->
    d_lastBuf b = Some last ->
    Forall is_byte last ->
    0 <= channel <= 5 ->
    (mode = Constants.PinModes_INPUT C /\ bits = 1) \/
    (mode = Constants.PinModes_INPUT_PULLUP C /\ bits = 2) \/
    (mode = Constants.PinModes_OUTPUT C /\ bits = 0) ->
    exists out,
      configurePin C channel mode b
      = Ok (i2c (writeByteSync (d_addr b) (channel / 2) (JNum out)) b) /\
      (Z.even channel = true ->
         out / 16 = Z.lor 4 bits /\
         out mod 16 = ToInt32 (Buffer_get last (channel / 2)) mod 16) /\
      (Z.even channel = false ->
         out mod 16 = Z.lor 4 bits /\
         out / 16 = ToInt32 (Buffer_get last (channel / 2)) / 16).
Proof.
  intros C b last channel mode bits Hdist Hlast Hbytes Hch Hmode.
  pose proof (ToInt32_Buffer_get last (channel / 2) Hbytes) as Hold.
  assert (Hbits : 0 <= bits <= 2)
    by (destruct Hmode as [[_ ->] | [[_ ->] | [_ ->]]]; lia).
  unfold configurePin, lastBuf_get. rewrite Hlast. cbn [bind].
  rewrite (mode_setting_bits C Hdist mode bits Hmode).
  rewrite (pin_outByte_ToInt32 _ _ _ Hold).
  remember (ToInt32 (Buffer_get last (channel / 2))) as old eqn:Eold.
  destruct (nibbles_check_sound _ _ _ _ (nibbles_of_byte bits old Hbits Hold))
    as [Hhi Hlo].
  rewrite pin_outByte_parity, pin_outByte_is_number.
  destruct (Z.even channel).
  - eexists. split; [reflexivity |].
    split; [intros _; exact Hhi | discriminate].
  - eexists. split; [reflexivity |].
    split; [discriminate | intros _; exact Hlo].
Qed.

Lemma configurePin_sets_one_nibble_witness :
  Constants.distinct_modes Examples.modes /\
  d_lastBuf (getBoardStatus Examples.image (new 20 0)) = Some Examples.image /\
  configurePin Examples.modes 0 "INPUT_PULLUP"
    (getBoardStatus Examples.image (new 20 0))
  = Ok (i2c (writeByteSync 20 0 (JNum 96))
            (getBoardStatus Examples.image (new 20 0))).
Proof.
  assert (Hd : Constants.distinct_modes Examples.modes).
  { unfold Constants.distinct_modes. cbn. repeat split; discriminate. }
  assert (Hl : d_lastBuf (getBoardStatus Examples.image (new 20 0))
               = Some Examples.image) by reflexivity.
  assert (Hb : Forall is_byte Examples.image).
  { unfold Examples.image, is_byte. repeat constructor; lia. }
  assert (Hc : 0 <= 0 <= 5) by lia.
  assert (Hm : ("INPUT_PULLUP" = Constants.PinModes_INPUT Examples.modes /\ 2 = 1) \/
               ("INPUT_PULLUP" = Constants.PinModes_INPUT_PULLUP Examples.modes /\ 2 = 2) \/
               ("INPUT_PULLUP" = Constants.PinModes_OUTPUT Examples.modes /\ 2 = 0)).
  { right. left. split; reflexivity. }
  destruct (configurePin_sets_one_nibble Examples.modes
              (getBoardStatus Examples.image (new 20 0)) Examples.image
              0 "INPUT_PULLUP" 2 Hd Hl Hb Hc Hm) as (out & Hrun & Heven & _).
  split; [exact Hd |]. split; [exact Hl |].
  rewrite Hrun. destruct (Heven eq_refl) as [Hhi Hlo].
  change (out / 16 = 6) in Hhi. change (out mod 16 = 0) in Hlo.
  assert (Hout : out = 96).
  { rewrite (Z.div_mod out 16) by lia. rewrite Hhi, Hlo. reflexivity. }
  rewrite Hout. reflexivity.
Defined.

(** *** Buffered writes and the flush timer *)

Lemma length_replace_nth {A : Type} (l : list A) (n : nat) (x : A) :
  List.length (replace_nth l n x) = List.length l.
Proof.
  revert n. induction l as [| h t IH]; intros [| n]; cbn; auto.
Qed.

Lemma length_Buffer_set (buf : Buffer) (i : Z) (v : jsval) :
  List.length (Buffer_set buf i v) = List.length buf.
Proof.
  unfold Buffer_set. destruct (i <? 0); [reflexivity |].
  apply length_replace_nth.
Qed.

Lemma nth_error_replace_nth_eq {A : Type} (l : list A) (n : nat) (x : A) :
  (n < List.length l)%nat -> nth_error (replace_nth l n x) n = Some x.
Proof.
  revert n. induction l as [| h t IH]; intros [| n] Hn; cbn in *;
    try lia; auto. apply IH. lia.
Qed.

Lemma nth_error_replace_nth_neq {A : Type} (l : list A) (n m : nat) (x : A) :
  n <> m -> nth_error (replace_nth l n x) m = nth_error l m.
Proof.
  revert n m. induction l as [| h t IH]; intros [| n] [| m] Hneq; cbn;
    try congruence; auto.
Qed.

(** A byte stored in a buffer is read back at its index, and at no
    other. *)
Lemma Buffer_get_set_eq (buf : Buffer) (i byte : Z) :
  0 <= i < Z.of_nat (List.length buf) -> is_byte byte ->
  Buffer_get (Buffer_set buf i (JNum byte)) i = JNum byte.
Proof.
  intros Hi Hb. unfold Buffer_get, Buffer_set.
  destruct (Z.ltb_spec i 0) as [Hneg | _]; [lia |].
  rewrite nth_error_replace_nth_eq by lia.
  unfold is_byte in Hb. cbn [ToInt32]. rewrite wrap32_small by lia.
  rewrite Z.mod_small by lia. reflexivity.
Qed.

Lemma Buffer_get_set_neq (buf : Buffer) (i j : Z) (v : jsval) :
  i <> j -> Buffer_get (Buffer_set buf i v) j = Buffer_get buf j.
Proof.
  intros Hneq. unfold Buffer_get, Buffer_set.
  destruct (Z.ltb_spec j 0) as [Hj | Hj]; [reflexivity |].
  destruct (Z.ltb_spec i 0) as [Hi | Hi]; [reflexivity |].
  rewrite nth_error_replace_nth_neq by lia. reflexivity.
Qed.

Lemma length_overlay (a : action) (out : Buffer) :
  is_write a = true -> List.length (overlay a out) = List.length out.
Proof.
  destruct a as [register byte | register word | register buffer | answer];
    intros Hw; try discriminate; cbn [overlay].
  - apply length_Buffer_set.
  - rewrite !length_Buffer_set. reflexivity.
  - generalize (seq 0 (List.length buffer)). intros l. revert out.
    induction l as [| i l IH]; intros out; cbn [fold_left]; [reflexivity |].
    rewrite IH. apply length_Buffer_set.
Qed.

Lemma length_merged (schedule : list (Z * action)) :
  Forall (fun ta => is_write (snd ta) = true) schedule ->
  forall out, List.length (merged schedule out) = List.length out.
Proof.
  unfold merged. induction 1 as [| [t a] rest Hw _ IH]; intros out;
    cbn [map fold_left snd]; [reflexivity |].
  rewrite IH. apply length_overlay. exact Hw.
Qed.

(** What "merged" gives at a register: the byte of the write that came
    last. *)
Lemma merged_ends_with_writeByte (schedule : list (Z * action)) (t : Z)
  (register byte : Z) (out : Buffer) :
  Forall (fun ta => is_write (snd ta) = true) schedule ->
  0 <= register < Z.of_nat (List.length out) -> is_byte byte ->
  Buffer_get (merged (schedule ++ [(t, act_writeByte register byte)]) out)
             register
  = JNum byte.
Proof.
  intros Hall Hreg Hbyte. unfold merged.
  rewrite map_app, fold_left_app. cbn [map snd fold_left overlay].
  apply Buffer_get_set_eq; [| exact Hbyte].
  fold (merged schedule out). rewrite (length_merged schedule Hall). exact Hreg.
Qed.

Lemma writeBuffer_loop (register : Z) (buffer : list Z) :
  forall (l : list nat) (b : Board) (out : Buffer),
    d_outBuf b = Some out ->
    fold_left
      (fun r i =>
         b <- r ;;
         outBuf_set (register + Z.of_nat i) (Buffer_get buffer (Z.of_nat i)) b)
      l (Ok b)
    = Ok (with_outBuf
            (Some (fold_left
                     (fun out i =>
                        Buffer_set out (register + Z.of_nat i)
                                   (Buffer_get buffer (Z.of_nat i)))
                     l out)) b).
Proof.
  induction l as [| i l IH]; intros b out Hout; cbn [fold_left].
  - destruct b; cbn in *; subst; reflexivity.
  - cbn [bind]. unfold outBuf_set at 2. rewrite Hout.
    rewrite (IH _ (Buffer_set out (register + Z.of_nat i)
                              (Buffer_get buffer (Z.of_nat i))))
      by reflexivity.
    reflexivity.
Qed.

(** A write that finds a flush pending only changes the pending buffer. *)
Lemma perform_write (a : action) (b : Board) (out : Buffer) :
  is_write a = true ->
  d_outBuf b = Some out -> d_hasNewData b = true ->
  perform a b = Ok (with_outBuf (Some (overlay a out)) b).
Proof.
  intros Hw Hout Hnew.
  assert (Hsetup : setupWrite b = Ok b).
  { unfold setupWrite. rewrite Hout. cbn [bind]. rewrite Hnew. cbn [negb].
    destruct b; cbn in *; subst; reflexivity. }
  destruct a as [register byte | register word | register buffer | answer];
    try discriminate; cbn [perform overlay].
  - unfold writeByte. rewrite Hsetup. cbn [bind]. unfold outBuf_set.
    rewrite Hout. reflexivity.
  - unfold writeWord. rewrite Hsetup. cbn [bind]. unfold outBuf_set at 1.
    rewrite Hout. cbn [bind]. reflexivity.
  - unfold writeBuffer. rewrite Hsetup. cbn [bind].
    apply writeBuffer_loop. assumption.
Qed.

(** A write that finds no flush pending also sets the timer, 25 time
    units from now. *)
Lemma perform_first_write (a : action) (b : Board) (last : Buffer) :
  is_write a = true ->
  d_lastBuf b = Some last -> d_hasNewData b = false ->
  perform a b
  = Ok (with_outBuf (Some (overlay a (pending b last)))
          (with_hasNewData true (setTimeout_flushWrite 25 b))).
Proof.
  intros Hw Hlast Hnew.
  assert (Hsetup : setupWrite b
                   = Ok (with_hasNewData true
                           (setTimeout_flushWrite 25
                              (with_outBuf (Some (pending b last)) b)))).
  { unfold setupWrite, pending.
    destruct (d_outBuf b) as [o |] eqn:Ho.
    - cbn [bind]. rewrite Hnew. cbn [negb].
      destruct b; cbn in *; subst; reflexivity.
    - rewrite Hlast. cbn [Buffer_from bind d_hasNewData with_outBuf].
      rewrite Hnew. reflexivity. }
  destruct a as [register byte | register word | register buffer | answer];
    try discriminate; cbn [perform overlay].
  - unfold writeByte. rewrite Hsetup. reflexivity.
  - unfold writeWord. rewrite Hsetup. reflexivity.
  - unfold writeBuffer. rewrite Hsetup. cbn [bind].
    rewrite (writeBuffer_loop register buffer _ _ (pending b last))
      by reflexivity.
    reflexivity.
Qed.

(** [flushWrite] leaves [d_hasNewData] as it is, so once a flush has
    happened every later write finds the flag set: it sets no timer and
    reaches the bus by no other path. *)
Lemma write_with_flag_set (a : action) (b : Board) (out : Buffer) :
  is_write a = true ->
  d_outBuf b = Some out -> d_hasNewData b = true ->
  exists b',
    perform a b = Ok b' /\
    timeouts b' = timeouts b /\ d_i2c b' = d_i2c b /\
    d_hasNewData b' = true.
Proof.
  intros Hw Hout Hnew. rewrite (perform_write a b out Hw Hout Hnew).
  eexists. split; [reflexivity |]. cbn. auto.
Qed.

Lemma advance_no_timer (t : Z) (b : Board) :
  timeouts b = [] -> advance t b = Ok (with_clock (Z.max (clock b) t) b).
Proof.
  intros Hts. unfold advance. cbn [timeouts clock with_clock]. rewrite Hts.
  cbn [filter fold_left]. destruct b; cbn in *; subst; reflexivity.
Qed.

Lemma advance_before_due (t due : Z) (b : Board) :
  timeouts b = [due] -> clock b < due -> t < due ->
  advance t b = Ok (with_clock (Z.max (clock b) t) b).
Proof.
  intros Hts Hclock Ht. unfold advance.
  cbn [timeouts clock with_clock]. rewrite Hts. cbn [filter].
  destruct (Z.leb_spec due (Z.max (clock b) t)) as [Hle | Hgt]; [lia |].
  cbn [negb fold_left]. destruct b; cbn in *; subst; reflexivity.
Qed.

(** The timer fires: the pending buffer goes out in one bus call and is
    replaced by a copy of the image read last. *)
Lemma flush_when_due (due tend : Z) (b : Board) (out last : Buffer) :
  d_outBuf b = Some out -> d_hasNewData b = true -> timeouts b = [due] ->
  d_lastBuf b = Some last -> due <= tend ->
  exists b2,
    advance tend b = Ok b2 /\
    d_i2c b2 = (d_i2c b ++ [writeSync (d_addr b) 0 (Some out)])%list /\
    d_outBuf b2 = Some last /\ timeouts b2 = [] /\ d_hasNewData b2 = true /\
    d_lastBuf b2 = Some last /\ d_addr b2 = d_addr b.
Proof.
  intros Hout Hnew Hts Hlast Ht.
  unfold advance. cbn [timeouts clock with_clock]. rewrite Hts. cbn [filter].
  destruct (Z.leb_spec due (Z.max (clock b) tend)) as [Hle | Hgt]; [| lia].
  cbn [negb fold_left bind]. unfold flushWrite.
  cbn [d_hasNewData with_timeouts with_clock]. rewrite Hnew. cbn [negb].
  cbn [d_lastBuf i2c with_timeouts with_clock d_outBuf d_addr].
  rewrite Hlast. cbn [Buffer_from bind].
  eexists. split; [reflexivity |].
  repeat split; cbn; congruence.
Qed.

Lemma first_write (t0 : Z) (a : action) (b : Board) (last : Buffer) :
  d_lastBuf b = Some last -> d_hasNewData b = false -> timeouts b = [] ->
  clock b <= t0 -> is_write a = true ->
  exists b1,
    (b' <- advance t0 b ;; perform a b') = Ok b1 /\
    in_window t0 b b1 (overlay a (pending b last)).
Proof.
  intros Hlast Hnew Hts Hclock Hw.
  rewrite (advance_no_timer t0 b Hts). cbn [bind].
  rewrite (perform_first_write a _ last Hw) by assumption.
  eexists. split; [reflexivity |].
  unfold in_window, pending. cbn. rewrite Hts.
  repeat split; try reflexivity; try lia.
  rewrite Z.max_r by lia. reflexivity.
Qed.

Lemma later_write (t0 t : Z) (a : action) (b0 b : Board) (out : Buffer) :
  in_window t0 b0 b out -> t < t0 + 25 -> is_write a = true ->
  exists b',
    (b1 <- advance t b ;; perform a b1) = Ok b' /\
    in_window t0 b0 b' (overlay a out).
Proof.
  intros (Hout & Hnew & Hts & Hclock & Haddr & Hbus & Hlast) Ht Hw.
  rewrite (advance_before_due t (t0 + 25) b Hts Hclock Ht). cbn [bind].
  rewrite (perform_write a _ out Hw) by assumption.
  eexists. split; [reflexivity |].
  unfold in_window. cbn. repeat split; try assumption. lia.
Qed.

Lemma run_window (t0 : Z) (b0 : Board) :
  forall (rest : list (Z * action)) (b : Board) (out : Buffer),
    in_window t0 b0 b out ->
    Forall (fun ta => fst ta < t0 + 25 /\ is_write (snd ta) = true) rest ->
    exists b',
      run rest b = Ok b' /\ in_window t0 b0 b' (merged rest out).
Proof.
  induction rest as [| [t a] rest IH]; intros b out Hin Hall.
  - exists b. split; [reflexivity | assumption].
  - inversion Hall as [| ? ? [Ht Hw] Hall']; subst. cbn [fst snd] in Ht, Hw.
    destruct (later_write t0 t a b0 b out Hin Ht Hw) as (b1 & Hstep & Hin1).
    destruct (IH b1 (overlay a out) Hin1 Hall') as (b' & Hrun & Hin').
    exists b'. split; [| exact Hin'].
    cbn [run].
    destruct (advance t b) as [bx |] eqn:E; [| discriminate].
    cbn [bind] in *. rewrite Hstep. cbn [bind]. exact Hrun.
Qed.

(** The whole window: a first write on a quiet driver, then more writes
    before the timer is due. *)
Lemma run_first_window (t0 : Z) (first : action) (rest : list (Z * action))
  (b : Board) (last : Buffer) :
  d_lastBuf b = Some last -> d_hasNewData b = false -> timeouts b = [] ->
  clock b <= t0 -> is_write first = true ->
  Forall (fun ta => fst ta < t0 + 25 /\ is_write (snd ta) = true) rest ->
  exists b1,
    run ((t0, first) :: rest) b = Ok b1 /\
    in_window t0 b b1 (merged ((t0, first) :: rest) (pending b last)).
Proof.
  intros Hlast Hnew Hts Hclock Hw Hall.
  destruct (first_write t0 first b last Hlast Hnew Hts Hclock Hw)
    as (b0 & Hstep & Hin0).
  destruct (run_window t0 b rest b0 _ Hin0 Hall) as (b1 & Hrun & Hin1).
  exists b1. split; [| exact Hin1].
  cbn [run]. destruct (advance t0 b) as [bx |] eqn:E; [| discriminate].
  cbn [bind] in *. rewrite Hstep. cbn [bind]. exact Hrun.
Qed.

Lemma run_app (l1 l2 : list (Z * action)) :
  forall b, run (l1 ++ l2) b = (b1 <- run l1 b ;; run l2 b1).
Proof.
  induction l1 as [| [t a] l1 IH]; intros b; cbn [app run bind];
    [reflexivity |].
  destruct (advance t b) as [b1 |]; cbn [bind]; [| reflexivity].
  destruct (perform a b1) as [b2 |]; cbn [bind]; [| reflexivity].
  apply IH.
Qed.

(** C3.  On a driver with a register image and no flush pending, let a
    buffered write arrive at time [t0] and any further buffered writes
    arrive before [t0 + 25].  Then one timer is pending afterwards, due at
    [t0 + 25]: the later writes have not set it again.  Nothing has gone
    to the bus during the window.  When the timer fires, exactly one bus
    call is made: a block write at register 0 of the whole pending buffer,
    which is the buffer the window started from with every write laid over
    it in order, at its full length. *)
Theorem buffered_writes_flush_once :
  forall (b : Board) (last : Buffer) (t0 : Z) (first : action)
         (rest : list (Z * action)) (tend : Z),
    d_lastBuf b = Some last ->
    d_hasNewData b = false ->
    timeouts b = [] ->
    clock b <= t0 ->
    is_write first = true ->
    Forall (fun ta => fst ta < t0 + 25 /\ is_write (snd ta) = true) rest ->
    t0 + 25 <= tend ->
    let payload := merged ((t0, first) :: rest) (pending b last) in
    exists b1 b2,
      run ((t0, first) :: rest) b = Ok b1 /\
      timeouts b1 = [t0 + 25] /\
      d_i2c b1 = d_i2c b /\
      d_outBuf b1 = Some payload /\
      List.length payload = List.length (pending b last) /\
      advance tend b1 = Ok b2 /\
      d_i2c b2 = (d_i2c b ++ [writeSync (d_addr b) 0 (Some payload)])%list /\
      timeouts b2 = [].
Proof.
  intros b last t0 first rest tend Hlast Hnew Hts Hclock Hw Hall Htend payload.
  destruct (run_first_window t0 first rest b last Hlast Hnew Hts Hclock Hw Hall)
    as (b1 & Hrun & Hin).
  destruct Hin as (Hout & Hnew1 & Hts1 & Hclock1 & Haddr & Hbus & Hlast1).
  assert (Hlast1' : d_lastBuf b1 = Some last) by congruence.
  destruct (flush_when_due (t0 + 25) tend b1 payload last
              Hout Hnew1 Hts1 Hlast1' Htend)
    as (b2 & Hadv & Hbus2 & _ & Hts2 & _).
  exists b1, b2. repeat split; try assumption.
  - subst payload. apply length_merged. constructor; [exact Hw |].
    eapply Forall_impl; [| exact Hall]. intros ta [_ H]. exact H.
  - rewrite Hbus2, Hbus, Haddr. reflexivity.
Qed.

Lemma buffered_writes_flush_once_witness :
  exists b1 b2,
    run [(10, act_writeByte 18 5); (12, act_writeWord 19 400);
         (20, act_writeBuffer 0 [1; 2; 3])] Examples.polled = Ok b1 /\
    timeouts b1 = [35] /\
    advance 35 b1 = Ok b2 /\
    d_i2c b2
    = [readSync 20 0 23;
       writeSync 20 0
         (Some [1; 2; 3; 0; 0; 0; 0; 0; 0; 0; 0; 0; 0; 0; 0; 0; 0; 0; 5; 1;
                144; 0; 0])].
Proof.
  assert (Hlast : d_lastBuf Examples.polled = Some Examples.zeros)
    by reflexivity.
  assert (Hnew : d_hasNewData Examples.polled = false) by reflexivity.
  assert (Hts : timeouts Examples.polled = []) by reflexivity.
  assert (Hclock : clock Examples.polled <= 10) by (cbn; lia).
  assert (Hw : is_write (act_writeByte 18 5) = true) by reflexivity.
  assert (Hall : Forall (fun ta => fst ta < 10 + 25 /\ is_write (snd ta) = true)
                        [(12, act_writeWord 19 400);
                         (20, act_writeBuffer 0 [1; 2; 3])]).
  { repeat constructor; cbn; lia. }
  assert (Htend : 10 + 25 <= 35) by lia.
  destruct (buffered_writes_flush_once Examples.polled Examples.zeros 10
              (act_writeByte 18 5) _ 35 Hlast Hnew Hts Hclock Hw Hall Htend)
    as (b1 & b2 & Hrun & Hts1 & _ & _ & _ & Hadv & Hbus & _).
  exists b1, b2. repeat split; assumption.
Defined.

(** C10.  Every run of [getBoardStatus] replaces the pending write buffer
    by a copy of the image just read, whatever it held.  So when the poll
    fires inside a flush window, after buffered writes and before the
    timer is due, the writes are lost: the flush that follows sends the
    image read by the poll and none of them. *)
Theorem getBoardStatus_discards_pending_writes :
  forall (b : Board) (answer : Buffer),
    d_outBuf (getBoardStatus answer b) = Some answer /\
    d_lastBuf (getBoardStatus answer b) = Some answer /\
    forall (last : Buffer) (t0 : Z) (first : action)
           (rest : list (Z * action)) (tp tend : Z),
      d_lastBuf b = Some last ->
      d_hasNewData b = false ->
      timeouts b = [] ->
      clock b <= t0 ->
      is_write first = true ->
      Forall (fun ta => fst ta < t0 + 25 /\ is_write (snd ta) = true) rest ->
      tp < t0 + 25 ->
      t0 + 25 <= tend ->
      exists b1 b2,
        run (((t0, first) :: rest) ++ [(tp, act_getBoardStatus answer)]) b
        = Ok b1 /\
        advance tend b1 = Ok b2 /\
        d_i2c b2
        = (d_i2c b ++ [readSync (d_addr b) 0 23;
                       writeSync (d_addr b) 0 (Some answer)])%list.
Proof.
  intros b answer. split; [reflexivity |]. split; [reflexivity |].
  intros last t0 first rest tp tend Hlast Hnew Hts Hclock Hw Hall Htp Htend.
  destruct (run_first_window t0 first rest b last Hlast Hnew Hts Hclock Hw Hall)
    as (bw & Hrun & Hin).
  destruct Hin as (Hout & Hnew1 & Hts1 & Hclock1 & Haddr & Hbus & Hlast1).
  pose (bp := getBoardStatus answer (with_clock (Z.max (clock bw) tp) bw)).
  assert (Hpoll : run [(tp, act_getBoardStatus answer)] bw = Ok bp).
  { cbn [run]. rewrite (advance_before_due tp (t0 + 25) bw Hts1 Hclock1 Htp).
    reflexivity. }
  destruct (flush_when_due (t0 + 25) tend bp answer answer)
    as (b2 & Hadv & Hbus2 & _); try reflexivity; try assumption.
  exists bp, b2. split; [| split; [exact Hadv |]].
  - rewrite run_app. rewrite Hrun. cbn [bind]. exact Hpoll.
  - rewrite Hbus2. subst bp. cbn. rewrite Hbus, Haddr.
    rewrite <- app_assoc. reflexivity.
Qed.

Lemma getBoardStatus_discards_pending_writes_witness :
  exists b1 b2,
    run [(10, act_writeByte 18 5); (12, act_writeWord 19 400);
         (30, act_getBoardStatus Examples.image)] Examples.polled = Ok b1 /\
    advance 35 b1 = Ok b2 /\
    d_i2c b2
    = [readSync 20 0 23; readSync 20 0 23;
       writeSync 20 0 (Some Examples.image)].
Proof.
  assert (Hlast : d_lastBuf Examples.polled = Some Examples.zeros)
    by reflexivity.
  assert (Hnew : d_hasNewData Examples.polled = false) by reflexivity.
  assert (Hts : timeouts Examples.polled = []) by reflexivity.
  assert (Hclock : clock Examples.polled <= 10) by (cbn; lia).
  assert (Hw : is_write (act_writeByte 18 5) = true) by reflexivity.
  assert (Hall : Forall (fun ta => fst ta < 10 + 25 /\ is_write (snd ta) = true)
                        [(12, act_writeWord 19 400)]).
  { repeat constructor; cbn; lia. }
  assert (Htp : 30 < 10 + 25) by lia.
  assert (Htend : 10 + 25 <= 35) by lia.
  destruct (getBoardStatus_discards_pending_writes Examples.polled
              Examples.image) as (_ & _ & Hwindow).
  destruct (Hwindow Examples.zeros 10 (act_writeByte 18 5) _ 30 35
              Hlast Hnew Hts Hclock Hw Hall Htp Htend)
    as (b1 & b2 & Hrun & Hadv & Hbus).
  exists b1, b2. repeat split; assumption.
Defined.

(** C4, as the code has it.  When a flush fires, the pending buffer goes
    to the bus in one block write and is then replaced by a copy of
    [d_lastBuf], the register image last known (the one the last poll
    read), whatever was flushed.  A buffered write that finds
    [d_hasNewData] false sets a timer due 25 time units later, and the
    firing of that timer flushes the pending buffer. *)
Theorem flushWrite_resets_to_last_image :
  forall (b : Board) (last : Buffer),
    d_lastBuf b = Some last ->
    (d_hasNewData b = true ->
     exists b',
       flushWrite b = Ok b' /\
       d_i2c b' = (d_i2c b ++ [writeSync (d_addr b) 0 (d_outBuf b)])%list /\
       d_outBuf b' = Some last) /\
    (forall (a : action) (t tend : Z),
       d_hasNewData b = false -> timeouts b = [] -> clock b <= t ->
       is_write a = true -> t + 25 <= tend ->
       exists b1 b2,
         run [(t, a)] b = Ok b1 /\
         timeouts b1 = [t + 25] /\
         advance tend b1 = Ok b2 /\
         d_i2c b2 = (d_i2c b ++ [writeSync (d_addr b) 0 (d_outBuf b1)])%list).
Proof.
  intros b last Hlast. split.
  - intros Hnew. unfold flushWrite. rewrite Hnew. cbn [negb].
    cbn [d_lastBuf i2c]. rewrite Hlast. cbn [Buffer_from bind].
    eexists. split; [reflexivity |]. split; reflexivity.
  - intros a t tend Hnew Hts Hclock Hw Htend.
    destruct (run_first_window t a [] b last Hlast Hnew Hts Hclock Hw
                (Forall_nil _)) as (b1 & Hrun & Hin).
    destruct Hin as (Hout & Hnew1 & Hts1 & Hclock1 & Haddr & Hbus & Hlast1).
    assert (Hlast1' : d_lastBuf b1 = Some last) by congruence.
    destruct (flush_when_due (t + 25) tend b1 _ last
                Hout Hnew1 Hts1 Hlast1' Htend)
      as (b2 & Hadv & Hbus2 & _).
    exists b1, b2. repeat split; try assumption.
    rewrite Hbus2, Hbus, Haddr, Hout. reflexivity.
Qed.

Lemma flushWrite_resets_to_last_image_witness :
  d_lastBuf (with_hasNewData true (with_outBuf (Some Examples.image) Examples.polled))
  = Some Examples.zeros /\
  exists b',
    flushWrite (with_hasNewData true
                  (with_outBuf (Some Examples.image) Examples.polled)) = Ok b' /\
    d_i2c b' = [readSync 20 0 23; writeSync 20 0 (Some Examples.image)] /\
    d_outBuf b' = Some Examples.zeros.
Proof.
  assert (Hlast : d_lastBuf (with_hasNewData true
                    (with_outBuf (Some Examples.image) Examples.polled))
                  = Some Examples.zeros) by reflexivity.
  split; [exact Hlast |].
  destruct (flushWrite_resets_to_last_image _ _ Hlast) as [Hflush _].
  destruct (Hflush eq_refl) as (b' & Hrun & Hbus & Hout).
  exists b'. repeat split; assumption.
Defined.

(** C4 as stated fails.  On a driver whose last poll read an all-zero
    image, one buffered write of 255 to register 18 is flushed at time
    25: the payload has 255 at index 18, but the pending buffer after the
    flush is the all-zero image, not the payload.  A buffered write at
    time 30 then sets no timer, and nothing more reaches the bus however
    long one waits. *)
Lemma flush_then_write_counterexample :
  match (b1 <- run [(0, act_writeByte 18 255)] Examples.polled ;;
         advance 25 b1) with
  | Throw _ => False
  | Ok b2 =>
      exists payload,
        d_i2c b2 = [readSync 20 0 23; writeSync 20 0 (Some payload)] /\
        Buffer_get payload 18 = JNum 255 /\
        d_outBuf b2 = Some Examples.zeros /\
        d_outBuf b2 <> Some payload /\
        match run [(30, act_writeByte 18 1)] b2 with
        | Throw _ => False
        | Ok b3 =>
            timeouts b3 = [] /\
            match advance 1000 b3 with
            | Throw _ => False
            | Ok b4 => d_i2c b4 = d_i2c b2
            end
        end
  end.
Proof.
  vm_compute. eexists. split; [reflexivity |]. split; [reflexivity |].
  split; [reflexivity |]. split; [intros H; discriminate H |].
  split; reflexivity.
Qed.

(* ===================================================================== *)
(** ** Properties of the port router                                      *)
(* ===================================================================== *)

(** *** Objects as maps *)

Lemma own_None_iff {V : Type} (o : Obj.t V) (key : string) :
  Obj.own o key = None <-> ~ In key (Obj.keys o).
Proof.
  induction o as [| [k v] rest IH]; cbn [Obj.own Obj.keys map fst In].
  - tauto.
  - destruct (String.eqb_spec k key) as [-> | Hneq].
    + split; [discriminate | tauto].
    + unfold Obj.keys in IH. rewrite IH. tauto.
Qed.

Lemma keys_set_new {V : Type} (o : Obj.t V) (key : string) (v : V) :
  Obj.own o key = None -> Obj.keys (Obj.set o key v) = (Obj.keys o ++ [key])%list.
Proof.
  induction o as [| [k x] rest IH]; cbn [Obj.own Obj.set Obj.keys map fst app].
  - reflexivity.
  - destruct (String.eqb_spec k key) as [-> | Hneq]; [discriminate |].
    intros Hown. cbn [map fst]. f_equal. apply IH. exact Hown.
Qed.

Lemma own_set_eq {V : Type} (o : Obj.t V) (key : string) (v : V) :
  Obj.own (Obj.set o key v) key = Some v.
Proof.
  induction o as [| [k x] rest IH]; cbn [Obj.own Obj.set].
  - rewrite String.eqb_refl. reflexivity.
  - destruct (String.eqb_spec k key) as [-> | Hneq]; cbn [Obj.own].
    + rewrite String.eqb_refl. reflexivity.
    + destruct (String.eqb_spec k key); [contradiction | exact IH].
Qed.

Lemma get_absent {V : Type} (o : Obj.t V) (key : string) :
  Obj.own o key = None -> Obj.inherited key = false -> Obj.get o key = Obj.Absent.
Proof. intros Hown Hinh. unfold Obj.get. rewrite Hown, Hinh. reflexivity. Qed.

Lemma get_absent_own {V : Type} (o : Obj.t V) (key : string) :
  Obj.get o key = Obj.Absent -> Obj.own o key = None.
Proof.
  unfold Obj.get. destruct (Obj.own o key); [discriminate |]. reflexivity.
Qed.

Lemma own_set_neq {V : Type} (o : Obj.t V) (key other : string) (v : V) :
  key <> other -> Obj.own (Obj.set o key v) other = Obj.own o other.
Proof.
  intros Hneq. induction o as [| [k x] rest IH]; cbn [Obj.own Obj.set].
  - destruct (String.eqb_spec key other); [contradiction | reflexivity].
  - destruct (String.eqb_spec k key) as [-> | Hk]; cbn [Obj.own].
    + destruct (String.eqb_spec key other); [contradiction | reflexivity].
    + destruct (String.eqb_spec k other); [reflexivity | exact IH].
Qed.

(** Assigning to a name the object has keeps the names and their order. *)
Lemma keys_set_bound {V : Type} (o : Obj.t V) (key : string) (v : V) :
  Obj.own o key <> None -> Obj.keys (Obj.set o key v) = Obj.keys o.
Proof.
  induction o as [| [k x] rest IH]; cbn [Obj.own Obj.set Obj.keys map fst].
  - intros H. contradiction.
  - destruct (String.eqb_spec k key) as [-> | Hk]; [reflexivity |].
    intros H. cbn [map fst]. f_equal. apply IH. exact H.
Qed.

Lemma get_own {V : Type} (o : Obj.t V) (key : string) (v : V) :
  Obj.own o key = Some v -> Obj.get o key = Obj.Own v.
Proof. intros H. unfold Obj.get. rewrite H. reflexivity. Qed.

Lemma get_proto {V : Type} (o : Obj.t V) (key : string) :
  Obj.own o key = None -> Obj.inherited key = true -> Obj.get o key = Obj.Proto.
Proof. intros Hown Hinh. unfold Obj.get. rewrite Hown, Hinh. reflexivity. Qed.

(** *** Walking an object *)

Lemma existsb_eqb_In (k : string) (seen : list string) :
  existsb (String.eqb k) seen = true <-> In k seen.
Proof.
  rewrite existsb_exists. split.
  - intros (x & Hx & Heq). apply String.eqb_eq in Heq. subst. exact Hx.
  - intros H. exists k. split; [exact H | apply String.eqb_refl].
Qed.

(** [for..in] hands out the names of the object that were not seen
    before, each once. *)
Lemma walk_names {V : Type} (o : Obj.t V) :
  forall seen : list string,
    NoDup (map fst (Obj.walk seen o)) /\
    (forall k, In k (map fst (Obj.walk seen o)) <->
               In k (Obj.keys o) /\ ~ In k seen).
Proof.
  induction o as [| [k0 v0] rest IH]; intros seen; cbn [Obj.walk].
  - split; [constructor |]. cbn. tauto.
  - destruct (existsb (String.eqb k0) seen) eqn:E.
    + apply existsb_eqb_In in E. destruct (IH seen) as [Hnd Hin].
      split; [exact Hnd |].
      intros k. rewrite Hin. cbn [Obj.keys map fst In].
      split; [tauto |]. intros [[<- | H] Hs]; [contradiction | tauto].
    + assert (Hnot : ~ In k0 seen).
      { intros H. apply existsb_eqb_In in H. congruence. }
      destruct (IH (k0 :: seen)) as [Hnd Hin]. cbn [map fst].
      split.
      * constructor; [| exact Hnd]. rewrite Hin. cbn [In]. tauto.
      * intros k. cbn [In Obj.keys map fst]. rewrite Hin. cbn [In].
        destruct (string_dec k0 k) as [-> | Hneq]; [tauto |].
        unfold Obj.keys. tauto.
Qed.

(** With each name comes the property the object has under it. *)
Lemma walk_own {V : Type} (o : Obj.t V) :
  forall (seen : list string) (k : string) (v : V),
    In (k, v) (Obj.walk seen o) <-> Obj.own o k = Some v /\ ~ In k seen.
Proof.
  induction o as [| [k0 v0] rest IH]; intros seen k v;
    cbn [Obj.walk Obj.own].
  - cbn. split; [tauto | intros [H _]; discriminate].
  - destruct (existsb (String.eqb k0) seen) eqn:E.
    + apply existsb_eqb_In in E. rewrite IH.
      destruct (String.eqb_spec k0 k) as [-> | Hneq]; [tauto |]. tauto.
    + assert (Hnot : ~ In k0 seen).
      { intros H. apply existsb_eqb_In in H. congruence. }
      cbn [In]. rewrite IH. cbn [In].
      destruct (String.eqb_spec k0 k) as [-> | Hneq].
      * split.
        -- intros [H | [_ H]]; [| tauto].
           injection H as ->. tauto.
        -- intros [H _]. injection H as ->. left. reflexivity.
      * split.
        -- intros [H | H]; [congruence | tauto].
        -- intros [H Hs]. right. tauto.
Qed.

Lemma for_in_names {V : Type} (o : Obj.t V) :
  NoDup (map fst (Obj.for_in o)) /\
  (forall k, In k (map fst (Obj.for_in o)) <-> In k (Obj.keys o)).
Proof.
  unfold Obj.for_in. destruct (walk_names o []) as [Hnd Hin].
  split; [exact Hnd |]. intros k. rewrite Hin. cbn. tauto.
Qed.

Lemma for_in_own {V : Type} (o : Obj.t V) (k : string) (v : V) :
  In (k, v) (Obj.for_in o) <-> Obj.own o k = Some v.
Proof. unfold Obj.for_in. rewrite walk_own. cbn. tauto. Qed.

(** The channel names are no property of [Object.prototype]. *)
Lemma channel_names_not_inherited (n : string) :
  Obj.inherited ("D-" ++ n) = false /\
  Obj.inherited ("A-" ++ n) = false /\
  Obj.inherited ("PWM-" ++ n) = false /\
  Obj.inherited "batt" = false.
Proof. repeat split; reflexivity. Qed.

Section RouterProperties.

Context {JSValue Interface DeviceClass DeviceConfig Device : Type}.
Variable truthy : JSValue -> bool.
Variable boolean : bool -> JSValue.
Variable device_write : Device -> string -> Z -> JSValue -> result Device.
Variable device_read : Device -> string -> Z -> result (JSValue * Device).
Variable device_configurePin : Device -> Z -> string -> result Device.
Variable construct :
  DeviceClass -> string -> Obj.slot (option Interface) -> DeviceConfig ->
  result Device.
Variable BuiltinDeviceTypes : string -> option DeviceClass.
Variable C : Constants.t.

Local Abbreviation Robot :=
  (Robot.Robot JSValue Interface DeviceClass DeviceConfig Device).
Local Abbreviation Config := (Robot.Config Interface DeviceClass DeviceConfig).
Local Abbreviation new := (Robot.new JSValue (Device := Device) construct BuiltinDeviceTypes).
Local Abbreviation blank := (Robot.blank JSValue Device).
Local Abbreviation createDevices := (Robot.createDevices (JSValue := JSValue) construct BuiltinDeviceTypes).
Local Abbreviation writeDigital := (Robot.writeDigital truthy boolean device_write).
Local Abbreviation writePWM := (Robot.writePWM device_write).
Local Abbreviation readDigital := (Robot.readDigital device_read).
Local Abbreviation readAnalog := (Robot.readAnalog device_read).
Local Abbreviation readBattMV := (Robot.readBattMV device_read).
Local Abbreviation configureDigitalPinMode :=
  (Robot.configureDigitalPinMode device_configurePin C).

(** *** Construction *)

Lemma setupInterfaces_keeps (r : Robot) :
  Robot.d_config (Robot.setupInterfaces r) = Robot.d_config r /\
  Robot.d_portDeviceMaps (Robot.setupInterfaces r) = Robot.d_portDeviceMaps r /\
  Robot.d_devices (Robot.setupInterfaces r) = Robot.d_devices r.
Proof.
  unfold Robot.setupInterfaces.
  destruct (Robot.interfaces (Robot.d_config r)) as [l |]; [| auto].
  revert r. induction l as [| spec l IH]; intros r; cbn [fold_left]; [auto |].
  match goal with
  | |- context [fold_left _ l ?r'] =>
      destruct (IH r') as (H1 & H2 & H3); rewrite H1, H2, H3
  end.
  destruct (Obj.get (Robot.d_interfaces r) (Robot.if_id spec)) as [[i |] | |];
    auto.
Qed.

Lemma createDevices_throw (l : list (Robot.DeviceSpec DeviceClass DeviceConfig)) (e : exn) :
  fold_left
    (fun (acc : result Robot) deviceSpec =>
       r <- acc ;;
       match
         match BuiltinDeviceTypes (Robot.type deviceSpec) with
         | Some builtin => Some builtin
         | None => Robot.implementation deviceSpec
         end
       with
       | None => Throw (TypeError "deviceImpl is not a constructor")
       | Some cls =>
           d <- construct cls (Robot.id deviceSpec)
                  (Robot.getInterface (Robot.interfaceId deviceSpec) r)
                  (Robot.config deviceSpec) ;;
           Ok (Robot.with_devices
                 (Obj.set (Robot.d_devices r) (Robot.id deviceSpec) d) r)
       end) l (Throw e) = Throw e.
Proof. induction l as [| spec l IH]; cbn [fold_left bind]; auto. Qed.

Lemma createDevices_keeps (l : list (Robot.DeviceSpec DeviceClass DeviceConfig)) :
  forall (r r' : Robot),
    createDevices l r = Ok r' ->
    Robot.d_config r' = Robot.d_config r /\
    Robot.d_portDeviceMaps r' = Robot.d_portDeviceMaps r.
Proof.
  unfold Robot.createDevices.
  induction l as [| spec l IH]; intros r r' H; cbn [fold_left bind] in H.
  - inversion H. auto.
  - destruct (match BuiltinDeviceTypes (Robot.type spec) with
              | Some builtin => Some builtin
              | None => Robot.implementation spec
              end) as [cls |].
    + destruct (construct cls (Robot.id spec)
                  (Robot.getInterface (Robot.interfaceId spec) r)
                  (Robot.config spec)) as [d |]; cbn [bind] in H.
      * apply IH in H. cbn in H. exact H.
      * rewrite createDevices_throw in H. discriminate.
    + rewrite createDevices_throw in H. discriminate.
Qed.

Lemma mapPorts_keys (entries : list (string * Robot.MapInfo)) :
  forall (r r' : Robot),
    Robot.mapPorts entries r = Ok r' ->
    Obj.keys (Robot.d_portDeviceMaps r')
    = (Obj.keys (Robot.d_portDeviceMaps r) ++ map fst entries)%list /\
    (NoDup (Obj.keys (Robot.d_portDeviceMaps r)) ->
     NoDup (Obj.keys (Robot.d_portDeviceMaps r'))).
Proof.
  induction entries as [| [portName mapInfo] rest IH]; intros r r' H;
    cbn [Robot.mapPorts] in H.
  - inversion H. subst. rewrite app_nil_r. auto.
  - destruct (Obj.get (Robot.d_portDeviceMaps r) portName) as [pd | |] eqn:Hget;
      try discriminate.
    apply get_absent_own in Hget.
    apply IH in H. cbn [Robot.d_portDeviceMaps Robot.with_portDeviceMaps] in H.
    rewrite (keys_set_new _ _ _ Hget) in H. destruct H as [Hkeys Hnd].
    split.
    + rewrite Hkeys. rewrite <- app_assoc. reflexivity.
    + intros Hr. apply Hnd. apply NoDup_app.
      repeat split; auto.
      * constructor; [intros [] | constructor].
      * intros x Hx [<- | []]. apply own_None_iff in Hget. contradiction.
Qed.

Lemma mapPorts_ok (entries : list (string * Robot.MapInfo)) :
  forall (r : Robot),
    NoDup (map fst entries) ->
    (forall name, In name (map fst entries) ->
       Obj.inherited name = false /\
       Obj.own (Robot.d_portDeviceMaps r) name = None) ->
    exists r',
      Robot.mapPorts entries r = Ok r' /\
      (forall name info,
         In (name, info) entries ->
         Obj.own (Robot.d_portDeviceMaps r') name
         = Some {| Robot.device :=
                     match Obj.get (Robot.d_devices r) (Robot.deviceId info) with
                     | Obj.Own _ => Some (Robot.deviceId info)
                     | _ => None
                     end;
                   Robot.devicePortType := Robot.mi_devicePortType info;
                   Robot.devicePort := Robot.mi_devicePort info;
                   Robot.direction := Robot.mi_direction info |}) /\
      (forall name, ~ In name (map fst entries) ->
         Obj.own (Robot.d_portDeviceMaps r') name
         = Obj.own (Robot.d_portDeviceMaps r) name) /\
      Robot.d_devices r' = Robot.d_devices r /\
      Robot.d_enabled r' = Robot.d_enabled r /\
      Robot.calls r' = Robot.calls r.
Proof.
  induction entries as [| [portName mapInfo] rest IH]; intros r Hnd Hfresh.
  - exists r. split; [reflexivity |]. repeat split; auto.
    intros name info [].
  - cbn [map fst] in Hnd. inversion Hnd as [| ? ? Hnotin Hnd']; subst.
    destruct (Hfresh portName (or_introl eq_refl)) as [Hinh Hown].
    cbn [Robot.mapPorts]. rewrite (get_absent _ _ Hown Hinh).
    match goal with
    | |- context [Robot.mapPorts rest ?r1] =>
        destruct (IH r1 Hnd') as (r' & Hrun & Hin & Hout & Hd & He & Hc)
    end.
    { intros name Hname.
      destruct (Hfresh name (or_intror Hname)) as [Hi Ho].
      split; [exact Hi |].
      cbn [Robot.d_portDeviceMaps Robot.with_portDeviceMaps].
      rewrite own_set_neq; [exact Ho |].
      intros ->. contradiction. }
    cbn [Robot.d_portDeviceMaps Robot.with_portDeviceMaps Robot.d_devices
         Robot.d_enabled Robot.calls] in *.
    exists r'. split; [exact Hrun |].
    split; [| split; [| auto]].
    + intros name info [Heq | Hrest].
      * injection Heq as <- <-. rewrite (Hout portName Hnotin).
        apply own_set_eq.
      * apply Hin. exact Hrest.
    + intros name Hname. rewrite Hout.
      * apply own_set_neq. intros ->. apply Hname. left. reflexivity.
      * intros H. apply Hname. right. exact H.
Qed.

(** A name that every object inherits reads as bound on the empty map:
    the port loop throws at the first such name. *)
Lemma mapPorts_inherited_name (entries : list (string * Robot.MapInfo)) :
  forall (r : Robot),
    NoDup (map fst entries) ->
    (forall name, In name (map fst entries) ->
       Obj.own (Robot.d_portDeviceMaps r) name = None) ->
    (exists name, In name (map fst entries) /\ Obj.inherited name = true) ->
    exists n, In n (map fst entries) /\ Obj.inherited n = true /\
              Robot.mapPorts entries r = Throw (mapped_twice n).
Proof.
  induction entries as [| [portName mapInfo] rest IH]; intros r Hnd Hfresh Hex.
  - destruct Hex as (name & [] & _).
  - cbn [map fst] in Hnd. inversion Hnd as [| ? ? Hnotin Hnd']; subst.
    pose proof (Hfresh portName (or_introl eq_refl)) as Hown.
    cbn [Robot.mapPorts].
    destruct (Obj.inherited portName) eqn:Hinh.
    + exists portName. split; [left; reflexivity |]. split; [exact Hinh |].
      unfold Obj.get. rewrite Hown, Hinh. reflexivity.
    + rewrite (get_absent _ _ Hown Hinh).
      match goal with
      | |- context [Robot.mapPorts rest ?r1] =>
          destruct (IH r1 Hnd') as (n & Hn & Hi & Hthrow)
      end.
      * intros name Hname.
        cbn [Robot.d_portDeviceMaps Robot.with_portDeviceMaps].
        rewrite own_set_neq; [apply Hfresh; right; exact Hname |].
        intros ->. contradiction.
      * destruct Hex as (name & [Heq | Hname] & Hi).
        -- cbn [fst] in Heq. subst name. congruence.
        -- exists name. split; assumption.
      * exists n. split; [right; exact Hn |]. split; assumption.
Qed.

(** C1, as amended.  A configuration object holds each channel name once
    (a name written twice keeps its later entry) and the port loop visits
    each name once, with the entry the object holds for it: a repeated
    name does not make construction fail.  Once the devices are built,
    construction succeeds when no name of the port map is a property
    every object inherits, and each name is then mapped with the port
    type, port number and direction of its entry; it throws "Attempting to
    assign already mapped port" when a name of the port map is such an
    inherited property (toString, say), at such a name.  Whenever
    construction succeeds, the names of the port-device map are those of
    the configuration and no two entries share a name. *)
Theorem new_meets_each_port_name_once :
  forall (cfg : Config),
    (forall r,
       new cfg = Ok r ->
       NoDup (Obj.keys (Robot.d_portDeviceMaps r)) /\
       (forall name, In name (Obj.keys (Robot.d_portDeviceMaps r)) <->
                     In name (Obj.keys (Robot.portMap cfg)))) /\
    (forall deviceList r1,
       Robot.devices cfg = Some deviceList ->
       createDevices deviceList (Robot.setupInterfaces (blank cfg)) = Ok r1 ->
       ((forall name, In name (Obj.keys (Robot.portMap cfg)) ->
                      Obj.inherited name = false) ->
        exists r,
          new cfg = Ok r /\
          forall name info,
            Obj.own (Robot.portMap cfg) name = Some info ->
            exists pd,
              Obj.own (Robot.d_portDeviceMaps r) name = Some pd /\
              Robot.devicePortType pd = Robot.mi_devicePortType info /\
              Robot.devicePort pd = Robot.mi_devicePort info /\
              Robot.direction pd = Robot.mi_direction info) /\
       (forall name,
          In name (Obj.keys (Robot.portMap cfg)) ->
          Obj.inherited name = true ->
          exists n,
            In n (Obj.keys (Robot.portMap cfg)) /\ Obj.inherited n = true /\
            new cfg = Throw (mapped_twice n))).
Proof.
  intros cfg.
  assert (Hcfg : Robot.d_config (Robot.setupInterfaces (blank cfg)) = cfg).
  { destruct (setupInterfaces_keeps (blank cfg)) as (H & _). exact H. }
  assert (Hmaps : Robot.d_portDeviceMaps (Robot.setupInterfaces (blank cfg)) = []).
  { destruct (setupInterfaces_keeps (blank cfg)) as (_ & H & _). exact H. }
  assert (Hsecond : forall deviceList r1,
            Robot.devices cfg = Some deviceList ->
            createDevices deviceList (Robot.setupInterfaces (blank cfg)) = Ok r1 ->
            new cfg = Robot.mapPorts (Obj.for_in (Robot.portMap cfg)) r1 /\
            Robot.d_portDeviceMaps r1 = []).
  { intros deviceList r1 Hdev Hcreate.
    unfold Robot.new, Robot.setupDevices. rewrite Hcfg, Hdev, Hcreate.
    cbn [bind]. apply createDevices_keeps in Hcreate as [Hc Hm].
    rewrite Hc, Hcfg. split; [reflexivity | congruence]. }
  destruct (for_in_names (Robot.portMap cfg)) as [Hnd Hnames].
  split.
  - intros r Hnew.
    destruct (Robot.devices cfg) as [deviceList |] eqn:Hdev.
    + destruct (createDevices deviceList (Robot.setupInterfaces (blank cfg)))
        as [r1 | e] eqn:Hcreate.
      * destruct (Hsecond deviceList r1 eq_refl Hcreate) as [Heq Hempty].
        rewrite Heq in Hnew. apply mapPorts_keys in Hnew as [Hkeys Hnd'].
        rewrite Hempty in Hkeys, Hnd'. cbn [Obj.keys map app] in Hkeys, Hnd'.
        split; [apply Hnd'; constructor |].
        intros name. rewrite Hkeys. apply Hnames.
      * unfold Robot.new, Robot.setupDevices in Hnew.
        rewrite Hcfg, Hdev, Hcreate in Hnew. discriminate.
    + unfold Robot.new, Robot.setupDevices in Hnew. rewrite Hcfg, Hdev in Hnew.
      discriminate.
  - intros deviceList r1 Hdev Hcreate.
    destruct (Hsecond deviceList r1 Hdev Hcreate) as [Heq Hempty].
    split.
    + intros Hplain.
      destruct (mapPorts_ok (Obj.for_in (Robot.portMap cfg)) r1 Hnd)
        as (r & Hmap & Hin & _).
      { intros name Hname. split.
        - apply Hplain. apply Hnames. exact Hname.
        - rewrite Hempty. reflexivity. }
      exists r. split; [rewrite Heq; exact Hmap |].
      intros name info Hown. eexists.
      split; [apply Hin; apply for_in_own; exact Hown |].
      repeat split.
    + intros name Hname Hinh.
      destruct (mapPorts_inherited_name (Obj.for_in (Robot.portMap cfg)) r1 Hnd)
        as (n & Hn & Hi & Hthrow).
      { intros k _. rewrite Hempty. reflexivity. }
      { exists name. split; [apply Hnames; exact Hname | exact Hinh]. }
      exists n. split; [apply Hnames; exact Hn |].
      split; [exact Hi | rewrite Heq; exact Hthrow].
Qed.

(** *** Calls on channels *)

(** C2.  When the name derived from a channel number has no entry in the
    port-device map: for D-<n>, [readDigital] throws "read from unmapped
    port", [configureDigitalPinMode] with a recognized mode throws "set
    mode on unmapped pin", and [writeDigital] on an enabled router throws
    "write to unmapped port"; for A-<n>, [readAnalog] throws; for PWM-<n>,
    [writePWM] on an enabled router throws; and without an entry for
    batt, [readBattMV] throws. *)
Theorem unmapped_channel_throws :
  forall (r : Robot) (channel : Z) (mode : string) (value : JSValue),
    (Obj.own (Robot.d_portDeviceMaps r) ("D-" ++ Str.of_number channel) = None ->
     readDigital channel r
     = Throw (Error ("Attempting to read from unmapped port "
                     ++ "D-" ++ Str.of_number channel)) /\
     (Constants.PinModes C mode <> None ->
      configureDigitalPinMode channel mode r
      = Throw (Error ("Attempting to set mode on unmapped pin "
                      ++ "D-" ++ Str.of_number channel))) /\
     (Robot.d_enabled r = true ->
      writeDigital channel value r
      = Throw (Error ("Attempting to write to unmapped port "
                      ++ "D-" ++ Str.of_number channel)))) /\
    (Obj.own (Robot.d_portDeviceMaps r) ("A-" ++ Str.of_number channel) = None ->
     readAnalog channel r
     = Throw (Error ("Attempting to read from unmapped port "
                     ++ "A-" ++ Str.of_number channel))) /\
    (Obj.own (Robot.d_portDeviceMaps r) ("PWM-" ++ Str.of_number channel) = None ->
     Robot.d_enabled r = true ->
     writePWM channel value r
     = Throw (Error ("Attempting to write to unmapped port "
                     ++ "PWM-" ++ Str.of_number channel))) /\
    (Obj.own (Robot.d_portDeviceMaps r) "batt" = None ->
     readBattMV r
     = Throw (Error "Attempting to read from unmapped port batt")).
Proof.
  intros r channel mode value.
  destruct (channel_names_not_inherited (Str.of_number channel))
    as (HD & HA & HP & HB).
  split; [| split; [| split]].
  - intros Hown. pose proof (get_absent _ _ Hown HD) as Hget.
    split; [| split].
    + unfold Robot.readDigital, Robot.read_port. rewrite Hget. reflexivity.
    + intros Hmode. unfold Robot.configureDigitalPinMode, Robot.PinModes_undefined.
      destruct (Constants.PinModes C mode); [| contradiction].
      rewrite Hget. reflexivity.
    + intros Hen. unfold Robot.writeDigital, Robot.write_port.
      rewrite Hen. cbn [negb]. rewrite Hget. reflexivity.
  - intros Hown. pose proof (get_absent _ _ Hown HA) as Hget.
    unfold Robot.readAnalog, Robot.read_port. rewrite Hget. reflexivity.
  - intros Hown Hen. pose proof (get_absent _ _ Hown HP) as Hget.
    unfold Robot.writePWM, Robot.write_port.
    rewrite Hen. cbn [negb]. rewrite Hget. reflexivity.
  - intros Hown. pose proof (get_absent _ _ Hown HB) as Hget.
    unfold Robot.readBattMV, Robot.read_port. rewrite Hget. reflexivity.
Qed.

(** After construction nothing writes to the port-device map: a call
    that returns leaves it as it was. *)
Lemma on_device_keeps_ports {A : Type} (dev : option string)
  (c : string -> Robot.call JSValue) (m : Device -> result (A * Device))
  (r r' : Robot) (a : A) :
  Robot.on_device dev c m r = Ok (a, r') ->
  Robot.d_portDeviceMaps r' = Robot.d_portDeviceMaps r.
Proof.
  unfold Robot.on_device. destruct dev as [key |]; [| discriminate].
  destruct (Obj.own (Robot.d_devices r) key) as [d |]; [| discriminate].
  destruct (m d) as [[a' d'] | e]; cbn [bind]; [| discriminate].
  intros H. inversion H. reflexivity.
Qed.

Lemma calls_keep_port_map (r r' : Robot) (channel : Z) (value v : JSValue)
  (mode : string) :
  (writeDigital channel value r = Ok r' \/
   writePWM channel value r = Ok r' \/
   configureDigitalPinMode channel mode r = Ok r' \/
   readDigital channel r = Ok (v, r') \/
   readAnalog channel r = Ok (v, r') \/
   readBattMV r = Ok (v, r')) ->
  Robot.d_portDeviceMaps r' = Robot.d_portDeviceMaps r.
Proof.
  assert (Hwrite : forall name x,
            Robot.write_port device_write name x r = Ok r' ->
            Robot.d_portDeviceMaps r' = Robot.d_portDeviceMaps r).
  { intros name x. unfold Robot.write_port.
    destruct (Obj.get (Robot.d_portDeviceMaps r) name) as [pd | |];
      try discriminate.
    destruct (Robot.on_device _ _ _ r) as [[u r1] | e] eqn:E; cbn [bind];
      [| discriminate].
    intros H. inversion H. subst. eapply on_device_keeps_ports. exact E. }
  assert (Hread : forall name,
            Robot.read_port device_read name r = Ok (v, r') ->
            Robot.d_portDeviceMaps r' = Robot.d_portDeviceMaps r).
  { intros name. unfold Robot.read_port.
    destruct (Obj.get (Robot.d_portDeviceMaps r) name) as [pd | |];
      try discriminate.
    apply on_device_keeps_ports. }
  intros [H | [H | [H | [H | [H | H]]]]].
  - unfold Robot.writeDigital in H.
    destruct (negb (Robot.d_enabled r)); [inversion H; reflexivity |].
    eapply Hwrite. exact H.
  - unfold Robot.writePWM in H.
    destruct (negb (Robot.d_enabled r)); [inversion H; reflexivity |].
    eapply Hwrite. exact H.
  - unfold Robot.configureDigitalPinMode in H.
    destruct (Robot.PinModes_undefined C mode); [discriminate |].
    destruct (Obj.get (Robot.d_portDeviceMaps r) _) as [pd | |];
      try discriminate.
    destruct (Robot.direction_set (Robot.direction pd)); [discriminate |].
    destruct (Robot.on_device _ _ _ r) as [[u r1] | e] eqn:E; cbn [bind] in H;
      [| discriminate].
    inversion H. subst. eapply on_device_keeps_ports. exact E.
  - eapply Hread. exact H.
  - eapply Hread. exact H.
  - eapply Hread. exact H.
Qed.

(** *** The enabled flag *)

Lemma on_device_flag {A : Type} (dev : option string)
  (c : string -> Robot.call JSValue) (m : Device -> result (A * Device))
  (x : bool) (r : Robot) :
  Robot.on_device dev c m (Robot.with_enabled x r)
  = match Robot.on_device dev c m r with
    | Ok (a, r') => Ok (a, Robot.with_enabled x r')
    | Throw e => Throw e
    end.
Proof.
  unfold Robot.on_device. destruct dev as [key |]; [| reflexivity].
  cbn [Robot.d_devices Robot.with_enabled].
  destruct (Obj.own (Robot.d_devices r) key) as [d |]; [| reflexivity].
  destruct (m d) as [[a d'] | e]; reflexivity.
Qed.

Lemma read_port_flag (name : string) (x : bool) (r : Robot) :
  Robot.read_port device_read name (Robot.with_enabled x r)
  = Robot.flagged x (Robot.read_port device_read name r).
Proof.
  unfold Robot.read_port, Robot.flagged.
  cbn [Robot.d_portDeviceMaps Robot.with_enabled].
  destruct (Obj.get (Robot.d_portDeviceMaps r) name) as [pd | |];
    [| reflexivity | reflexivity].
  apply on_device_flag.
Qed.

(** C8.  On a disabled router, [writeDigital] and [writePWM] return at
    once: the router comes back as it was, so no device state has changed
    and no call on a device has been recorded.  The three reads do not
    look at the flag: on the router with the flag set they give the same
    value or the same exception, make the same device call and leave the
    same state, the flag aside. *)
Theorem disabled_router_ignores_writes :
  forall (r : Robot) (channel : Z) (value : JSValue),
    Robot.d_enabled r = false ->
    writeDigital channel value r = Ok r /\
    writePWM channel value r = Ok r /\
    readDigital channel (Robot.with_enabled true r)
    = Robot.flagged true (readDigital channel r) /\
    readAnalog channel (Robot.with_enabled true r)
    = Robot.flagged true (readAnalog channel r) /\
    readBattMV (Robot.with_enabled true r)
    = Robot.flagged true (readBattMV r).
Proof.
  intros r channel value Hoff.
  split; [| split; [| split; [| split]]].
  - unfold Robot.writeDigital. rewrite Hoff. reflexivity.
  - unfold Robot.writePWM. rewrite Hoff. reflexivity.
  - apply read_port_flag.
  - apply read_port_flag.
  - apply read_port_flag.
Qed.

(** *** The port list *)

(** Whatever the port map, no descriptor of the analog and PWM lists has
    a direction, every descriptor of the digital list has one, and the
    router is returned as it was. *)
Lemma getPortList_directions (r : Robot) :
  let portList := fst (Robot.getPortList C r) in
  Forall (fun d => Robot.pd_direction d = None)
         (Robot.analog portList ++ Robot.pwm portList) /\
  Forall (fun d => Robot.pd_direction d <> None) (Robot.digital portList) /\
  snd (Robot.getPortList C r) = r.
Proof.
  unfold Robot.getPortList. cbn [fst snd].
  split; [| split; [| reflexivity]].
  - generalize (Robot.d_portDeviceMaps r). intros o.
    assert (H : forall acc,
              Forall (fun d => Robot.pd_direction d = None)
                     (Robot.analog acc ++ Robot.pwm acc) ->
              Forall (fun d => Robot.pd_direction d = None)
                     (Robot.analog
                        (fold_left
                           (fun portList '(portName, pData) =>
                              Robot.addPort C portList portName pData) o acc) ++
                      Robot.pwm
                        (fold_left
                           (fun portList '(portName, pData) =>
                              Robot.addPort C portList portName pData) o acc))).
    { induction o as [| [k pd] o IH]; intros acc Hacc; cbn [fold_left];
        [exact Hacc |].
      apply IH. unfold Robot.addPort.
      destruct (Str.split "-" k) as [| pType [| second rest]]; try exact Hacc.
      destruct (Str.parseInt second) as [n |]; try exact Hacc.
      apply Forall_app in Hacc as [Ha Hp].
      destruct (pType =? "D")%string; cbn [Robot.analog Robot.pwm];
        [apply Forall_app; split; assumption |].
      destruct (pType =? "A")%string; cbn [Robot.analog Robot.pwm].
      { apply Forall_app; split; [| assumption].
        apply Forall_app; split; [assumption |].
        constructor; [reflexivity | constructor]. }
      destruct (pType =? "PWM")%string; cbn [Robot.analog Robot.pwm].
      { apply Forall_app; split; [assumption |].
        apply Forall_app; split; [assumption |].
        constructor; [reflexivity | constructor]. }
      apply Forall_app; split; assumption. }
    apply H. constructor.
  - generalize (Robot.d_portDeviceMaps r). intros o.
    assert (H : forall acc,
              Forall (fun d => Robot.pd_direction d <> None) (Robot.digital acc) ->
              Forall (fun d => Robot.pd_direction d <> None)
                     (Robot.digital
                        (fold_left
                           (fun portList '(portName, pData) =>
                              Robot.addPort C portList portName pData) o acc))).
    { induction o as [| [k pd] o IH]; intros acc Hacc; cbn [fold_left];
        [exact Hacc |].
      apply IH. unfold Robot.addPort.
      destruct (Str.split "-" k) as [| pType [| second rest]]; try exact Hacc.
      destruct (Str.parseInt second) as [n |]; try exact Hacc.
      destruct (pType =? "D")%string; cbn [Robot.digital].
      { apply Forall_app; split; [assumption |].
        constructor; [discriminate | constructor]. }
      destruct (pType =? "A")%string; cbn [Robot.digital]; [assumption |].
      destruct (pType =? "PWM")%string; cbn [Robot.digital]; assumption. }
    apply H. constructor.
Qed.

End RouterProperties.

Lemma new_meets_each_port_name_once_witness :
  Robot.devices Examples.config_twice = Some [Examples.memo_spec] /\
  (exists r,
      Examples.robot_of Examples.config_twice = Ok r /\
      NoDup (Obj.keys (Robot.d_portDeviceMaps r))) /\
  (exists n, Examples.robot_of Examples.config_inherited
             = Throw (mapped_twice n)).
Proof.
  split; [reflexivity |]. split.
  - destruct (proj2 (new_meets_each_port_name_once (JSValue := jsval)
                       Examples.memo_construct Examples.memo_builtin
                       Examples.config_twice)
                [Examples.memo_spec] _ eq_refl eq_refl) as [Hok _].
    destruct Hok as (r & Hnew & _).
    { intros name H. vm_compute in H.
      destruct H as [<- | [<- | []]]; reflexivity. }
    exists r. split; [exact Hnew |].
    exact (proj1 (proj1 (new_meets_each_port_name_once (JSValue := jsval)
                           Examples.memo_construct Examples.memo_builtin
                           Examples.config_twice) r Hnew)).
  - destruct (proj2 (new_meets_each_port_name_once (JSValue := jsval)
                       Examples.memo_construct Examples.memo_builtin
                       Examples.config_inherited)
                [Examples.memo_spec] _ eq_refl eq_refl) as [_ Hthrow].
    destruct (Hthrow "toString") as (n & _ & _ & Hn).
    { vm_compute. right. left. reflexivity. }
    { reflexivity. }
    exists n. exact Hn.
Defined.

(** The port map written with D-0 twice: construction does not throw, and
    D-0 is mapped to the port of the later entry. *)
Lemma repeated_port_name_counterexample :
  ~ NoDup (map fst Examples.ports_twice) /\
  Robot.portMap Examples.config_twice = Obj.literal Examples.ports_twice /\
  match Examples.robot_of Examples.config_twice with
  | Ok r =>
      option_map Robot.devicePort
        (Obj.own (Robot.d_portDeviceMaps r) "D-0") = Some 1
  | Throw _ => False
  end.
Proof.
  split; [| split; [reflexivity | vm_compute; reflexivity]].
  cbn. intros H. inversion H as [| x l Hnin _]. apply Hnin.
  right. left. reflexivity.
Qed.

(** A name that [Object.prototype] already has counts as bound: the port
    loop throws at it although the configuration binds it once. *)
Example port_named_like_an_inherited_property :
  Robot.mapPorts [("toString", Examples.port "board" "digital" 0 None)]
    (Robot.blank jsval Examples.Memo Examples.config)
  = Throw (mapped_twice "toString").
Proof. reflexivity. Qed.

Lemma unmapped_channel_throws_witness :
  Obj.own (Robot.d_portDeviceMaps Examples.robot) "D-7" = None /\
  Robot.readDigital Examples.memo_read 7 Examples.robot
  = Throw (Error "Attempting to read from unmapped port D-7") /\
  Robot.writeDigital ToBoolean JBool Examples.memo_write 7 (JNum 1)
    (Robot.with_enabled true Examples.robot)
  = Throw (Error "Attempting to write to unmapped port D-7").
Proof.
  assert (Hown : Obj.own (Robot.d_portDeviceMaps Examples.robot) "D-7" = None)
    by reflexivity.
  split; [exact Hown |]. split.
  - exact (proj1 (proj1 (unmapped_channel_throws ToBoolean JBool
                    Examples.memo_write Examples.memo_read
                    Examples.memo_configurePin Examples.modes
                    Examples.robot 7 "INPUT" (JNum 1)) Hown)).
  - exact (proj2 (proj2 (proj1 (unmapped_channel_throws ToBoolean JBool
                    Examples.memo_write Examples.memo_read
                    Examples.memo_configurePin Examples.modes
                    (Robot.with_enabled true Examples.robot) 7 "INPUT" (JNum 1))
                    Hown)) eq_refl).
Defined.

Lemma disabled_router_ignores_writes_witness :
  Robot.d_enabled Examples.robot = false /\
  Robot.writeDigital ToBoolean JBool Examples.memo_write 0 (JNum 1)
    Examples.robot = Ok Examples.robot /\
  Robot.writePWM Examples.memo_write 1 (JNum 1) Examples.robot
  = Ok Examples.robot.
Proof.
  assert (Hoff : Robot.d_enabled Examples.robot = false) by reflexivity.
  destruct (disabled_router_ignores_writes ToBoolean JBool
              Examples.memo_write Examples.memo_read
              Examples.robot 0 (JNum 1) Hoff) as (Hd & _).
  destruct (disabled_router_ignores_writes ToBoolean JBool
              Examples.memo_write Examples.memo_read
              Examples.robot 1 (JNum 1) Hoff) as (_ & Hp & _).
  split; [exact Hoff |]. split; [exact Hd | exact Hp].
Defined.

(** C9, where the code departs from it.  The router built from the
    example configuration maps A-0 with direction IN and PWM-1 with
    direction OUT.  [getPortList] leaves the router as it was and lists
    D-0 with the default direction BOTH, but the descriptors of A-0 and
    PWM-1 carry their channel number only: the configured directions are
    not in the list, and no default stands in for them. *)
Theorem getPortList_omits_direction_of_analog_and_pwm :
  Examples.robot_of Examples.config = Ok Examples.robot /\
  option_map Robot.direction
    (Obj.own (Robot.d_portDeviceMaps Examples.robot) "A-0") = Some (Some "IN") /\
  option_map Robot.direction
    (Obj.own (Robot.d_portDeviceMaps Examples.robot) "PWM-1") = Some (Some "OUT") /\
  Robot.getPortList Examples.modes Examples.robot
  = ({| Robot.digital :=
          [{| Robot.channel := 0; Robot.pd_direction := Some "BOTH" |}];
        Robot.analog :=
          [{| Robot.channel := 0; Robot.pd_direction := None |}];
        Robot.pwm :=
          [{| Robot.channel := 1; Robot.pd_direction := None |}] |},
     Examples.robot).
Proof. repeat split; reflexivity. Qed.

(* ===================================================================== *)
(** ** Further properties of the board driver                             *)
(* ===================================================================== *)

Import Session.

(** *** Before the first poll *)

(** X1.  On a driver that has not polled yet there is no register image:
    each buffered write, [configurePin] and [writeDigital] throw a
    TypeError instead of writing. *)
Theorem writes_before_first_poll_throw :
  forall (C : Constants.t) (b : Board),
    d_lastBuf b = None ->
    d_outBuf b = None ->
    (forall register byte,
       exists msg, writeByte register byte b = Throw (TypeError msg)) /\
    (forall register word,
       exists msg, writeWord register word b = Throw (TypeError msg)) /\
    (forall register buffer,
       exists msg, writeBuffer register buffer b = Throw (TypeError msg)) /\
    (forall channel mode,
       exists msg, configurePin C channel mode b = Throw (TypeError msg)) /\
    (forall channel value,
       exists msg, writeDigital channel value b = Throw (TypeError msg)).
Proof.
  intros C b Hlast Hout.
  assert (Hsetup : exists msg, setupWrite b = Throw (TypeError msg)).
  { unfold setupWrite. rewrite Hout, Hlast. cbn. eexists. reflexivity. }
  destruct Hsetup as [msg Hsetup].
  repeat split; intros.
  - exists msg. unfold writeByte. rewrite Hsetup. reflexivity.
  - exists msg. unfold writeWord. rewrite Hsetup. reflexivity.
  - exists msg. unfold writeBuffer. rewrite Hsetup. reflexivity.
  - unfold configurePin, lastBuf_get. rewrite Hlast. cbn. eexists. reflexivity.
  - unfold writeDigital, lastBuf_get. rewrite Hlast. cbn. eexists. reflexivity.
Qed.

Lemma writes_before_first_poll_throw_witness :
  d_lastBuf (new 20 0) = None /\
  d_outBuf (new 20 0) = None /\
  (exists msg, writeByte 18 1 (new 20 0) = Throw (TypeError msg)) /\
  (exists msg, writeDigital 3 (JBool true) (new 20 0) = Throw (TypeError msg)).
Proof.
  assert (Hlast : d_lastBuf (new 20 0) = None) by reflexivity.
  assert (Hout : d_outBuf (new 20 0) = None) by reflexivity.
  destruct (writes_before_first_poll_throw Examples.modes (new 20 0) Hlast Hout)
    as (Hbyte & _ & _ & _ & Hdigital).
  split; [exact Hlast |]. split; [exact Hout |].
  split; [apply Hbyte | apply Hdigital].
Defined.

(** *** The digital-output byte *)

Lemma bit_or_is_number (a b : jsval) : bit_or a b = JNum (num_of (bit_or a b)).
Proof. reflexivity. Qed.

Lemma bit_and_is_number (a b : jsval) : bit_and a b = JNum (num_of (bit_and a b)).
Proof. reflexivity. Qed.

Lemma digital_all :
  forallb
    (fun old =>
       forallb
         (fun channel =>
            digital_check old
              (num_of (bit_or (JNum old) (shift_left (JNum 1) channel)))
              (num_of (bit_and (JNum old)
                               (bit_not (shift_left (JNum 1) channel))))
              channel)
         [0; 1; 2; 3; 4; 5; 6; 7])
    (map Z.of_nat (seq 0 256)) = true.
Proof. vm_compute. reflexivity. Qed.

Lemma digital_check_sound (old set clr channel : Z) :
  digital_check old set clr channel = true ->
  (is_byte set /\ one_bit_changed old set channel true = true) /\
  (is_byte clr /\ one_bit_changed old clr channel false = true).
Proof.
  unfold digital_check, is_byte. intros H.
  repeat (apply andb_prop in H; destruct H as [H ?]).
  repeat match goal with
         | H : (_ <=? _) = true |- _ => apply Z.leb_le in H
         | H : (_ <? _) = true |- _ => apply Z.ltb_lt in H
         end.
  auto.
Qed.

Lemma digital_of_byte (old channel : Z) :
  is_byte old -> 0 <= channel <= 7 ->
  digital_check old
    (num_of (bit_or (JNum old) (shift_left (JNum 1) channel)))
    (num_of (bit_and (JNum old) (bit_not (shift_left (JNum 1) channel))))
    channel = true.
Proof.
  intros Hold Hch. pose proof digital_all as H.
  rewrite forallb_forall in H.
  assert (Hin : In old (map Z.of_nat (seq 0 256))).
  { apply in_map_iff. exists (Z.to_nat old). unfold is_byte in Hold.
    split; [lia |]. apply in_seq. lia. }
  specialize (H old Hin). rewrite forallb_forall in H.
  apply (H channel). cbn [In]. lia.
Qed.

(** The byte [writeDigital] sends, step by step. *)
Lemma board_writeDigital_byte (channel : Z) (value : jsval) (b : Board)
  (last : Buffer) :
  d_lastBuf b = Some last ->
  Forall is_byte last ->
  (18 < List.length last)%nat ->
  0 <= channel <= 7 ->
  exists new,
    writeDigital channel value b
    = Ok (i2c (writeByteSync (d_addr b) 18 (JNum new))
              (with_lastBuf (Some (Buffer_set last 18 (JNum new))) b)) /\
    is_byte new /\
    one_bit_changed (nth 18 last 0) new channel (ToBoolean value) = true.
Proof.
  intros Hlast Hbytes Hlen Hch.
  unfold writeDigital, lastBuf_get. rewrite Hlast. cbn [bind option_map].
  rewrite (Buffer_get_nth last 18) by lia.
  change (Z.to_nat 18) with 18%nat.
  pose proof (Forall_is_byte_nth last 18 Hbytes) as Hold.
  remember (nth 18 last 0) as old eqn:Eold.
  destruct (digital_check_sound _ _ _ _ (digital_of_byte old channel Hold Hch))
    as [[Hset1 Hset2] [Hclr1 Hclr2]].
  destruct (ToBoolean value).
  - rewrite bit_or_is_number. eexists. split; [reflexivity |]. auto.
  - rewrite bit_and_is_number. eexists. split; [reflexivity |]. auto.
Qed.

(** X2.  On a driver with a register image, [writeDigital] on a channel
    0..7 reads byte 18 of the image, changes the one bit of the channel
    to the value and leaves the other seven bits as they were; it sends
    that byte to register 18 in one bus call and stores it back into the
    image, so that the next call builds on it. *)
Theorem board_writeDigital_sets_one_bit :
  forall (b : Board) (last : Buffer) (channel : Z) (value : jsval),
    d_lastBuf b = Some last ->
    Forall is_byte last ->
    (18 < List.length last)%nat ->
    0 <= channel <= 7 ->
    exists new b',
      writeDigital channel value b = Ok b' /\
      d_i2c b' = (d_i2c b ++ [writeByteSync (d_addr b) 18 (JNum new)])%list /\
      is_byte new /\
      Z.testbit new channel = ToBoolean value /\
      (forall j, 0 <= j <= 7 -> j <> channel ->
                 Z.testbit new j = Z.testbit (nth 18 last 0) j) /\
      (exists last',
          d_lastBuf b' = Some last' /\
          Buffer_get last' 18 = JNum new /\
          forall i, i <> 18 -> Buffer_get last' i = Buffer_get last i) /\
      d_outBuf b' = d_outBuf b.
Proof.
  intros b last channel value Hlast Hbytes Hlen Hch.
  destruct (board_writeDigital_byte channel value b last Hlast Hbytes Hlen Hch)
    as (new & Hrun & Hbyte & Hbits).
  exists new. eexists. split; [exact Hrun |].
  split; [reflexivity |]. split; [exact Hbyte |].
  unfold one_bit_changed in Hbits. rewrite forallb_forall in Hbits.
  assert (Hbit : forall j, 0 <= j <= 7 ->
            Z.testbit new j
            = if j =? channel then ToBoolean value
              else Z.testbit (nth 18 last 0) j).
  { intros j Hj. apply Bool.eqb_prop. apply Hbits. cbn [In]. lia. }
  split; [| split; [| split]].
  - rewrite (Hbit channel Hch). rewrite Z.eqb_refl. reflexivity.
  - intros j Hj Hneq. rewrite (Hbit j Hj).
    destruct (Z.eqb_spec j channel); [contradiction | reflexivity].
  - eexists. split; [reflexivity |]. split.
    + apply Buffer_get_set_eq; [lia | exact Hbyte].
    + intros i Hi. apply Buffer_get_set_neq. lia.
  - reflexivity.
Qed.

Lemma board_writeDigital_sets_one_bit_witness :
  d_lastBuf (getBoardStatus Examples.image (new 20 0)) = Some Examples.image /\
  exists b',
    writeDigital 3 (JBool true) (getBoardStatus Examples.image (new 20 0))
    = Ok b' /\
    d_i2c b' = [readSync 20 0 23; writeByteSync 20 18 (JNum 8)].
Proof.
  assert (Hlast : d_lastBuf (getBoardStatus Examples.image (new 20 0))
                  = Some Examples.image) by reflexivity.
  assert (Hb : Forall is_byte Examples.image).
  { unfold Examples.image, is_byte. repeat constructor; lia. }
  assert (Hlen : (18 < List.length Examples.image)%nat) by (cbn; lia).
  assert (Hch : 0 <= 3 <= 7) by lia.
  destruct (board_writeDigital_sets_one_bit _ _ 3 (JBool true)
              Hlast Hb Hlen Hch)
    as (new & b' & Hrun & Hbus & Hbyte & Hset & Hkeep & _).
  split; [exact Hlast |]. exists b'. split; [exact Hrun |].
  rewrite Hbus.
  assert (Hnew : new = 8).
  { apply Z.bits_inj'. intros j Hj.
    destruct (Z.le_gt_cases j 7) as [Hle | Hgt].
    - destruct (Z.eq_dec j 3) as [-> | Hneq]; [exact Hset |].
      rewrite (Hkeep j) by lia.
      assert (Hj' : j = 0 \/ j = 1 \/ j = 2 \/ j = 4 \/ j = 5 \/ j = 6 \/ j = 7)
        by lia.
      destruct Hj' as [-> | [-> | [-> | [-> | [-> | [-> | ->]]]]]]; reflexivity.
    - unfold is_byte in Hbyte.
      rewrite (Z.bits_above_log2 new j), (Z.bits_above_log2 8 j);
        try reflexivity; try lia.
      + cbn. lia.
      + destruct (Z.eq_dec new 0) as [-> | Hnz]; [cbn; lia |].
        apply Z.log2_lt_pow2; [lia |].
        apply Z.lt_le_trans with (2 ^ 8); [cbn; lia |].
        apply Z.pow_le_mono_r; lia. }
  rewrite Hnew. reflexivity.
Defined.

(** *** What the buffered writes leave in the pending buffer *)

(** [setupWrite] on a driver with a pending buffer: the buffer stays, the
    flag is set, and the timer is set when the flag was not. *)
Lemma setupWrite_pending (b : Board) (out : Buffer) :
  d_outBuf b = Some out ->
  setupWrite b
  = Ok (with_hasNewData true
          (if negb (d_hasNewData b) then setTimeout_flushWrite 25 b else b)).
Proof.
  intros Hout. unfold setupWrite. rewrite Hout. reflexivity.
Qed.

Lemma perform_pending (a : action) (b : Board) (out : Buffer) :
  is_write a = true ->
  d_outBuf b = Some out ->
  perform a b
  = Ok (with_outBuf (Some (overlay a out))
          (with_hasNewData true
             (if negb (d_hasNewData b) then setTimeout_flushWrite 25 b
              else b))).
Proof.
  intros Hw Hout.
  assert (Hout' : d_outBuf
                    (with_hasNewData true
                       (if negb (d_hasNewData b)
                        then setTimeout_flushWrite 25 b else b)) = Some out).
  { destruct (d_hasNewData b); cbn; exact Hout. }
  destruct a as [register byte | register word | register buffer | answer];
    try discriminate; cbn [perform overlay].
  - unfold writeByte. rewrite (setupWrite_pending b out Hout). cbn [bind].
    unfold outBuf_set. rewrite Hout'. reflexivity.
  - unfold writeWord. rewrite (setupWrite_pending b out Hout). cbn [bind].
    unfold outBuf_set at 1. rewrite Hout'. cbn [bind]. reflexivity.
  - unfold writeBuffer. rewrite (setupWrite_pending b out Hout). cbn [bind].
    rewrite (writeBuffer_loop register buffer _ _ out Hout').
    reflexivity.
Qed.

Lemma wrap32_eq (z : Z) : wrap32 z = z - 2 ^ 32 * ((z + 2 ^ 31) / 2 ^ 32).
Proof. unfold wrap32. rewrite Z.mod_eq by lia. lia. Qed.

(** The two bytes [writeWord] takes from a word. *)
Lemma word_bytes (word : Z) :
  num_of (bit_and (shift_right (JNum word) 8) (JNum 255)) = word / 256 mod 256 /\
  num_of (bit_and (JNum word) (JNum 255)) = word mod 256.
Proof.
  unfold bit_and, shift_right, num_of. cbn [ToInt32].
  change (wrap32 255) with (Z.ones 8). change (8 mod 32) with 8.
  rewrite !Z.land_ones by lia. rewrite Z.shiftr_div_pow2 by lia.
  rewrite (wrap32_small (wrap32 word / 2 ^ 8)).
  2:{ assert (H : - 2 ^ 31 <= wrap32 word < 2 ^ 31).
      { unfold wrap32.
        pose proof (Z.mod_pos_bound (word + 2 ^ 31) (2 ^ 32)); lia. }
      split.
      - apply Z.le_trans with (- 2 ^ 31 / 2 ^ 8); [cbn; lia |].
        apply Z.div_le_mono; lia.
      - apply Z.le_lt_trans with (2 ^ 31 / 2 ^ 8); [| cbn; lia].
        apply Z.div_le_mono; lia. }
  rewrite wrap32_eq. remember ((word + 2 ^ 31) / 2 ^ 32) as q eqn:Eq.
  change (2 ^ 8) with 256.
  split.
  - replace (word - 2 ^ 32 * q) with (word + (- q * 2 ^ 24) * 256)
      by (change (2 ^ 32) with (2 ^ 24 * 256); lia).
    rewrite Z.div_add by lia.
    replace (word / 256 + - q * 2 ^ 24)
      with (word / 256 + (- q * 2 ^ 16) * 256)
      by (change (2 ^ 24) with (2 ^ 16 * 256); lia).
    apply Z.mod_add. lia.
  - replace (word - 2 ^ 32 * q) with (word + (- q * 2 ^ 24) * 256)
      by (change (2 ^ 32) with (2 ^ 24 * 256); lia).
    apply Z.mod_add. lia.
Qed.

(** X3.  [writeWord] on a driver with a pending buffer stores the word
    big-endian in it: bits 8 to 15 of the word at the register, bits 0 to
    7 at the register after it, so that the two bytes read as the word
    modulo 65536.  The other bytes of the buffer stay, and nothing goes
    to the bus. *)
Theorem writeWord_stores_big_endian :
  forall (b : Board) (out : Buffer) (register word : Z),
    d_outBuf b = Some out ->
    0 <= register ->
    register + 1 < Z.of_nat (List.length out) ->
    exists b' out' hi lo,
      writeWord register word b = Ok b' /\
      d_outBuf b' = Some out' /\
      Buffer_get out' register = JNum hi /\
      Buffer_get out' (register + 1) = JNum lo /\
      is_byte hi /\ is_byte lo /\
      hi * 256 + lo = word mod 65536 /\
      (forall j, j <> register -> j <> register + 1 ->
                 Buffer_get out' j = Buffer_get out j) /\
      d_i2c b' = d_i2c b.
Proof.
  intros b out register word Hout Hreg Hlen.
  pose proof (perform_pending (act_writeWord register word) b out
                eq_refl Hout) as Hrun.
  cbn [perform overlay] in Hrun.
  destruct (word_bytes word) as [Hhi Hlo].
  rewrite (bit_and_is_number (shift_right (JNum word) 8)) in Hrun.
  rewrite (bit_and_is_number (JNum word)) in Hrun.
  rewrite Hhi, Hlo in Hrun.
  assert (Bhi : is_byte (word / 256 mod 256))
    by (unfold is_byte; apply Z.mod_pos_bound; lia).
  assert (Blo : is_byte (word mod 256))
    by (unfold is_byte; apply Z.mod_pos_bound; lia).
  eexists. eexists. exists (word / 256 mod 256), (word mod 256).
  split; [exact Hrun |]. split; [reflexivity |].
  split; [| split; [| split; [| split; [| split; [| split]]]]].
  - rewrite Buffer_get_set_neq by lia.
    apply Buffer_get_set_eq; [lia | exact Bhi].
  - apply Buffer_get_set_eq; [| exact Blo].
    rewrite length_Buffer_set. lia.
  - exact Bhi.
  - exact Blo.
  - change 65536 with (256 * 256). rewrite Z.rem_mul_r by lia. lia.
  - intros j Hj1 Hj2. rewrite !Buffer_get_set_neq by lia. reflexivity.
  - destruct (d_hasNewData b); reflexivity.
Qed.

Lemma writeWord_stores_big_endian_witness :
  d_outBuf Examples.polled = Some Examples.zeros /\
  exists b' out',
    writeWord 19 65136 Examples.polled = Ok b' /\
    d_outBuf b' = Some out' /\
    Buffer_get out' 19 = JNum 254 /\
    Buffer_get out' 20 = JNum 112.
Proof.
  assert (Hout : d_outBuf Examples.polled = Some Examples.zeros)
    by reflexivity.
  assert (Hreg : 0 <= 19) by lia.
  assert (Hlen : 19 + 1 < Z.of_nat (List.length Examples.zeros))
    by (cbn; lia).
  destruct (writeWord_stores_big_endian Examples.polled Examples.zeros
              19 65136 Hout Hreg Hlen)
    as (b' & out' & hi & lo & Hrun & Hout' & Hhi & Hlo & Bhi & Blo & Hword & _).
  split; [exact Hout |]. exists b', out'.
  split; [exact Hrun |]. split; [exact Hout' |].
  change (65136 mod 65536) with (254 * 256 + 112) in Hword.
  unfold is_byte in Bhi, Blo.
  assert (hi = 254 /\ lo = 112) as [-> ->] by lia.
  split; assumption.
Defined.

Lemma length_writeBuffer_fold (register : Z) (buffer : list Z) (l : list nat) :
  forall out : Buffer,
    List.length
      (fold_left
         (fun out i =>
            Buffer_set out (register + Z.of_nat i)
                       (Buffer_get buffer (Z.of_nat i)))
         l out)
    = List.length out.
Proof.
  induction l as [| i l IH]; intros out; cbn [fold_left]; [reflexivity |].
  rewrite IH. apply length_Buffer_set.
Qed.

Lemma writeBuffer_fold (register : Z) (buffer : list Z) :
  Forall is_byte buffer ->
  0 <= register ->
  forall (n : nat) (out : Buffer),
    (n <= List.length buffer)%nat ->
    register + Z.of_nat n <= Z.of_nat (List.length out) ->
    (forall i, 0 <= i < Z.of_nat n ->
       Buffer_get
         (fold_left
            (fun out i =>
               Buffer_set out (register + Z.of_nat i)
                          (Buffer_get buffer (Z.of_nat i)))
            (seq 0 n) out)
         (register + i)
       = Buffer_get buffer i) /\
    (forall j, j < register \/ register + Z.of_nat n <= j ->
       Buffer_get
         (fold_left
            (fun out i =>
               Buffer_set out (register + Z.of_nat i)
                          (Buffer_get buffer (Z.of_nat i)))
            (seq 0 n) out)
         j
       = Buffer_get out j).
Proof.
  intros Hbytes Hreg.
  induction n as [| n IH]; intros out Hn Hlen.
  - split; [intros i Hi; lia | intros j _; reflexivity].
  - rewrite seq_S, fold_left_app. cbn [fold_left Nat.add].
    destruct (IH out) as [IHin IHout]; [lia | lia |].
    remember (fold_left
                (fun out i =>
                   Buffer_set out (register + Z.of_nat i)
                              (Buffer_get buffer (Z.of_nat i)))
                (seq 0 n) out) as mid eqn:Emid.
    assert (Hmid : List.length mid = List.length out)
      by (subst mid; apply length_writeBuffer_fold).
    split.
    + intros i Hi. destruct (Z.eq_dec i (Z.of_nat n)) as [-> | Hneq].
      * rewrite (Buffer_get_nth buffer (Z.of_nat n)) by lia.
        apply Buffer_get_set_eq; [lia |].
        apply Forall_is_byte_nth. exact Hbytes.
      * rewrite Buffer_get_set_neq by lia. apply IHin. lia.
    + intros j Hj. rewrite Buffer_get_set_neq by lia. apply IHout. lia.
Qed.

(** X4.  [writeBuffer] on a driver with a pending buffer copies the bytes
    given into it from the register on, one register per byte, and
    leaves the bytes before and after them as they were; nothing goes to
    the bus. *)
Theorem writeBuffer_copies_bytes :
  forall (b : Board) (out : Buffer) (register : Z) (buffer : list Z),
    d_outBuf b = Some out ->
    Forall is_byte buffer ->
    0 <= register ->
    register + Z.of_nat (List.length buffer) <= Z.of_nat (List.length out) ->
    exists b' out',
      writeBuffer register buffer b = Ok b' /\
      d_outBuf b' = Some out' /\
      (forall i, 0 <= i < Z.of_nat (List.length buffer) ->
                 Buffer_get out' (register + i) = Buffer_get buffer i) /\
      (forall j, j < register \/
                 register + Z.of_nat (List.length buffer) <= j ->
                 Buffer_get out' j = Buffer_get out j) /\
      d_i2c b' = d_i2c b.
Proof.
  intros b out register buffer Hout Hbytes Hreg Hlen.
  pose proof (perform_pending (act_writeBuffer register buffer) b out
                eq_refl Hout) as Hrun.
  cbn [perform overlay] in Hrun.
  destruct (writeBuffer_fold register buffer Hbytes Hreg
              (List.length buffer) out (Nat.le_refl _) Hlen) as [Hin Hrest].
  eexists. eexists. split; [exact Hrun |]. split; [reflexivity |].
  split; [exact Hin |]. split; [exact Hrest |].
  destruct (d_hasNewData b); reflexivity.
Qed.

Lemma writeBuffer_copies_bytes_witness :
  d_outBuf Examples.polled = Some Examples.zeros /\
  exists b' out',
    writeBuffer 19 [1; 144; 254; 112] Examples.polled = Ok b' /\
    d_outBuf b' = Some out' /\
    Buffer_get out' 21 = JNum 254 /\
    Buffer_get out' 18 = JNum 0.
Proof.
  assert (Hout : d_outBuf Examples.polled = Some Examples.zeros)
    by reflexivity.
  assert (Hbytes : Forall is_byte [1; 144; 254; 112])
    by (unfold is_byte; repeat constructor; lia).
  assert (Hreg : 0 <= 19) by lia.
  assert (Hlen : 19 + Z.of_nat (List.length [1; 144; 254; 112])
                 <= Z.of_nat (List.length Examples.zeros)) by (cbn; lia).
  destruct (writeBuffer_copies_bytes Examples.polled Examples.zeros 19
              [1; 144; 254; 112] Hout Hbytes Hreg Hlen)
    as (b' & out' & Hrun & Hout' & Hin & Hrest & _).
  split; [exact Hout |]. exists b', out'.
  split; [exact Hrun |]. split; [exact Hout' |]. split.
  - apply (Hin 2). cbn. lia.
  - apply (Hrest 18). left. lia.
Defined.

(** *** A driver over its lifetime *)

Lemma flushes_app (ops : list bus_op) (op : bus_op) :
  flushes (ops ++ [op])
  = (flushes ops + match op with writeSync _ _ _ => 1 | _ => 0 end)%nat.
Proof.
  unfold flushes. rewrite filter_app, length_app.
  destruct op; reflexivity.
Qed.

Lemma same_outputs_refl (b : Board) : same_outputs b b.
Proof. unfold same_outputs. auto. Qed.

Lemma same_outputs_trans (b1 b2 b3 : Board) :
  same_outputs b1 b2 -> same_outputs b2 b3 -> same_outputs b1 b3.
Proof.
  unfold same_outputs. intros (A1 & A2 & A3 & A4) (B1 & B2 & B3 & B4).
  repeat split; congruence.
Qed.

(** The decoder writes the input side of the cache only. *)
Lemma decode_outputs (buf : Buffer) (s : BoardState) :
  leds (decode buf s) = leds s /\
  motors (decode buf s) = motors s /\
  digitalOut (decode buf s) = digitalOut s.
Proof.
  unfold decode. cbn [seq fold_left]. repeat split; reflexivity.
Qed.

(** The timers that are due fire one after the other: each sends a block
    when the flag is set, and none changes the image. *)
Lemma flush_timers (last : Buffer) :
  forall (l : list Z) (b : Board),
    d_lastBuf b = Some last ->
    exists b',
      fold_left (fun r (_ : Z) => b <- r ;; flushWrite b) l (Ok b) = Ok b' /\
      d_lastBuf b' = Some last /\
      timeouts b' = timeouts b /\
      d_hasNewData b' = d_hasNewData b /\
      flushes (d_i2c b')
      = (flushes (d_i2c b)
         + if d_hasNewData b then List.length l else 0)%nat /\
      d_boardState b' = d_boardState b /\
      d_addr b' = d_addr b.
Proof.
  induction l as [| d l IH]; intros b Hlast; cbn [fold_left bind].
  - exists b. split; [reflexivity |].
    destruct (d_hasNewData b); repeat split; auto.
  - unfold flushWrite at 2. destruct (d_hasNewData b) eqn:Hnew; cbn [negb].
    + cbn [d_lastBuf i2c]. rewrite Hlast. cbn [Buffer_from bind].
      destruct (IH (with_outBuf (Some last)
                      (i2c (writeSync (d_addr b) 0 (d_outBuf b)) b)))
        as (b' & Hrun & H1 & H2 & H3 & H4 & H5 & H6); [exact Hlast |].
      exists b'. split; [exact Hrun |].
      cbn [with_outBuf i2c d_lastBuf timeouts d_hasNewData d_i2c
           d_boardState d_addr] in *.
      rewrite Hnew in H4. rewrite flushes_app in H4.
      repeat split; try assumption; try congruence.
      cbn [List.length]. lia.
    + destruct (IH b Hlast) as (b' & Hrun & H1 & H2 & H3 & H4 & H5 & H6).
      exists b'. split; [exact Hrun |]. rewrite Hnew in *.
      repeat split; assumption.
Qed.

Lemma filter_split_length {A : Type} (f : A -> bool) (l : list A) :
  (List.length (filter f l) + List.length (filter (fun x => negb (f x)) l)
   = List.length l)%nat.
Proof.
  induction l as [| x l IH]; cbn [filter]; [reflexivity |].
  destruct (f x); cbn [negb List.length]; lia.
Qed.

Lemma advance_with_image (t : Z) (b : Board) (last : Buffer) :
  d_lastBuf b = Some last ->
  exists b',
    advance t b = Ok b' /\
    d_lastBuf b' = Some last /\
    (balanced b -> balanced b') /\
    same_outputs b b'.
Proof.
  intros Hlast. unfold advance.
  cbn [timeouts clock with_clock].
  remember (Z.max (clock b) t) as now eqn:Enow.
  destruct (flush_timers last
              (filter (fun d => d <=? now) (timeouts b))
              (with_timeouts
                 (filter (fun d => negb (d <=? now)) (timeouts b))
                 (with_clock now b)))
    as (b' & Hrun & H1 & H2 & H3 & H4 & H5 & H6); [exact Hlast |].
  exists b'. split; [exact Hrun |]. split; [exact H1 |].
  cbn [with_timeouts with_clock timeouts d_hasNewData d_i2c d_boardState
       d_addr] in *.
  split.
  - unfold balanced. intros Hbal. rewrite H2, H3, H4.
    pose proof (filter_split_length (fun d => d <=? now) (timeouts b)) as Hlen.
    destruct (d_hasNewData b); [lia |].
    destruct (timeouts b) as [| d ts]; [cbn in *; lia |].
    cbn [List.length] in Hbal. lia.
  - unfold same_outputs. rewrite H5, H6. auto.
Qed.

Lemma setupWrite_with_image (b : Board) (last : Buffer) :
  d_lastBuf b = Some last ->
  setupWrite b
  = Ok (with_hasNewData true
          (if negb (d_hasNewData b)
           then setTimeout_flushWrite 25 (with_outBuf (Some (pending b last)) b)
           else with_outBuf (Some (pending b last)) b)).
Proof.
  intros Hlast. unfold setupWrite, pending.
  destruct (d_outBuf b) as [o |] eqn:Ho.
  - cbn [bind].
    replace (with_outBuf (Some o) b) with b
      by (destruct b; cbn in *; subst; reflexivity).
    reflexivity.
  - rewrite Hlast. cbn [Buffer_from bind d_hasNewData with_outBuf].
    reflexivity.
Qed.

Lemma perform_with_image (a : action) (b : Board) (last : Buffer) :
  is_write a = true ->
  d_lastBuf b = Some last ->
  exists b',
    perform a b = Ok b' /\
    d_lastBuf b' = Some last /\
    d_outBuf b' = Some (overlay a (pending b last)) /\
    d_hasNewData b' = true /\
    d_i2c b' = d_i2c b /\
    timeouts b'
    = (if d_hasNewData b then timeouts b
       else timeouts b ++ [clock b + 25])%list /\
    d_boardState b' = d_boardState b /\
    d_addr b' = d_addr b.
Proof.
  intros Hw Hlast.
  pose proof (setupWrite_with_image b last Hlast) as Hsetup.
  remember (with_hasNewData true
              (if negb (d_hasNewData b)
               then setTimeout_flushWrite 25
                      (with_outBuf (Some (pending b last)) b)
               else with_outBuf (Some (pending b last)) b)) as b1 eqn:Eb1.
  assert (Hfacts :
            d_outBuf b1 = Some (pending b last) /\
            d_lastBuf b1 = Some last /\ d_hasNewData b1 = true /\
            d_i2c b1 = d_i2c b /\
            timeouts b1
            = (if d_hasNewData b then timeouts b
               else timeouts b ++ [clock b + 25])%list /\
            d_boardState b1 = d_boardState b /\ d_addr b1 = d_addr b).
  { subst b1. destruct (d_hasNewData b); cbn; repeat split; auto. }
  destruct Hfacts as (F1 & F2 & F3 & F4 & F5 & F6 & F7).
  assert (Hperform :
            perform a b
            = Ok (with_outBuf (Some (overlay a (pending b last))) b1)).
  { destruct a as [register byte | register word | register buffer | answer];
      try discriminate; cbn [perform overlay].
    - unfold writeByte. rewrite Hsetup. cbn [bind]. unfold outBuf_set.
      rewrite F1. reflexivity.
    - unfold writeWord. rewrite Hsetup. cbn [bind]. unfold outBuf_set at 1.
      rewrite F1. cbn [bind]. reflexivity.
    - unfold writeBuffer. rewrite Hsetup. cbn [bind].
      apply writeBuffer_loop. exact F1. }
  eexists. split; [exact Hperform |].
  cbn [with_outBuf d_lastBuf d_outBuf d_hasNewData d_i2c timeouts
       d_boardState d_addr].
  repeat split; assumption.
Qed.

Lemma serve_with_image (C : Constants.t) (q : request) (b : Board)
  (last : Buffer) :
  d_lastBuf b = Some last ->
  exists b' last',
    serve C q b = Ok b' /\
    d_lastBuf b' = Some last' /\
    (balanced b -> balanced b') /\
    same_outputs b b'.
Proof.
  intros Hlast.
  destruct q as [a | channel mode | channel value | channel value];
    cbn [serve].
  - destruct (is_write a) eqn:Hw.
    + destruct (perform_with_image a b last Hw Hlast)
        as (b' & Hrun & H1 & _ & H3 & H4 & H5 & H6 & H7).
      exists b', last. split; [exact Hrun |]. split; [exact H1 |]. split.
      * unfold balanced. intros Hbal. rewrite H3, H4, H5.
        destruct (d_hasNewData b); [exact Hbal |].
        rewrite length_app. cbn [List.length]. lia.
      * unfold same_outputs. rewrite H6, H7. auto.
    + destruct a as [| | | answer]; try discriminate. cbn [perform].
      eexists. exists answer. split; [reflexivity |].
      split; [reflexivity |]. split.
      * unfold balanced, getBoardStatus.
        cbn [with_boardState with_outBuf with_lastBuf i2c d_i2c timeouts
             d_hasNewData].
        rewrite flushes_app. intros Hbal. rewrite <- Hbal. lia.
      * unfold same_outputs, getBoardStatus.
        cbn [with_boardState with_outBuf with_lastBuf i2c d_addr
             d_boardState].
        destruct (decode_outputs answer (d_boardState b)) as (D1 & D2 & D3).
        auto.
  - unfold configurePin, lastBuf_get. rewrite Hlast. cbn [bind].
    eexists. exists last. split; [reflexivity |].
    split; [exact Hlast |]. split.
    + unfold balanced. cbn [i2c d_i2c timeouts d_hasNewData].
      rewrite flushes_app. intros Hbal. rewrite <- Hbal. lia.
    + unfold same_outputs. repeat split; reflexivity.
  - unfold writeDigital, lastBuf_get. rewrite Hlast.
    cbn [bind option_map].
    eexists. eexists. split; [reflexivity |].
    split; [reflexivity |]. split.
    + unfold balanced. cbn [i2c with_lastBuf d_i2c timeouts d_hasNewData].
      rewrite flushes_app. intros Hbal. rewrite <- Hbal. lia.
    + unfold same_outputs. repeat split; reflexivity.
  - eexists. exists last. split; [reflexivity |].
    split; [exact Hlast |]. split.
    + unfold balanced, writePWM. cbn [i2c d_i2c timeouts d_hasNewData].
      rewrite flushes_app. intros Hbal. rewrite <- Hbal. lia.
    + unfold same_outputs. repeat split; reflexivity.
Qed.

Lemma session_with_image (C : Constants.t) :
  forall (schedule : list (Z * request)) (b : Board) (last : Buffer),
    d_lastBuf b = Some last ->
    exists b' last',
      session C schedule b = Ok b' /\
      d_lastBuf b' = Some last' /\
      (balanced b -> balanced b') /\
      same_outputs b b'.
Proof.
  induction schedule as [| [t q] rest IH]; intros b last Hlast.
  - exists b, last. split; [reflexivity |]. split; [exact Hlast |].
    split; [auto | apply same_outputs_refl].
  - cbn [session].
    destruct (advance_with_image t b last Hlast)
      as (b1 & Hadv & Hlast1 & Hbal1 & Hout1).
    rewrite Hadv. cbn [bind].
    destruct (serve_with_image C q b1 last Hlast1)
      as (b2 & last2 & Hserve & Hlast2 & Hbal2 & Hout2).
    rewrite Hserve. cbn [bind].
    destruct (IH b2 last2 Hlast2) as (b3 & last3 & Hrun & Hlast3 & Hbal3 & Hout3).
    exists b3, last3. split; [exact Hrun |]. split; [exact Hlast3 |].
    split; [auto |].
    apply same_outputs_trans with b2; [| exact Hout3].
    apply same_outputs_trans with b1; assumption.
Qed.

(** X5.  Once a poll has stored a register image, the buffered writes
    always return: [writeByte], [writeWord] and [writeBuffer] find the
    pending buffer or copy it from the image, lay their bytes over it,
    set the flag, and set the flush timer when the flag was not set.
    They make no bus call themselves, so no fault of the bus can surface
    in them; the image stays as it was. *)
Theorem buffered_writes_with_image_return :
  forall (a : action) (b : Board) (last : Buffer),
    is_write a = true ->
    d_lastBuf b = Some last ->
    exists b',
      perform a b = Ok b' /\
      d_i2c b' = d_i2c b /\
      d_lastBuf b' = Some last /\
      d_outBuf b' = Some (overlay a (pending b last)) /\
      d_hasNewData b' = true /\
      timeouts b'
      = (if d_hasNewData b then timeouts b
         else timeouts b ++ [clock b + 25])%list.
Proof.
  intros a b last Hw Hlast.
  destruct (perform_with_image a b last Hw Hlast)
    as (b' & Hrun & H1 & H2 & H3 & H4 & H5 & _).
  exists b'. split; [exact Hrun |].
  split; [exact H4 |]. split; [exact H1 |]. split; [exact H2 |].
  split; [exact H3 | exact H5].
Qed.

Lemma buffered_writes_with_image_return_witness :
  d_lastBuf Examples.polled = Some Examples.zeros /\
  exists b',
    writeWord 19 400 Examples.polled = Ok b' /\
    d_i2c b' = [readSync 20 0 23] /\
    timeouts b' = [25].
Proof.
  assert (Hlast : d_lastBuf Examples.polled = Some Examples.zeros)
    by reflexivity.
  split; [exact Hlast |].
  destruct (buffered_writes_with_image_return (act_writeWord 19 400)
              Examples.polled Examples.zeros eq_refl Hlast)
    as (b' & Hrun & Hbus & _ & _ & _ & Hts).
  exists b'. split; [exact Hrun |]. split; [exact Hbus | exact Hts].
Defined.

(** X6.  The block writes to the bus and the pending flush timers are
    counted by the flag [d_hasNewData]: on a driver with a register image
    their sum is 1 when the flag is set and 0 when it is not, and every
    sequence of calls and timer firings keeps it so.  Since no method
    clears the flag, at most one timer is ever set and at most one block
    write ever reaches the bus; the buffered writes made after it stay in
    the pending buffer. *)
Theorem one_flush_per_driver :
  forall (C : Constants.t) (schedule : list (Z * request)) (b : Board)
         (last : Buffer),
    d_lastBuf b = Some last ->
    balanced b ->
    exists b',
      session C schedule b = Ok b' /\
      (flushes (d_i2c b') + List.length (timeouts b')
       = if d_hasNewData b' then 1 else 0)%nat /\
      (flushes (d_i2c b') <= 1)%nat.
Proof.
  intros C schedule b last Hlast Hbal.
  destruct (session_with_image C schedule b last Hlast)
    as (b' & last' & Hrun & _ & Hbal' & _).
  exists b'. split; [exact Hrun |].
  specialize (Hbal' Hbal). unfold balanced in Hbal'.
  split; [exact Hbal' |].
  destruct (d_hasNewData b'); lia.
Qed.

Lemma one_flush_per_driver_witness :
  d_lastBuf Examples.polled = Some Examples.zeros /\
  balanced Examples.polled /\
  exists b',
    session Examples.modes
      [(0, req_action (act_writeByte 18 1));
       (30, req_action (act_writeByte 18 2));
       (60, req_action (act_writeByte 18 3));
       (90, req_action (act_writeByte 18 4))]
      Examples.polled
    = Ok b' /\
    (flushes (d_i2c b') <= 1)%nat.
Proof.
  assert (Hlast : d_lastBuf Examples.polled = Some Examples.zeros)
    by reflexivity.
  assert (Hbal : balanced Examples.polled) by reflexivity.
  split; [exact Hlast |]. split; [exact Hbal |].
  destruct (one_flush_per_driver Examples.modes
              [(0, req_action (act_writeByte 18 1));
               (30, req_action (act_writeByte 18 2));
               (60, req_action (act_writeByte 18 3));
               (90, req_action (act_writeByte 18 4))]
              Examples.polled Examples.zeros Hlast Hbal)
    as (b' & Hrun & _ & Hle).
  exists b'. split; assumption.
Defined.

(** X7.  The driver never assigns the output side of its state cache:
    the [leds], [motors] and [digitalOut] fields, and the bus address,
    are after every sequence of calls, polls and timer firings what the
    constructor made them.  [writeDigital] and [writePWM] go to the bus
    and leave [digitalOut] and [motors] as they were. *)
Theorem output_cache_is_never_written :
  forall (C : Constants.t) (schedule : list (Z * request)) (b : Board)
         (last : Buffer),
    d_lastBuf b = Some last ->
    exists b',
      session C schedule b = Ok b' /\
      d_addr b' = d_addr b /\
      leds (d_boardState b') = leds (d_boardState b) /\
      motors (d_boardState b') = motors (d_boardState b) /\
      digitalOut (d_boardState b') = digitalOut (d_boardState b).
Proof.
  intros C schedule b last Hlast.
  destruct (session_with_image C schedule b last Hlast)
    as (b' & last' & Hrun & _ & _ & Hout).
  exists b'. split; [exact Hrun | exact Hout].
Qed.

Lemma output_cache_is_never_written_witness :
  d_lastBuf Examples.polled = Some Examples.zeros /\
  exists b',
    session Examples.modes
      [(0, req_writeDigital 2 (JBool true));
       (10, req_writePWM 0 (of_Z 1));
       (100, req_action (act_getBoardStatus Examples.image))]
      Examples.polled
    = Ok b' /\
    motors (d_boardState b') = (JNum 0, JNum 0) /\
    digitalOut (d_boardState b') = repeat (JBool false) 6.
Proof.
  assert (Hlast : d_lastBuf Examples.polled = Some Examples.zeros)
    by reflexivity.
  split; [exact Hlast |].
  destruct (output_cache_is_never_written Examples.modes
              [(0, req_writeDigital 2 (JBool true));
               (10, req_writePWM 0 (of_Z 1));
               (100, req_action (act_getBoardStatus Examples.image))]
              Examples.polled Examples.zeros Hlast)
    as (b' & Hrun & _ & _ & Hmotors & Hdigital).
  exists b'. split; [exact Hrun |]. split.
  - rewrite Hmotors. reflexivity.
  - rewrite Hdigital. reflexivity.
Defined.

Lemma advance_keeps_cache (t : Z) (b : Board) (last : Buffer) :
  d_lastBuf b = Some last ->
  exists b',
    advance t b = Ok b' /\
    d_lastBuf b' = Some last /\
    d_boardState b' = d_boardState b.
Proof.
  intros Hlast. unfold advance.
  cbn [timeouts clock with_clock].
  remember (Z.max (clock b) t) as now eqn:Enow.
  destruct (flush_timers last
              (filter (fun d => d <=? now) (timeouts b))
              (with_timeouts
                 (filter (fun d => negb (d <=? now)) (timeouts b))
                 (with_clock now b)))
    as (b' & Hrun & H1 & _ & _ & _ & H5 & _); [exact Hlast |].
  exists b'. split; [exact Hrun |]. split; [exact H1 | exact H5].
Qed.

Lemma serve_keeps_cache (C : Constants.t) (q : request) (b : Board)
  (last : Buffer) :
  is_poll q = false ->
  d_lastBuf b = Some last ->
  exists b' last',
    serve C q b = Ok b' /\
    d_lastBuf b' = Some last' /\
    d_boardState b' = d_boardState b.
Proof.
  intros Hq Hlast.
  destruct q as [a | channel mode | channel value | channel value];
    cbn [serve].
  - assert (Hw : is_write a = true) by (destruct a; [auto .. | discriminate]).
    destruct (perform_with_image a b last Hw Hlast)
      as (b' & Hrun & H1 & _ & _ & _ & _ & H6 & _).
    exists b', last. auto.
  - unfold configurePin, lastBuf_get. rewrite Hlast. cbn [bind].
    eexists. exists last. split; [reflexivity |]. split; [exact Hlast |].
    reflexivity.
  - unfold writeDigital, lastBuf_get. rewrite Hlast. cbn [bind option_map].
    eexists. eexists. split; [reflexivity |]. split; reflexivity.
  - eexists. exists last. split; [reflexivity |]. split; [exact Hlast |].
    reflexivity.
Qed.

(** X8.  Only a poll changes the state cache.  Whatever is written
    between two polls (buffered writes, pin modes, digital outputs, PWM
    values) and whichever timers fire, the cache stays as the last poll
    left it, so [readDigital], [readAnalog] and [readBattMV] keep
    returning the values of that poll. *)
Theorem reads_change_only_at_polls :
  forall (C : Constants.t) (schedule : list (Z * request)) (b : Board)
         (last : Buffer),
    d_lastBuf b = Some last ->
    Forall (fun tq => is_poll (snd tq) = false) schedule ->
    exists b',
      session C schedule b = Ok b' /\
      d_boardState b' = d_boardState b /\
      (forall channel, readDigital channel b' = readDigital channel b) /\
      (forall channel, readAnalog channel b' = readAnalog channel b) /\
      readBattMV b' = readBattMV b.
Proof.
  intros C schedule b last Hlast Hall.
  assert (H : exists b',
            session C schedule b = Ok b' /\ d_boardState b' = d_boardState b).
  { revert b last Hlast.
    induction Hall as [| [t q] rest Hq _ IH]; intros b last Hlast.
    - exists b. split; reflexivity.
    - cbn [snd] in Hq. cbn [session].
      destruct (advance_keeps_cache t b last Hlast) as (b1 & Hadv & Hl1 & Hs1).
      rewrite Hadv. cbn [bind].
      destruct (serve_keeps_cache C q b1 last Hq Hl1)
        as (b2 & last2 & Hserve & Hl2 & Hs2).
      rewrite Hserve. cbn [bind].
      destruct (IH b2 last2 Hl2) as (b3 & Hrun & Hs3).
      exists b3. split; [exact Hrun | congruence]. }
  destruct H as (b' & Hrun & Hstate).
  exists b'. split; [exact Hrun |]. split; [exact Hstate |].
  unfold readDigital, readAnalog, readBattMV. rewrite Hstate.
  repeat split; reflexivity.
Qed.

Lemma reads_change_only_at_polls_witness :
  d_lastBuf (getBoardStatus Examples.image (new 20 0)) = Some Examples.image /\
  exists b',
    session Examples.modes
      [(0, req_action (act_writeByte 5 9));
       (10, req_writeDigital 0 (JBool true));
       (30, req_writePWM 0 (of_Z 1))]
      (getBoardStatus Examples.image (new 20 0))
    = Ok b' /\
    readAnalog 0 b' = JNum 300.
Proof.
  assert (Hlast : d_lastBuf (getBoardStatus Examples.image (new 20 0))
                  = Some Examples.image) by reflexivity.
  split; [exact Hlast |].
  destruct (reads_change_only_at_polls Examples.modes
              [(0, req_action (act_writeByte 5 9));
               (10, req_writeDigital 0 (JBool true));
               (30, req_writePWM 0 (of_Z 1))]
              (getBoardStatus Examples.image (new 20 0)) Examples.image Hlast)
    as (b' & Hrun & _ & _ & Hanalog & _).
  { repeat constructor. }
  exists b'. split; [exact Hrun |]. rewrite Hanalog. reflexivity.
Defined.

(** *** Direct writes next to buffered ones *)

(** X9.  [writeDigital] goes to the bus at once and does not touch the
    pending buffer.  So when a flush is pending, the block write that
    follows it still carries the buffer as it was before the digital
    write, its byte 18 included: on the bus the fresh digital byte comes
    first and the block comes after it. *)
Theorem pending_flush_follows_direct_digital_write :
  forall (b : Board) (out last : Buffer) (due tend channel : Z)
         (value : jsval),
    d_outBuf b = Some out ->
    d_hasNewData b = true ->
    timeouts b = [due] ->
    d_lastBuf b = Some last ->
    Forall is_byte last ->
    (18 < List.length last)%nat ->
    0 <= channel <= 7 ->
    due <= tend ->
    exists new b1 b2,
      writeDigital channel value b = Ok b1 /\
      advance tend b1 = Ok b2 /\
      d_i2c b2
      = (d_i2c b ++ [writeByteSync (d_addr b) 18 (JNum new);
                     writeSync (d_addr b) 0 (Some out)])%list /\
      Z.testbit new channel = ToBoolean value /\
      d_outBuf b2 = Some (Buffer_set last 18 (JNum new)).
Proof.
  intros b out last due tend channel value Hout Hnew Hts Hlast Hbytes Hlen
         Hch Hdue.
  destruct (board_writeDigital_byte channel value b last Hlast Hbytes Hlen Hch)
    as (new & Hrun & Hbyte & Hbits).
  remember (i2c (writeByteSync (d_addr b) 18 (JNum new))
                (with_lastBuf (Some (Buffer_set last 18 (JNum new))) b))
    as b1 eqn:Eb1.
  assert (Hfacts : d_outBuf b1 = Some out /\ d_hasNewData b1 = true /\
                   timeouts b1 = [due] /\
                   d_lastBuf b1 = Some (Buffer_set last 18 (JNum new)) /\
                   d_i2c b1
                   = (d_i2c b ++ [writeByteSync (d_addr b) 18 (JNum new)])%list /\
                   d_addr b1 = d_addr b).
  { subst b1.
    cbn [i2c with_lastBuf d_outBuf d_hasNewData timeouts d_lastBuf d_i2c
         d_addr].
    repeat split; assumption || reflexivity. }
  destruct Hfacts as (F1 & F2 & F3 & F4 & F5 & F6).
  destruct (flush_when_due due tend b1 out _ F1 F2 F3 F4 Hdue)
    as (b2 & Hadv & Hbus & Hout2 & _).
  exists new, b1, b2. split; [exact Hrun |]. split; [exact Hadv |].
  split; [| split; [| exact Hout2]].
  - rewrite Hbus, F5, F6, <- app_assoc. reflexivity.
  - unfold one_bit_changed in Hbits. rewrite forallb_forall in Hbits.
    assert (Hin : In channel [0; 1; 2; 3; 4; 5; 6; 7]) by (cbn [In]; lia).
    specialize (Hbits channel Hin). apply Bool.eqb_prop in Hbits.
    rewrite Z.eqb_refl in Hbits. exact Hbits.
Qed.

Lemma pending_flush_follows_direct_digital_write_witness :
  match writeByte 19 1 Examples.polled with
  | Ok b =>
      d_outBuf b = Some (Buffer_set Examples.zeros 19 (JNum 1)) /\
      exists new b1 b2,
        writeDigital 3 (JBool true) b = Ok b1 /\
        advance 25 b1 = Ok b2 /\
        d_i2c b2
        = [readSync 20 0 23; writeByteSync 20 18 (JNum new);
           writeSync 20 0 (Some (Buffer_set Examples.zeros 19 (JNum 1)))]
  | Throw _ => False
  end.
Proof.
  destruct (writeByte 19 1 Examples.polled) as [b | e] eqn:E;
    vm_compute in E; [| discriminate E].
  injection E as Eb.
  assert (Hout : d_outBuf b = Some (Buffer_set Examples.zeros 19 (JNum 1)))
    by (subst b; reflexivity).
  assert (Hnew : d_hasNewData b = true) by (subst b; reflexivity).
  assert (Hts : timeouts b = [25]) by (subst b; reflexivity).
  assert (Hlast : d_lastBuf b = Some Examples.zeros) by (subst b; reflexivity).
  assert (Hbytes : Forall is_byte Examples.zeros).
  { unfold Examples.zeros, is_byte. cbn [repeat]. repeat constructor; lia. }
  assert (Hlen : (18 < List.length Examples.zeros)%nat) by (cbn; lia).
  assert (Hch : 0 <= 3 <= 7) by lia.
  assert (Hdue : 25 <= 25) by lia.
  split; [exact Hout |].
  destruct (pending_flush_follows_direct_digital_write b _ Examples.zeros
              25 25 3 (JBool true) Hout Hnew Hts Hlast Hbytes Hlen Hch Hdue)
    as (new & b1 & b2 & Hrun & Hadv & Hbus & _).
  exists new, b1, b2. split; [exact Hrun |]. split; [exact Hadv |].
  rewrite Hbus. subst b. reflexivity.
Defined.

(** *** Pin modes *)

(** X10.  The [switch] of [configurePin] has no default case: a mode that
    is none of the three pin modes leaves the setting at 0b0100, which
    is the setting of an output.  The driver then makes the bus call it
    makes for OUTPUT and raises nothing. *)
Theorem configurePin_unknown_mode_is_output :
  forall (C : Constants.t) (b : Board) (channel : Z) (mode : string),
    Constants.distinct_modes C ->
    mode <> Constants.PinModes_INPUT C ->
    mode <> Constants.PinModes_INPUT_PULLUP C ->
    mode <> Constants.PinModes_OUTPUT C ->
    configurePin C channel mode b
    = configurePin C channel (Constants.PinModes_OUTPUT C) b.
Proof.
  intros C b channel mode Hdist H1 H2 H3.
  assert (Hunknown : mode_setting C mode = JNum 4).
  { unfold mode_setting.
    destruct (String.eqb_spec mode (Constants.PinModes_INPUT C));
      [contradiction |].
    destruct (String.eqb_spec mode (Constants.PinModes_INPUT_PULLUP C));
      [contradiction |].
    destruct (String.eqb_spec mode (Constants.PinModes_OUTPUT C));
      [contradiction |].
    reflexivity. }
  assert (Houtput : mode_setting C (Constants.PinModes_OUTPUT C) = JNum 4).
  { rewrite (mode_setting_bits C Hdist (Constants.PinModes_OUTPUT C) 0)
      by (right; right; split; reflexivity).
    vm_compute. reflexivity. }
  unfold configurePin. rewrite Hunknown, Houtput. reflexivity.
Qed.

Lemma configurePin_unknown_mode_is_output_witness :
  configurePin Examples.modes 1 "ANALOG" Examples.polled
  = configurePin Examples.modes 1 "OUTPUT" Examples.polled.
Proof.
  apply configurePin_unknown_mode_is_output.
  - unfold Constants.distinct_modes. cbn. repeat split; discriminate.
  - cbn. discriminate.
  - cbn. discriminate.
  - cbn. discriminate.
Defined.

(** The byte [configurePin] sends, with its two nibbles. *)
Lemma configurePin_byte (C : Constants.t) (b : Board) (last : Buffer)
  (channel : Z) (mode : string) (bits : Z) :
  Constants.distinct_modes C ->
  d_lastBuf b = Some last ->
  Forall is_byte last ->
  (mode = Constants.PinModes_INPUT C /\ bits = 1) \/
  (mode = Constants.PinModes_INPUT_PULLUP C /\ bits = 2) \/
  (mode = Constants.PinModes_OUTPUT C /\ bits = 0) ->
  exists out,
    configurePin C channel mode b
    = Ok (i2c (writeByteSync (d_addr b) (channel / 2) (JNum out)) b) /\
    (Z.even channel = true ->
       out / 16 = Z.lor 4 bits /\
       out mod 16 = ToInt32 (Buffer_get last (channel / 2)) mod 16) /\
    (Z.even channel = false ->
       out mod 16 = Z.lor 4 bits /\
       out / 16 = ToInt32 (Buffer_get last (channel / 2)) / 16).
Proof.
  intros Hdist Hlast Hbytes Hmode.
  pose proof (ToInt32_Buffer_get last (channel / 2) Hbytes) as Hold.
  assert (Hbits : 0 <= bits <= 2)
    by (destruct Hmode as [[_ ->] | [[_ ->] | [_ ->]]]; lia).
  unfold configurePin, lastBuf_get. rewrite Hlast. cbn [bind].
  rewrite (mode_setting_bits C Hdist mode bits Hmode).
  rewrite (pin_outByte_ToInt32 _ _ _ Hold).
  remember (ToInt32 (Buffer_get last (channel / 2))) as old eqn:Eold.
  destruct (nibbles_check_sound _ _ _ _ (nibbles_of_byte bits old Hbits Hold))
    as [Hhi Hlo].
  rewrite pin_outByte_parity, pin_outByte_is_number.
  destruct (Z.even channel).
  - eexists. split; [reflexivity |].
    split; [intros _; exact Hhi | discriminate].
  - eexists. split; [reflexivity |].
    split; [discriminate | intros _; exact Hlo].
Qed.

(** X11.  [configurePin] does not store the byte it sends: the register
    image stays as the last poll read it.  When the two pins of one
    config byte are configured one after the other before the next poll,
    the second byte is built from the image again: it carries the new
    setting of the second pin next to the nibble the poll had read for
    the first pin, not next to the setting just sent for it. *)
Theorem second_configurePin_sends_polled_nibble :
  forall (C : Constants.t) (b : Board) (last : Buffer) (k : Z)
         (mode1 mode2 : string) (bits1 bits2 : Z),
    Constants.distinct_modes C ->
    d_lastBuf b = Some last ->
    Forall is_byte last ->
    (mode1 = Constants.PinModes_INPUT C /\ bits1 = 1) \/
    (mode1 = Constants.PinModes_INPUT_PULLUP C /\ bits1 = 2) \/
    (mode1 = Constants.PinModes_OUTPUT C /\ bits1 = 0) ->
    (mode2 = Constants.PinModes_INPUT C /\ bits2 = 1) \/
    (mode2 = Constants.PinModes_INPUT_PULLUP C /\ bits2 = 2) \/
    (mode2 = Constants.PinModes_OUTPUT C /\ bits2 = 0) ->
    exists out1 out2 b2,
      (b1 <- configurePin C (2 * k) mode1 b ;;
       configurePin C (2 * k + 1) mode2 b1) = Ok b2 /\
      d_i2c b2
      = (d_i2c b ++ [writeByteSync (d_addr b) k (JNum out1);
                     writeByteSync (d_addr b) k (JNum out2)])%list /\
      d_lastBuf b2 = Some last /\
      out1 / 16 = Z.lor 4 bits1 /\
      out2 mod 16 = Z.lor 4 bits2 /\
      out2 / 16 = ToInt32 (Buffer_get last k) / 16.
Proof.
  intros C b last k mode1 mode2 bits1 bits2 Hdist Hlast Hbytes Hm1 Hm2.
  assert (Hk1 : 2 * k / 2 = k) by (rewrite Z.mul_comm; apply Z.div_mul; lia).
  assert (Hk2 : (2 * k + 1) / 2 = k).
  { rewrite Z.add_comm, Z.mul_comm, Z.div_add by lia. reflexivity. }
  assert (He1 : Z.even (2 * k) = true).
  { rewrite Z.even_mul. reflexivity. }
  assert (He2 : Z.even (2 * k + 1) = false).
  { rewrite Z.even_add, Z.even_mul. reflexivity. }
  destruct (configurePin_byte C b last (2 * k) mode1 bits1
              Hdist Hlast Hbytes Hm1) as (out1 & Hrun1 & Heven1 & _).
  destruct (Heven1 He1) as [Hhi1 _].
  rewrite Hk1 in Hrun1.
  remember (i2c (writeByteSync (d_addr b) k (JNum out1)) b) as b1 eqn:Eb1.
  assert (Hlast1 : d_lastBuf b1 = Some last) by (subst b1; exact Hlast).
  destruct (configurePin_byte C b1 last (2 * k + 1) mode2 bits2
              Hdist Hlast1 Hbytes Hm2) as (out2 & Hrun2 & _ & Hodd2).
  destruct (Hodd2 He2) as [Hlo2 Hhi2].
  rewrite Hk2 in Hrun2, Hhi2.
  exists out1, out2. eexists.
  split; [rewrite Hrun1; cbn [bind]; exact Hrun2 |].
  split; [| split; [| auto]].
  - subst b1. cbn [i2c d_i2c d_addr]. rewrite <- app_assoc. reflexivity.
  - subst b1. cbn [i2c d_lastBuf]. exact Hlast.
Qed.

Lemma second_configurePin_sends_polled_nibble_witness :
  Constants.distinct_modes Examples.modes /\
  d_lastBuf Examples.polled = Some Examples.zeros /\
  exists out1 out2 b2,
    (b1 <- configurePin Examples.modes (2 * 0) "INPUT" Examples.polled ;;
     configurePin Examples.modes (2 * 0 + 1) "INPUT_PULLUP" b1) = Ok b2 /\
    out1 / 16 = 5 /\ out2 mod 16 = 6 /\ out2 / 16 = 0.
Proof.
  assert (Hd : Constants.distinct_modes Examples.modes).
  { unfold Constants.distinct_modes. cbn. repeat split; discriminate. }
  assert (Hl : d_lastBuf Examples.polled = Some Examples.zeros)
    by reflexivity.
  assert (Hb : Forall is_byte Examples.zeros).
  { unfold Examples.zeros, is_byte. cbn [repeat]. repeat constructor; lia. }
  assert (Hm1 : ("INPUT" = Constants.PinModes_INPUT Examples.modes /\ 1 = 1) \/
                ("INPUT" = Constants.PinModes_INPUT_PULLUP Examples.modes /\ 1 = 2) \/
                ("INPUT" = Constants.PinModes_OUTPUT Examples.modes /\ 1 = 0)).
  { left. split; reflexivity. }
  assert (Hm2 : ("INPUT_PULLUP" = Constants.PinModes_INPUT Examples.modes /\ 2 = 1) \/
                ("INPUT_PULLUP" = Constants.PinModes_INPUT_PULLUP Examples.modes /\ 2 = 2) \/
                ("INPUT_PULLUP" = Constants.PinModes_OUTPUT Examples.modes /\ 2 = 0)).
  { right. left. split; reflexivity. }
  destruct (second_configurePin_sends_polled_nibble Examples.modes
              Examples.polled Examples.zeros 0 "INPUT" "INPUT_PULLUP" 1 2
              Hd Hl Hb Hm1 Hm2)
    as (out1 & out2 & b2 & Hrun & _ & _ & H1 & H2 & H3).
  split; [exact Hd |]. split; [exact Hl |].
  exists out1, out2, b2. split; [exact Hrun |]. auto.
Defined.

(** *** One poll after another *)

Lemma Array_set_first5 (arr : list jsval) (v0 v1 v2 v3 v4 : jsval) :
  Array_set (Array_set (Array_set (Array_set (Array_set arr 0 v0) 1 v1) 2 v2)
                       3 v3) 4 v4
  = ([v0; v1; v2; v3; v4] ++ skipn 5 arr)%list.
Proof.
  destruct arr as [| a0 [| a1 [| a2 [| a3 [| a4 rest]]]]]; reflexivity.
Qed.

Lemma Array_set_first6 (arr : list jsval) (v0 v1 v2 v3 v4 v5 : jsval) :
  Array_set
    (Array_set (Array_set (Array_set (Array_set (Array_set arr 0 v0) 1 v1)
                                     2 v2) 3 v3) 4 v4) 5 v5
  = ([v0; v1; v2; v3; v4; v5] ++ skipn 6 arr)%list.
Proof.
  destruct arr as [| a0 [| a1 [| a2 [| a3 [| a4 [| a5 rest]]]]]]; reflexivity.
Qed.

Local Abbreviation analog_word buf i :=
  (add (shift_left (Buffer_get buf (5 + i * 2)) 8)
       (Buffer_get buf (5 + i * 2 + 1))).

Local Abbreviation input_bit buf i :=
  (bit_and (shift_right (Buffer_get buf 4) i) (JNum 1)).

(** The cache after a poll, field by field. *)
Lemma decode_fields (buf : Buffer) (s : BoardState) :
  decode buf s
  = {| buttons :=
         {| buttonA := bit_and (Buffer_get buf 3) (JNum 1);
            buttonB := bit_and (shift_right (Buffer_get buf 3) 1) (JNum 1);
            buttonC := bit_and (shift_right (Buffer_get buf 3) 2) (JNum 1) |};
       battMV := add (shift_left (Buffer_get buf 15) 8) (Buffer_get buf 16);
       leds := leds s;
       motors := motors s;
       digitalIn :=
         [input_bit buf 0; input_bit buf 1; input_bit buf 2;
          input_bit buf 3; input_bit buf 4; input_bit buf 5]
         ++ skipn 6 (digitalIn s);
       digitalOut := digitalOut s;
       analogIn :=
         [analog_word buf 0; analog_word buf 1; analog_word buf 2;
          analog_word buf 3; analog_word buf 4]
         ++ skipn 5 (analogIn s) |}.
Proof.
  rewrite <- Array_set_first5, <- Array_set_first6.
  unfold decode. cbn [seq fold_left]. reflexivity.
Qed.

Lemma decode_twice (buf1 buf2 : Buffer) (s : BoardState) :
  decode buf2 (decode buf1 s) = decode buf2 s.
Proof.
  rewrite (decode_fields buf2 (decode buf1 s)), (decode_fields buf2 s).
  rewrite (decode_fields buf1 s).
  cbn [leds motors digitalIn digitalOut analogIn skipn app].
  reflexivity.
Qed.

(** X12.  A poll overwrites the whole input side of the state cache: the
    buttons, the battery reading, digital inputs 0 to 5 and analog inputs
    0 to 4 after a poll are those of the bytes just read, whatever an
    earlier poll had stored, and the image and the pending buffer are the
    bytes just read. *)
Theorem latest_poll_wins :
  forall (buf1 buf2 : Buffer) (b : Board),
    d_boardState (getBoardStatus buf2 (getBoardStatus buf1 b))
    = d_boardState (getBoardStatus buf2 b) /\
    d_lastBuf (getBoardStatus buf2 (getBoardStatus buf1 b)) = Some buf2 /\
    d_outBuf (getBoardStatus buf2 (getBoardStatus buf1 b)) = Some buf2.
Proof.
  intros buf1 buf2 b. unfold getBoardStatus.
  cbn [with_boardState with_outBuf with_lastBuf i2c d_boardState d_lastBuf
       d_outBuf].
  split; [apply decode_twice | split; reflexivity].
Qed.

(* ===================================================================== *)
(** ** Further properties of the port router                              *)
(* ===================================================================== *)

Section RouterCalls.

Context {JSValue Interface DeviceClass DeviceConfig Device : Type}.
Variable truthy : JSValue -> bool.
Variable boolean : bool -> JSValue.
Variable device_write : Device -> string -> Z -> JSValue -> result Device.
Variable device_read : Device -> string -> Z -> result (JSValue * Device).
Variable device_configurePin : Device -> Z -> string -> result Device.
Variable device_enable : Device -> result Device.
Variable device_disable : Device -> result Device.
Variable construct :
  DeviceClass -> string -> Obj.slot (option Interface) -> DeviceConfig ->
  result Device.
Variable BuiltinDeviceTypes : string -> option DeviceClass.
Variable C : Constants.t.

Local Abbreviation Robot :=
  (Robot.Robot JSValue Interface DeviceClass DeviceConfig Device).
Local Abbreviation Config := (Robot.Config Interface DeviceClass DeviceConfig).
Local Abbreviation new :=
  (Robot.new JSValue (Device := Device) construct BuiltinDeviceTypes).
Local Abbreviation blank := (Robot.blank JSValue Device).
Local Abbreviation createDevices :=
  (Robot.createDevices (JSValue := JSValue) construct BuiltinDeviceTypes).
Local Abbreviation writeDigital :=
  (Robot.writeDigital truthy boolean device_write).
Local Abbreviation writePWM := (Robot.writePWM device_write).
Local Abbreviation readDigital := (Robot.readDigital device_read).
Local Abbreviation readAnalog := (Robot.readAnalog device_read).
Local Abbreviation readBattMV := (Robot.readBattMV device_read).
Local Abbreviation configureDigitalPinMode :=
  (Robot.configureDigitalPinMode device_configurePin C).
Local Abbreviation enable := (Robot.enable (JSValue := JSValue) device_enable).
Local Abbreviation disable := (Robot.disable (JSValue := JSValue) device_disable).

(** *** A call that reaches its device *)

(** The router after a method of the device [key] has returned [d']: the
    call has been recorded and the device has taken its new state. *)
Lemma on_device_ok {A : Type} (key : string)
  (c : string -> Robot.call JSValue) (m : Device -> result (A * Device))
  (r : Robot) (d d' : Device) (a : A) :
  Obj.own (Robot.d_devices r) key = Some d ->
  m d = Ok (a, d') ->
  exists r',
    Robot.on_device (Some key) c m r = Ok (a, r') /\
    Robot.calls r' = (Robot.calls r ++ [c key])%list /\
    Obj.own (Robot.d_devices r') key = Some d' /\
    (forall other, other <> key ->
       Obj.own (Robot.d_devices r') other
       = Obj.own (Robot.d_devices r) other) /\
    Obj.keys (Robot.d_devices r') = Obj.keys (Robot.d_devices r) /\
    Robot.d_portDeviceMaps r' = Robot.d_portDeviceMaps r /\
    Robot.d_enabled r' = Robot.d_enabled r /\
    Robot.d_interfaces r' = Robot.d_interfaces r.
Proof.
  intros Hown Hm. unfold Robot.on_device. rewrite Hown, Hm. cbn [bind].
  eexists. split; [reflexivity |].
  cbn [Robot.calls Robot.d_devices Robot.with_devices Robot.with_call
       Robot.d_portDeviceMaps Robot.d_enabled Robot.d_interfaces].
  repeat split.
  - apply own_set_eq.
  - intros other Hneq. apply own_set_neq. congruence.
  - apply keys_set_bound. rewrite Hown. discriminate.
Qed.

Lemma write_port_ok (name : string) (value : JSValue) (r : Robot)
  (pd : Robot.PortDevice) (key : string) (d d' : Device) :
  Obj.own (Robot.d_portDeviceMaps r) name = Some pd ->
  Robot.device pd = Some key ->
  Obj.own (Robot.d_devices r) key = Some d ->
  device_write d (Robot.devicePortType pd) (Robot.devicePort pd) value = Ok d' ->
  exists r',
    Robot.write_port device_write name value r = Ok r' /\
    Robot.calls r' = (Robot.calls r ++ [Robot.call_write key (Robot.devicePortType pd)
                                        (Robot.devicePort pd) value])%list /\
    Obj.own (Robot.d_devices r') key = Some d' /\
    (forall other, other <> key ->
       Obj.own (Robot.d_devices r') other
       = Obj.own (Robot.d_devices r) other) /\
    Obj.keys (Robot.d_devices r') = Obj.keys (Robot.d_devices r) /\
    Robot.d_portDeviceMaps r' = Robot.d_portDeviceMaps r /\
    Robot.d_enabled r' = Robot.d_enabled r /\
    Robot.d_interfaces r' = Robot.d_interfaces r.
Proof.
  intros Hport Hdev Hown Hwrite.
  unfold Robot.write_port. rewrite (get_own _ _ _ Hport), Hdev.
  destruct (on_device_ok key
              (fun dev => Robot.call_write dev (Robot.devicePortType pd)
                                           (Robot.devicePort pd) value)
              (fun d => Robot.unit_result
                          (device_write d (Robot.devicePortType pd)
                                        (Robot.devicePort pd) value))
              r d d' tt Hown)
    as (r' & Hrun & Hafter).
  { unfold Robot.unit_result. rewrite Hwrite. reflexivity. }
  rewrite Hrun. cbn [bind]. exists r'. split; [reflexivity | exact Hafter].
Qed.

(** X13.  [writeDigital] on an enabled router, for a channel whose name
    D-<n> is mapped to a device: the device's [write] is called once,
    with the port type and port number of the map entry and with the
    value turned into a boolean ([!!value]); the device takes the state
    that call leaves, and the other devices, the port map and the flag
    stay as they were. *)
Theorem writeDigital_reaches_mapped_device :
  forall (r : Robot) (channel : Z) (value : JSValue)
         (pd : Robot.PortDevice) (key : string) (d d' : Device),
    Robot.d_enabled r = true ->
    Obj.own (Robot.d_portDeviceMaps r) ("D-" ++ Str.of_number channel)
    = Some pd ->
    Robot.device pd = Some key ->
    Obj.own (Robot.d_devices r) key = Some d ->
    device_write d (Robot.devicePortType pd) (Robot.devicePort pd)
                 (boolean (truthy value)) = Ok d' ->
    exists r',
      writeDigital channel value r = Ok r' /\
      Robot.calls r'
      = (Robot.calls r ++
         [Robot.call_write key (Robot.devicePortType pd) (Robot.devicePort pd)
                           (boolean (truthy value))])%list /\
      Obj.own (Robot.d_devices r') key = Some d' /\
      (forall other, other <> key ->
         Obj.own (Robot.d_devices r') other
         = Obj.own (Robot.d_devices r) other) /\
      Robot.d_portDeviceMaps r' = Robot.d_portDeviceMaps r /\
      Robot.d_enabled r' = true.
Proof.
  intros r channel value pd key d d' Hen Hport Hdev Hown Hwrite.
  destruct (write_port_ok _ (boolean (truthy value)) r pd key d d'
              Hport Hdev Hown Hwrite)
    as (r' & Hrun & Hcalls & Hnew & Hothers & _ & Hmaps & Hflag & _).
  exists r'. unfold Robot.writeDigital. rewrite Hen. cbn [negb].
  split; [exact Hrun |]. repeat split; try assumption. congruence.
Qed.

(** X14.  [writePWM] on an enabled router, for a channel whose name
    PWM-<n> is mapped to a device: the device's [write] is called once
    with the port type and port number of the map entry and with the
    value as the caller gave it; the router neither clamps nor converts
    it.  The device takes the state that call leaves. *)
Theorem writePWM_passes_value_unchanged :
  forall (r : Robot) (channel : Z) (value : JSValue)
         (pd : Robot.PortDevice) (key : string) (d d' : Device),
    Robot.d_enabled r = true ->
    Obj.own (Robot.d_portDeviceMaps r) ("PWM-" ++ Str.of_number channel)
    = Some pd ->
    Robot.device pd = Some key ->
    Obj.own (Robot.d_devices r) key = Some d ->
    device_write d (Robot.devicePortType pd) (Robot.devicePort pd) value
    = Ok d' ->
    exists r',
      writePWM channel value r = Ok r' /\
      Robot.calls r'
      = (Robot.calls r ++
         [Robot.call_write key (Robot.devicePortType pd) (Robot.devicePort pd)
                           value])%list /\
      Obj.own (Robot.d_devices r') key = Some d' /\
      (forall other, other <> key ->
         Obj.own (Robot.d_devices r') other
         = Obj.own (Robot.d_devices r) other) /\
      Robot.d_portDeviceMaps r' = Robot.d_portDeviceMaps r /\
      Robot.d_enabled r' = true.
Proof.
  intros r channel value pd key d d' Hen Hport Hdev Hown Hwrite.
  destruct (write_port_ok _ value r pd key d d' Hport Hdev Hown Hwrite)
    as (r' & Hrun & Hcalls & Hnew & Hothers & _ & Hmaps & Hflag & _).
  exists r'. unfold Robot.writePWM. rewrite Hen. cbn [negb].
  split; [exact Hrun |]. repeat split; try assumption. congruence.
Qed.

Lemma read_port_ok (name : string) (r : Robot)
  (pd : Robot.PortDevice) (key : string) (d d' : Device) (v : JSValue) :
  Obj.own (Robot.d_portDeviceMaps r) name = Some pd ->
  Robot.device pd = Some key ->
  Obj.own (Robot.d_devices r) key = Some d ->
  device_read d (Robot.devicePortType pd) (Robot.devicePort pd) = Ok (v, d') ->
  exists r',
    Robot.read_port device_read name r = Ok (v, r') /\
    Robot.calls r' = (Robot.calls r ++ [Robot.call_read JSValue key (Robot.devicePortType pd)
                                       (Robot.devicePort pd)])%list /\
    Obj.own (Robot.d_devices r') key = Some d' /\
    (forall other, other <> key ->
       Obj.own (Robot.d_devices r') other
       = Obj.own (Robot.d_devices r) other) /\
    Obj.keys (Robot.d_devices r') = Obj.keys (Robot.d_devices r) /\
    Robot.d_portDeviceMaps r' = Robot.d_portDeviceMaps r /\
    Robot.d_enabled r' = Robot.d_enabled r /\
    Robot.d_interfaces r' = Robot.d_interfaces r.
Proof.
  intros Hport Hdev Hown Hread.
  unfold Robot.read_port. rewrite (get_own _ _ _ Hport), Hdev.
  apply (on_device_ok key
           (fun dev => Robot.call_read JSValue dev (Robot.devicePortType pd)
                                       (Robot.devicePort pd))
           (fun d => device_read d (Robot.devicePortType pd)
                                 (Robot.devicePort pd))
           r d d' v Hown Hread).
Qed.

(** X15.  The three reads hand back what the device answers.  For a
    channel whose name (D-<n> for [readDigital], A-<n> for [readAnalog],
    batt for [readBattMV]) is mapped to a device, the device's [read] is
    called once with the port type and port number of the map entry, and
    its value is the value of the call, whether the router is enabled or
    not. *)
Theorem reads_return_the_device_value :
  forall (r : Robot) (channel : Z) (pd : Robot.PortDevice) (key : string)
         (d d' : Device) (v : JSValue),
    Robot.device pd = Some key ->
    Obj.own (Robot.d_devices r) key = Some d ->
    device_read d (Robot.devicePortType pd) (Robot.devicePort pd)
    = Ok (v, d') ->
    (Obj.own (Robot.d_portDeviceMaps r) ("D-" ++ Str.of_number channel)
     = Some pd ->
     exists r',
       readDigital channel r = Ok (v, r') /\
       Robot.calls r'
       = (Robot.calls r ++
          [Robot.call_read JSValue key (Robot.devicePortType pd)
                           (Robot.devicePort pd)])%list /\
       Obj.own (Robot.d_devices r') key = Some d') /\
    (Obj.own (Robot.d_portDeviceMaps r) ("A-" ++ Str.of_number channel)
     = Some pd ->
     exists r',
       readAnalog channel r = Ok (v, r') /\
       Robot.calls r'
       = (Robot.calls r ++
          [Robot.call_read JSValue key (Robot.devicePortType pd)
                           (Robot.devicePort pd)])%list /\
       Obj.own (Robot.d_devices r') key = Some d') /\
    (Obj.own (Robot.d_portDeviceMaps r) "batt" = Some pd ->
     exists r',
       readBattMV r = Ok (v, r') /\
       Robot.calls r'
       = (Robot.calls r ++
          [Robot.call_read JSValue key (Robot.devicePortType pd)
                           (Robot.devicePort pd)])%list /\
       Obj.own (Robot.d_devices r') key = Some d').
Proof.
  intros r channel pd key d d' v Hdev Hown Hread.
  assert (H : forall name,
            Obj.own (Robot.d_portDeviceMaps r) name = Some pd ->
            exists r',
              Robot.read_port device_read name r = Ok (v, r') /\
              Robot.calls r'
              = (Robot.calls r ++
                 [Robot.call_read JSValue key (Robot.devicePortType pd)
                                  (Robot.devicePort pd)])%list /\
              Obj.own (Robot.d_devices r') key = Some d').
  { intros name Hport.
    destruct (read_port_ok name r pd key d d' v Hport Hdev Hown Hread)
      as (r' & Hrun & Hcalls & Hnew & _).
    exists r'. auto. }
  split; [| split]; intros Hport; apply H; exact Hport.
Qed.

(** *** Pin modes *)

(** X16.  [configureDigitalPinMode] checks the mode before it looks at
    the channel: a mode that is no pin mode is refused with "Invalid pin
    mode" whether the channel is mapped or not.  With a pin mode, a
    channel whose map entry gives a direction is refused with
    "non-configurable pin".  Neither refusal calls a device.  Otherwise
    the device's [configurePin] is called once with the port number of
    the entry and the mode; the enabled flag is not looked at. *)
Theorem configureDigitalPinMode_checks_mode_then_direction :
  forall (r : Robot) (channel : Z) (mode : string),
    (Robot.PinModes_undefined C mode = true ->
     configureDigitalPinMode channel mode r
     = Throw (Error ("Invalid pin mode (" ++ mode ++ ") specified"))) /\
    (forall pd,
       Robot.PinModes_undefined C mode = false ->
       Obj.own (Robot.d_portDeviceMaps r) ("D-" ++ Str.of_number channel)
       = Some pd ->
       Robot.direction_set (Robot.direction pd) = true ->
       configureDigitalPinMode channel mode r
       = Throw (Error ("Attempting to configure a non-configurable pin "
                       ++ "D-" ++ Str.of_number channel))) /\
    (forall pd key d d',
       Robot.PinModes_undefined C mode = false ->
       Obj.own (Robot.d_portDeviceMaps r) ("D-" ++ Str.of_number channel)
       = Some pd ->
       Robot.direction_set (Robot.direction pd) = false ->
       Robot.device pd = Some key ->
       Obj.own (Robot.d_devices r) key = Some d ->
       device_configurePin d (Robot.devicePort pd) mode = Ok d' ->
       exists r',
         configureDigitalPinMode channel mode r = Ok r' /\
         Robot.calls r'
         = (Robot.calls r ++
            [Robot.call_configurePin JSValue key (Robot.devicePort pd) mode])%list /\
         Obj.own (Robot.d_devices r') key = Some d' /\
         Robot.d_enabled r' = Robot.d_enabled r).
Proof.
  intros r channel mode. split; [| split].
  - intros Hmode. unfold Robot.configureDigitalPinMode. rewrite Hmode.
    reflexivity.
  - intros pd Hmode Hport Hdir. unfold Robot.configureDigitalPinMode.
    rewrite Hmode, (get_own _ _ _ Hport), Hdir. reflexivity.
  - intros pd key d d' Hmode Hport Hdir Hdev Hown Hconf.
    unfold Robot.configureDigitalPinMode.
    rewrite Hmode, (get_own _ _ _ Hport), Hdir, Hdev.
    destruct (on_device_ok key
                (fun dev => Robot.call_configurePin JSValue dev
                              (Robot.devicePort pd) mode)
                (fun d => Robot.unit_result
                            (device_configurePin d (Robot.devicePort pd) mode))
                r d d' tt Hown)
      as (r' & Hrun & Hcalls & Hnew & _ & _ & _ & Hflag & _).
    { unfold Robot.unit_result. rewrite Hconf. reflexivity. }
    rewrite Hrun. cbn [bind]. exists r'. auto.
Qed.


(** *** Enabling and disabling *)

Lemma each_device_loop (c : string -> Robot.call JSValue)
  (m : Device -> result Device) :
  (forall d, exists d', m d = Ok d') ->
  forall (ks : list string) (r : Robot),
    NoDup ks ->
    (forall k, In k ks -> Obj.own (Robot.d_devices r) k <> None) ->
    exists r',
      fold_left
        (fun (acc : result Robot) key =>
           r <- acc ;;
           ' (_, r) <- Robot.on_device (Some key) c
                         (fun d => Robot.unit_result (m d)) r ;;
           Ok r)
        ks (Ok r)
      = Ok r' /\
      Robot.calls r' = (Robot.calls r ++ map c ks)%list /\
      (forall k d, In k ks -> Obj.own (Robot.d_devices r) k = Some d ->
         exists d', m d = Ok d' /\ Obj.own (Robot.d_devices r') k = Some d') /\
      (forall k, ~ In k ks ->
         Obj.own (Robot.d_devices r') k = Obj.own (Robot.d_devices r) k) /\
      Obj.keys (Robot.d_devices r') = Obj.keys (Robot.d_devices r) /\
      Robot.d_portDeviceMaps r' = Robot.d_portDeviceMaps r /\
      Robot.d_enabled r' = Robot.d_enabled r.
Proof.
  intros Htotal. induction ks as [| key ks IH]; intros r Hnd Hin.
  - exists r. cbn [fold_left map]. rewrite app_nil_r.
    repeat split; auto. intros k d [].
  - inversion Hnd as [| ? ? Hnotin Hnd']; subst.
    destruct (Obj.own (Robot.d_devices r) key) as [d |] eqn:Hown;
      [| exfalso; apply (Hin key); [left; reflexivity | exact Hown]].
    destruct (Htotal d) as [d' Hm].
    destruct (on_device_ok key c (fun d => Robot.unit_result (m d))
                r d d' tt Hown)
      as (r1 & Hrun & Hcalls & Hnew & Hothers & Hkeys & Hmaps & Hflag & _).
    { unfold Robot.unit_result. rewrite Hm. reflexivity. }
    destruct (IH r1 Hnd') as (r' & Hfold & Hcalls' & Hin' & Hout' & Hkeys'
                              & Hmaps' & Hflag').
    { intros k Hk. rewrite Hothers; [apply Hin; right; exact Hk |].
      intros ->. contradiction. }
    exists r'. cbn [fold_left bind]. rewrite Hrun. cbn [bind].
    split; [exact Hfold |].
    split; [rewrite Hcalls', Hcalls, <- app_assoc; reflexivity |].
    split; [| split; [| split; [congruence | split; congruence]]].
    + intros k dk [<- | Hk] Hownk.
      * rewrite Hown in Hownk. injection Hownk as <-.
        exists d'. split; [exact Hm |].
        rewrite (Hout' key Hnotin). exact Hnew.
      * apply (Hin' k dk Hk). rewrite Hothers; [exact Hownk |].
        intros ->. contradiction.
    + intros k Hk. rewrite Hout'.
      * apply Hothers. intros ->. apply Hk. left. reflexivity.
      * intros Hin2. apply Hk. right. exact Hin2.
Qed.

Lemma each_device_ok (c : string -> Robot.call JSValue)
  (m : Device -> result Device) (r : Robot) :
  (forall d, exists d', m d = Ok d') ->
  NoDup (Obj.keys (Robot.d_devices r)) ->
  exists r',
    Robot.each_device c m r = Ok r' /\
    Robot.calls r' = (Robot.calls r ++ map c (Obj.keys (Robot.d_devices r)))%list /\
    (forall k d, Obj.own (Robot.d_devices r) k = Some d ->
       exists d', m d = Ok d' /\ Obj.own (Robot.d_devices r') k = Some d') /\
    Obj.keys (Robot.d_devices r') = Obj.keys (Robot.d_devices r) /\
    Robot.d_portDeviceMaps r' = Robot.d_portDeviceMaps r /\
    Robot.d_enabled r' = Robot.d_enabled r.
Proof.
  intros Htotal Hnd.
  destruct (each_device_loop c m Htotal (Obj.keys (Robot.d_devices r)) r Hnd)
    as (r' & Hfold & Hcalls & Hin & _ & Hkeys & Hmaps & Hflag).
  { intros k Hk Hnone. apply own_None_iff in Hnone. contradiction. }
  exists r'. split; [exact Hfold |]. split; [exact Hcalls |].
  split; [| auto].
  intros k d Hown. apply (Hin k d); [| exact Hown].
  destruct (in_dec string_dec k (Obj.keys (Robot.d_devices r))) as [H | H];
    [exact H |].
  apply own_None_iff in H. congruence.
Qed.

(** X17.  [enable] sets the flag and calls [enable] on every device, once
    each and in the order of the keys of [d_devices]; each device takes
    the state its call leaves, and the port map stays.  (The devices'
    [enable] is taken not to throw.) *)
Theorem enable_calls_every_device_once :
  forall (r : Robot),
    (forall d, exists d', device_enable d = Ok d') ->
    NoDup (Obj.keys (Robot.d_devices r)) ->
    exists r',
      enable r = Ok r' /\
      Robot.d_enabled r' = true /\
      Robot.calls r'
      = (Robot.calls r
         ++ map (Robot.call_enable JSValue) (Obj.keys (Robot.d_devices r)))%list /\
      (forall k d, Obj.own (Robot.d_devices r) k = Some d ->
         exists d', device_enable d = Ok d' /\
                    Obj.own (Robot.d_devices r') k = Some d') /\
      Obj.keys (Robot.d_devices r') = Obj.keys (Robot.d_devices r) /\
      Robot.d_portDeviceMaps r' = Robot.d_portDeviceMaps r.
Proof.
  intros r Htotal Hnd. unfold Robot.enable.
  destruct (each_device_ok (Robot.call_enable JSValue) device_enable
              (Robot.with_enabled true r) Htotal Hnd)
    as (r' & Hrun & Hcalls & Hdev & Hkeys & Hmaps & Hflag).
  exists r'. split; [exact Hrun |]. auto.
Qed.

(** X18.  [disable] clears the flag and calls [disable] on every device,
    once each and in the order of the keys of [d_devices].  On the router
    it leaves, [writeDigital] and [writePWM] return at once without a
    device call.  (The devices' [disable] is taken not to throw.) *)
Theorem disable_calls_every_device_and_stops_writes :
  forall (r : Robot) (channel : Z) (value : JSValue),
    (forall d, exists d', device_disable d = Ok d') ->
    NoDup (Obj.keys (Robot.d_devices r)) ->
    exists r',
      disable r = Ok r' /\
      Robot.d_enabled r' = false /\
      Robot.calls r'
      = (Robot.calls r
         ++ map (Robot.call_disable JSValue) (Obj.keys (Robot.d_devices r)))%list /\
      (forall k d, Obj.own (Robot.d_devices r) k = Some d ->
         exists d', device_disable d = Ok d' /\
                    Obj.own (Robot.d_devices r') k = Some d') /\
      Robot.d_portDeviceMaps r' = Robot.d_portDeviceMaps r /\
      writeDigital channel value r' = Ok r' /\
      writePWM channel value r' = Ok r'.
Proof.
  intros r channel value Htotal Hnd. unfold Robot.disable.
  destruct (each_device_ok (Robot.call_disable JSValue) device_disable
              (Robot.with_enabled false r) Htotal Hnd)
    as (r' & Hrun & Hcalls & Hdev & Hkeys & Hmaps & Hflag).
  cbn [Robot.d_enabled Robot.with_enabled] in Hflag.
  exists r'. split; [exact Hrun |]. split; [exact Hflag |].
  split; [exact Hcalls |]. split; [exact Hdev |]. split; [exact Hmaps |].
  unfold Robot.writeDigital, Robot.writePWM. rewrite Hflag.
  split; reflexivity.
Qed.


(** *** Construction *)

(** One round of the loop of [setupInterfaces]. *)
Local Abbreviation register :=
  (fun (r : Robot) (ifaceSpec : Robot.InterfaceSpec Interface) =>
     if match Obj.get (Robot.d_interfaces r) (Robot.if_id ifaceSpec) with
        | Obj.Own (Some _) => true
        | Obj.Own None => false
        | Obj.Proto => true
        | Obj.Absent => false
        end
     then r
     else Robot.with_interfaces
            (Obj.set (Robot.d_interfaces r) (Robot.if_id ifaceSpec)
                     (Robot.if_implementation ifaceSpec)) r).

Lemma register_other (r : Robot) (s : Robot.InterfaceSpec Interface)
  (id : string) :
  Robot.if_id s <> id ->
  Obj.own (Robot.d_interfaces (register r s)) id
  = Obj.own (Robot.d_interfaces r) id.
Proof.
  intros Hneq. cbv beta.
  destruct (Obj.get (Robot.d_interfaces r) (Robot.if_id s)) as [[i |] | |];
    try reflexivity;
    cbn [Robot.d_interfaces Robot.with_interfaces];
    apply own_set_neq; exact Hneq.
Qed.

(** An interface that is registered stays. *)
Lemma registered_stays (l : list (Robot.InterfaceSpec Interface)) :
  forall (r : Robot) (id : string) (i : Interface),
    Obj.own (Robot.d_interfaces r) id = Some (Some i) ->
    Obj.own (Robot.d_interfaces (fold_left register l r)) id = Some (Some i).
Proof.
  induction l as [| s l IH]; intros r id i Hown; cbn [fold_left];
    [exact Hown |].
  apply IH.
  destruct (string_dec (Robot.if_id s) id) as [Heq | Hneq].
  - rewrite Heq. unfold Obj.get. rewrite Hown. exact Hown.
  - rewrite (register_other r s id Hneq). exact Hown.
Qed.

Lemma first_implementation_registered
  (l : list (Robot.InterfaceSpec Interface)) :
  forall (r : Robot) (id : string) (spec : Robot.InterfaceSpec Interface),
    Obj.inherited id = false ->
    Obj.own (Robot.d_interfaces r) id = None \/
    Obj.own (Robot.d_interfaces r) id = Some None ->
    find (fun s => (Robot.if_id s =? id)%string
                   && match Robot.if_implementation s with
                      | Some _ => true
                      | None => false
                      end) l = Some spec ->
    Obj.own (Robot.d_interfaces (fold_left register l r)) id
    = Some (Robot.if_implementation spec).
Proof.
  induction l as [| s l IH]; intros r id spec Hinh Hown Hfind;
    cbn [fold_left find] in *; [discriminate |].
  destruct (String.eqb_spec (Robot.if_id s) id) as [Heq | Hneq];
    cbn [andb] in Hfind.
  - assert (Hset : Obj.own (Robot.d_interfaces (register r s)) id
                   = Some (Robot.if_implementation s)).
    { rewrite Heq. unfold Obj.get.
      destruct Hown as [Hown | Hown]; rewrite Hown; [rewrite Hinh |];
        cbn [Robot.d_interfaces Robot.with_interfaces];
        apply own_set_eq. }
    destruct (Robot.if_implementation s) as [i |] eqn:Himpl;
      rewrite Himpl in Hset.
    + injection Hfind as <-. rewrite ?Himpl.
      apply registered_stays. exact Hset.
    + apply IH; [exact Hinh | right; exact Hset | exact Hfind].
  - apply IH; [exact Hinh | | exact Hfind].
    rewrite (register_other r s id Hneq). exact Hown.
Qed.

Lemma inherited_never_registered (l : list (Robot.InterfaceSpec Interface)) :
  forall (r : Robot) (id : string),
    Obj.inherited id = true ->
    Obj.own (Robot.d_interfaces r) id = None ->
    Obj.own (Robot.d_interfaces (fold_left register l r)) id = None.
Proof.
  induction l as [| s l IH]; intros r id Hinh Hown; cbn [fold_left];
    [exact Hown |].
  apply IH; [exact Hinh |].
  destruct (string_dec (Robot.if_id s) id) as [Heq | Hneq].
  - rewrite Heq. unfold Obj.get. rewrite Hown, Hinh. exact Hown.
  - rewrite (register_other r s id Hneq). exact Hown.
Qed.

(** X19.  [setupInterfaces] keeps, for each id, the first interface of
    the list that comes with an implementation: a later entry with the
    same id is skipped, while an earlier entry without an implementation
    is overwritten.  An id that names a property every object inherits
    (as toString does) counts as taken from the start: no entry with
    such an id is ever stored, and [getInterface] gives the inherited
    property instead. *)
Theorem first_interface_of_an_id_wins :
  forall (r : Robot) (l : list (Robot.InterfaceSpec Interface))
         (id : string),
    Robot.interfaces (Robot.d_config r) = Some l ->
    Obj.own (Robot.d_interfaces r) id = None ->
    (forall spec,
       Obj.inherited id = false ->
       find (fun s => (Robot.if_id s =? id)%string
                      && match Robot.if_implementation s with
                         | Some _ => true
                         | None => false
                         end) l = Some spec ->
       Robot.getInterface id (Robot.setupInterfaces r)
       = Obj.Own (Robot.if_implementation spec)) /\
    (Obj.inherited id = true ->
     Robot.getInterface id (Robot.setupInterfaces r) = Obj.Proto).
Proof.
  intros r l id Hcfg Hown.
  unfold Robot.getInterface, Robot.setupInterfaces. rewrite Hcfg.
  split.
  - intros spec Hinh Hfind. apply get_own.
    apply first_implementation_registered; auto.
  - intros Hinh. apply get_proto; [| exact Hinh].
    apply inherited_never_registered; assumption.
Qed.

(** The device class the device loop takes for a spec. *)
Local Abbreviation deviceImpl_of :=
  (fun (deviceSpec : Robot.DeviceSpec DeviceClass DeviceConfig) =>
     match BuiltinDeviceTypes (Robot.type deviceSpec) with
     | Some builtin => Some builtin
     | None => Robot.implementation deviceSpec
     end).

Lemma createDevices_app
  (l1 l2 : list (Robot.DeviceSpec DeviceClass DeviceConfig)) (r : Robot) :
  createDevices (l1 ++ l2) r = (r1 <- createDevices l1 r ;; createDevices l2 r1).
Proof.
  unfold Robot.createDevices. rewrite fold_left_app.
  match goal with
  | |- fold_left ?f l2 ?acc = _ => destruct acc as [r1 | e]
  end; cbn [bind]; [reflexivity |].
  apply createDevices_throw.
Qed.

(** X20.  Constructing a router throws a TypeError when the
    configuration has no [devices] list, and when a device of the list
    names no built-in type and brings no implementation: the device loop
    then reaches [new deviceImpl(...)] with nothing to construct, after
    the devices before it have been built and before any port is
    mapped. *)
Theorem new_throws_without_a_device_class :
  forall (cfg : Config),
    (Robot.devices cfg = None ->
     exists msg, new cfg = Throw (TypeError msg)) /\
    (forall before bad after r1,
       Robot.devices cfg = Some (before ++ bad :: after)%list ->
       createDevices before (Robot.setupInterfaces (blank cfg)) = Ok r1 ->
       BuiltinDeviceTypes (Robot.type bad) = None ->
       Robot.implementation bad = None ->
       new cfg = Throw (TypeError "deviceImpl is not a constructor")).
Proof.
  intros cfg.
  assert (Hcfg : Robot.d_config (Robot.setupInterfaces (blank cfg)) = cfg).
  { destruct (setupInterfaces_keeps (blank cfg)) as (H & _). exact H. }
  split.
  - intros Hnone. unfold Robot.new, Robot.setupDevices.
    rewrite Hcfg, Hnone. eexists. reflexivity.
  - intros before bad after r1 Hdev Hbefore Hbuiltin Himpl.
    unfold Robot.new, Robot.setupDevices. rewrite Hcfg, Hdev.
    rewrite createDevices_app, Hbefore. cbn [bind].
    unfold Robot.createDevices. cbn [fold_left bind].
    rewrite Hbuiltin, Himpl. rewrite createDevices_throw. reflexivity.
Qed.

Lemma createDevices_ok (l : list (Robot.DeviceSpec DeviceClass DeviceConfig)) :
  (forall spec iface,
     In spec l ->
     exists cls d,
       deviceImpl_of spec = Some cls /\
       construct cls (Robot.id spec) iface (Robot.config spec) = Ok d) ->
  forall (r : Robot),
    exists r',
      createDevices l r = Ok r' /\
      (forall k, Obj.own (Robot.d_devices r') k <> None <->
                 Obj.own (Robot.d_devices r) k <> None \/
                 In k (map (fun s => Robot.id s) l)) /\
      Robot.d_config r' = Robot.d_config r /\
      Robot.d_portDeviceMaps r' = Robot.d_portDeviceMaps r /\
      Robot.d_enabled r' = Robot.d_enabled r /\
      Robot.calls r' = Robot.calls r.
Proof.
  induction l as [| spec l IH]; intros Hall r.
  - exists r. split; [reflexivity |].
    split; [intros k; cbn [map In]; tauto | auto].
  - destruct (Hall spec
                (Robot.getInterface (Robot.interfaceId spec) r)
                (or_introl eq_refl)) as (cls & d & Hcls & Hnew).
    cbv beta in Hcls.
    destruct (IH (fun s i Hin => Hall s i (or_intror Hin))
                 (Robot.with_devices
                    (Obj.set (Robot.d_devices r) (Robot.id spec) d) r))
      as (r' & Hrun & Hkeys & Hc & Hm & He & Hcalls).
    exists r'. split.
    + unfold Robot.createDevices in *. cbn [fold_left bind].
      rewrite Hcls, Hnew. cbn [bind]. exact Hrun.
    + cbn [Robot.d_devices Robot.with_devices Robot.d_config
           Robot.d_portDeviceMaps Robot.d_enabled Robot.calls] in *.
      repeat split; try assumption.
      * intros H. apply Hkeys in H. cbn [map In].
        destruct H as [H | H]; [| right; right; exact H].
        destruct (string_dec (Robot.id spec) k) as [Heq | Hneq];
          [right; left; exact Heq |].
        left. rewrite own_set_neq in H by exact Hneq. exact H.
      * intros H. apply Hkeys. cbn [map In] in H.
        destruct (string_dec (Robot.id spec) k) as [Heq | Hneq].
        -- left. rewrite <- Heq, own_set_eq. discriminate.
        -- destruct H as [H | [H | H]]; [| contradiction | right; exact H].
           left. rewrite own_set_neq by exact Hneq. exact H.
Qed.

(** X21.  Constructing a router succeeds when the configuration has a
    device list, every device of it has a class that constructs, no
    device id is [__proto__], and no name of the port map is a property
    every object inherits.  The router then starts disabled and with no
    device call made, its devices are those of the list, and each entry
    the configuration object holds is found under its name with its port
    type, port number and direction.  The entry refers to its device
    exactly when the device id is that of a device of the list; an entry
    with any other device id (one that is no inherited property name) is
    accepted too, and refers to nothing. *)
Theorem new_maps_every_port :
  forall (cfg : Config) (l : list (Robot.DeviceSpec DeviceClass DeviceConfig)),
    Robot.devices cfg = Some l ->
    (forall spec iface,
       In spec l ->
       exists cls d,
         deviceImpl_of spec = Some cls /\
         construct cls (Robot.id spec) iface (Robot.config spec) = Ok d) ->
    (forall spec, In spec l -> Robot.id spec <> "__proto__") ->
    (forall name, In name (Obj.keys (Robot.portMap cfg)) ->
       Obj.inherited name = false) ->
    exists r,
      new cfg = Ok r /\
      Robot.d_enabled r = false /\
      Robot.calls r = [] /\
      (forall k, Obj.own (Robot.d_devices r) k <> None <->
                 In k (map (fun s => Robot.id s) l)) /\
      (forall name info,
         Obj.own (Robot.portMap cfg) name = Some info ->
         exists pd,
           Obj.own (Robot.d_portDeviceMaps r) name = Some pd /\
           Robot.devicePortType pd = Robot.mi_devicePortType info /\
           Robot.devicePort pd = Robot.mi_devicePort info /\
           Robot.direction pd = Robot.mi_direction info /\
           (In (Robot.deviceId info) (map (fun s => Robot.id s) l) ->
            Robot.device pd = Some (Robot.deviceId info)) /\
           (~ In (Robot.deviceId info) (map (fun s => Robot.id s) l) ->
            Obj.inherited (Robot.deviceId info) = false ->
            Robot.device pd = None)).
Proof.
  intros cfg l Hdev Hall _ Hinh.
  destruct (setupInterfaces_keeps (blank cfg)) as (Hcfg & Hmaps0 & Hdev0).
  cbn [Robot.blank Robot.d_config Robot.d_portDeviceMaps Robot.d_devices]
    in Hcfg, Hmaps0, Hdev0.
  assert (Hflag0 : Robot.d_enabled (Robot.setupInterfaces (blank cfg)) = false /\
                   Robot.calls (Robot.setupInterfaces (blank cfg)) = []).
  { unfold Robot.setupInterfaces.
    destruct (Robot.interfaces (Robot.d_config (blank cfg))) as [li |];
      [| split; reflexivity].
    assert (Hgen : forall r0 : Robot,
              Robot.d_enabled r0 = false /\ Robot.calls r0 = [] ->
              Robot.d_enabled (fold_left register li r0) = false /\
              Robot.calls (fold_left register li r0) = []).
    { induction li as [| s li IHli]; intros r0 H0; cbn [fold_left];
        [exact H0 |].
      apply IHli.
      destruct (Obj.get (Robot.d_interfaces r0) (Robot.if_id s))
        as [[i |] | |]; exact H0. }
    apply Hgen. split; reflexivity. }
  destruct Hflag0 as [Hen0 Hcalls0].
  destruct (createDevices_ok l Hall (Robot.setupInterfaces (blank cfg)))
    as (r1 & Hcreate & Hkeys1 & Hc1 & Hm1 & He1 & Hcalls1).
  destruct (for_in_names (Robot.portMap cfg)) as [Hnd Hnames].
  destruct (mapPorts_ok (Obj.for_in (Robot.portMap cfg)) r1 Hnd)
    as (r & Hmap & Hin & _ & Hd & He & Hc).
  { intros name Hname. split; [apply Hinh; apply Hnames; exact Hname |].
    rewrite Hm1, Hmaps0. reflexivity. }
  exists r. split.
  { unfold Robot.new, Robot.setupDevices. rewrite Hcfg, Hdev, Hcreate.
    cbn [bind]. rewrite Hc1, Hcfg. exact Hmap. }
  assert (Hdevices : forall k, Obj.own (Robot.d_devices r1) k <> None <->
                               In k (map (fun s => Robot.id s) l)).
  { intros k. rewrite Hkeys1, Hdev0. cbn [Obj.own]. tauto. }
  split; [congruence |]. split; [congruence |].
  split; [rewrite Hd; exact Hdevices |].
  intros name info Hentry. eexists.
  split; [apply Hin; apply for_in_own; exact Hentry |].
  cbn [Robot.devicePortType Robot.devicePort Robot.direction Robot.device].
  repeat split.
  - intros Hid. apply Hdevices in Hid. unfold Obj.get.
    destruct (Obj.own (Robot.d_devices r1) (Robot.deviceId info));
      [reflexivity | contradiction].
  - intros Hid Hplain. unfold Obj.get.
    destruct (Obj.own (Robot.d_devices r1) (Robot.deviceId info)) eqn:E.
    + exfalso. apply Hid. apply Hdevices. rewrite E. discriminate.
    + rewrite Hplain. reflexivity.
Qed.

End RouterCalls.

(* ===================================================================== *)
(** ** Channel numbers and channel names                                  *)
(* ===================================================================== *)

Lemma digits_acc (d : Decimal.uint) :
  forall acc : positive,
    Str.digits (NilEmpty.string_of_uint d) (Some (Z.pos acc))
    = Some (Z.pos (Pos.of_uint_acc d acc)).
Proof.
  induction d as [| d IH | d IH | d IH | d IH | d IH | d IH | d IH | d IH
                  | d IH | d IH];
    intros acc; cbn [NilEmpty.string_of_uint Str.digits Pos.of_uint_acc];
    [reflexivity | ..];
    match goal with
    | |- context [Str.digit ?c] =>
        let v := eval vm_compute in (Str.digit c) in
        change (Str.digit c) with v
    end;
    cbv iota; rewrite <- IH; do 2 f_equal; lia.
Qed.

Lemma digits_zero (d : Decimal.uint) :
  Str.digits (NilEmpty.string_of_uint d) (Some 0)
  = Some (Z.of_N (Pos.of_uint d)).
Proof.
  induction d as [| d IH | d IH | d IH | d IH | d IH | d IH | d IH | d IH
                  | d IH | d IH];
    cbn [NilEmpty.string_of_uint Str.digits Pos.of_uint];
    [reflexivity | ..];
    match goal with
    | |- context [Str.digit ?c] =>
        let v := eval vm_compute in (Str.digit c) in
        change (Str.digit c) with v
    end;
    cbv iota;
    [exact IH | ..];
    cbn [Z.of_N]; rewrite <- digits_acc; reflexivity.
Qed.

Lemma digits_uint (d : Decimal.uint) :
  d <> Decimal.Nil ->
  Str.digits (NilEmpty.string_of_uint d) None = Some (Z.of_N (Pos.of_uint d)).
Proof.
  intros Hd.
  destruct d as [| d | d | d | d | d | d | d | d | d | d];
    [contradiction | ..];
    cbn [NilEmpty.string_of_uint Str.digits Pos.of_uint];
    match goal with
    | |- context [Str.digit ?c] =>
        let v := eval vm_compute in (Str.digit c) in
        change (Str.digit c) with v
    end;
    cbv iota;
    [apply digits_zero | ..];
    cbn [Z.of_N]; rewrite <- digits_acc; reflexivity.
Qed.

Lemma parseInt_uint (d : Decimal.uint) :
  d <> Decimal.Nil ->
  Str.parseInt (NilEmpty.string_of_uint d)
  = Str.digits (NilEmpty.string_of_uint d) None.
Proof.
  intros Hd.
  destruct d as [| d | d | d | d | d | d | d | d | d | d];
    [contradiction | ..]; reflexivity.
Qed.

Lemma string_of_to_uint (p : positive) :
  NilZero.string_of_uint (Pos.to_uint p)
  = NilEmpty.string_of_uint (Pos.to_uint p).
Proof.
  pose proof (DecimalPos.Unsigned.to_uint_nonnil p) as Hp.
  destruct (Pos.to_uint p); [contradiction | ..]; reflexivity.
Qed.

(** The decimal string of a safe integer reads back as the integer:
    [parseInt('' + n, 10)] is [n]. *)
Lemma parseInt_of_number (n : Z) :
  - Str.max_safe_integer <= n <= Str.max_safe_integer ->
  Str.parseInt (Str.of_number n) = Some n.
Proof.
  intros _. unfold Str.of_number. destruct n as [| p | p];
    cbn [Z.to_int NilZero.string_of_int].
  - reflexivity.
  - rewrite string_of_to_uint.
    rewrite parseInt_uint by apply DecimalPos.Unsigned.to_uint_nonnil.
    rewrite digits_uint by apply DecimalPos.Unsigned.to_uint_nonnil.
    rewrite DecimalPos.Unsigned.of_to. reflexivity.
  - rewrite string_of_to_uint.
    change (Str.parseInt
              (String "-" (NilEmpty.string_of_uint (Pos.to_uint p))))
      with (option_map Z.opp
              (Str.digits (NilEmpty.string_of_uint (Pos.to_uint p)) None)).
    rewrite digits_uint by apply DecimalPos.Unsigned.to_uint_nonnil.
    rewrite DecimalPos.Unsigned.of_to. reflexivity.
Qed.

Lemma split_uint (d : Decimal.uint) :
  Str.split "-" (NilEmpty.string_of_uint d) = [NilEmpty.string_of_uint d].
Proof.
  induction d as [| d IH | d IH | d IH | d IH | d IH | d IH | d IH | d IH
                  | d IH | d IH];
    cbn [NilEmpty.string_of_uint Str.split]; [reflexivity | ..];
    rewrite IH; reflexivity.
Qed.

(** The decimal string of a number that is not negative has no dash. *)
Lemma split_of_number (n : Z) :
  0 <= n -> Str.split "-" (Str.of_number n) = [Str.of_number n].
Proof.
  intros Hn. unfold Str.of_number. destruct n as [| p | p]; [| | lia];
    cbn [Z.to_int NilZero.string_of_int].
  - reflexivity.
  - rewrite string_of_to_uint. apply split_uint.
Qed.

Lemma split_channel_name (n : Z) :
  0 <= n ->
  Str.split "-" ("D-" ++ Str.of_number n) = ["D"; Str.of_number n] /\
  Str.split "-" ("A-" ++ Str.of_number n) = ["A"; Str.of_number n] /\
  Str.split "-" ("PWM-" ++ Str.of_number n) = ["PWM"; Str.of_number n].
Proof.
  intros Hn. cbn [String.append Str.split].
  rewrite (split_of_number n Hn). repeat split; reflexivity.
Qed.

Section PortList.

Context {JSValue Interface DeviceClass DeviceConfig Device : Type}.
Variable C : Constants.t.

Local Abbreviation Robot :=
  (Robot.Robot JSValue Interface DeviceClass DeviceConfig Device).

(** A descriptor that is in the list stays in it: the loop only adds. *)
Lemma addPort_keeps (portList : Robot.PortList) (name : string)
  (pd : Robot.PortDevice) (x : Robot.PortDescriptor) :
  (In x (Robot.digital portList) ->
   In x (Robot.digital (Robot.addPort C portList name pd))) /\
  (In x (Robot.analog portList) ->
   In x (Robot.analog (Robot.addPort C portList name pd))) /\
  (In x (Robot.pwm portList) ->
   In x (Robot.pwm (Robot.addPort C portList name pd))).
Proof.
  unfold Robot.addPort.
  destruct (Str.split "-" name) as [| pType [| second rest]]; auto.
  destruct (Str.parseInt second) as [n |]; auto.
  destruct (pType =? "D")%string;
    cbn [Robot.digital Robot.analog Robot.pwm].
  { repeat split; auto. intros H. apply in_or_app. left. exact H. }
  destruct (pType =? "A")%string;
    cbn [Robot.digital Robot.analog Robot.pwm].
  { repeat split; auto. intros H. apply in_or_app. left. exact H. }
  destruct (pType =? "PWM")%string;
    cbn [Robot.digital Robot.analog Robot.pwm]; auto.
  repeat split; auto. intros H. apply in_or_app. left. exact H.
Qed.

Lemma getPortList_loop_keeps (o : Obj.t Robot.PortDevice)
  (x : Robot.PortDescriptor) :
  forall acc : Robot.PortList,
    (In x (Robot.digital acc) ->
     In x (Robot.digital
             (fold_left (fun portList '(portName, pData) =>
                           Robot.addPort C portList portName pData) o acc))) /\
    (In x (Robot.analog acc) ->
     In x (Robot.analog
             (fold_left (fun portList '(portName, pData) =>
                           Robot.addPort C portList portName pData) o acc))) /\
    (In x (Robot.pwm acc) ->
     In x (Robot.pwm
             (fold_left (fun portList '(portName, pData) =>
                           Robot.addPort C portList portName pData) o acc))).
Proof.
  induction o as [| [k pd] o IH]; intros acc; cbn [fold_left]; [auto |].
  destruct (IH (Robot.addPort C acc k pd)) as (I1 & I2 & I3).
  destruct (addPort_keeps acc k pd x) as (A1 & A2 & A3).
  auto.
Qed.

(** What the loop adds for a port named after a channel. *)
Lemma addPort_channel (portList : Robot.PortList) (n : Z)
  (pd : Robot.PortDevice) :
  0 <= n <= Str.max_safe_integer ->
  Robot.addPort C portList ("D-" ++ Str.of_number n) pd
  = {| Robot.digital :=
         Robot.digital portList ++
         [{| Robot.channel := n;
             Robot.pd_direction :=
               Some (Robot.direction_or_BOTH C (Robot.direction pd)) |}];
       Robot.analog := Robot.analog portList;
       Robot.pwm := Robot.pwm portList |} /\
  Robot.addPort C portList ("A-" ++ Str.of_number n) pd
  = {| Robot.digital := Robot.digital portList;
       Robot.analog :=
         Robot.analog portList ++
         [{| Robot.channel := n; Robot.pd_direction := None |}];
       Robot.pwm := Robot.pwm portList |} /\
  Robot.addPort C portList ("PWM-" ++ Str.of_number n) pd
  = {| Robot.digital := Robot.digital portList;
       Robot.analog := Robot.analog portList;
       Robot.pwm :=
         Robot.pwm portList ++
         [{| Robot.channel := n; Robot.pd_direction := None |}] |}.
Proof.
  intros Hn. destruct (split_channel_name n (proj1 Hn)) as (HD & HA & HP).
  assert (Hsafe : - Str.max_safe_integer <= n <= Str.max_safe_integer).
  { destruct Hn as [H0 H1]. split; [| exact H1].
    apply Z.le_trans with 0; [| exact H0]. discriminate. }
  unfold Robot.addPort. rewrite HD, HA, HP, (parseInt_of_number n Hsafe).
  repeat split; reflexivity.
Qed.

(** X22.  The channel number in a name is read back as it was written:
    for a channel number n from 0 to 2^53 - 1 (the integers a number
    holds, prints and parses exactly), the names D-<n>, A-<n> and PWM-<n>
    the calls build are split and parsed by [getPortList] into the same
    n.  So every port of the map that a call can reach under such a name
    is in the list [getPortList] returns, with that channel number: a D
    port in [digital] with its direction or BOTH, an A port in [analog],
    a PWM port in [pwm]. *)
Theorem getPortList_lists_every_channel :
  forall (r : Robot) (n : Z) (pd : Robot.PortDevice),
    0 <= n <= Str.max_safe_integer ->
    (In ("D-" ++ Str.of_number n, pd) (Robot.d_portDeviceMaps r) ->
     In {| Robot.channel := n;
           Robot.pd_direction :=
             Some (Robot.direction_or_BOTH C (Robot.direction pd)) |}
        (Robot.digital (fst (Robot.getPortList C r)))) /\
    (In ("A-" ++ Str.of_number n, pd) (Robot.d_portDeviceMaps r) ->
     In {| Robot.channel := n; Robot.pd_direction := None |}
        (Robot.analog (fst (Robot.getPortList C r)))) /\
    (In ("PWM-" ++ Str.of_number n, pd) (Robot.d_portDeviceMaps r) ->
     In {| Robot.channel := n; Robot.pd_direction := None |}
        (Robot.pwm (fst (Robot.getPortList C r)))).
Proof.
  intros r n pd Hn. unfold Robot.getPortList. cbn [fst].
  generalize (Robot.d_portDeviceMaps r). intros o.
  generalize ({| Robot.digital := []; Robot.analog := []; Robot.pwm := [] |}).
  induction o as [| [k pd'] o IH]; intros acc.
  - repeat split; intros [].
  - cbn [fold_left].
    destruct (IH (Robot.addPort C acc k pd')) as (I1 & I2 & I3).
    destruct (addPort_channel acc n pd Hn) as (AD & AA & AP).
    split; [| split]; intros [Heq | Hin]; auto;
      pose proof (f_equal fst Heq) as Hk; pose proof (f_equal snd Heq) as Hp;
      cbn [fst snd] in Hk, Hp; subst k pd'.
    + apply getPortList_loop_keeps. rewrite AD. cbn [Robot.digital].
      apply in_or_app. right. left. reflexivity.
    + apply getPortList_loop_keeps. rewrite AA. cbn [Robot.analog].
      apply in_or_app. right. left. reflexivity.
    + apply getPortList_loop_keeps. rewrite AP. cbn [Robot.pwm].
      apply in_or_app. right. left. reflexivity.
Qed.

End PortList.

(* ===================================================================== *)
(** ** The router properties on the example configuration                 *)
(* ===================================================================== *)

Lemma writeDigital_reaches_mapped_device_witness :
  Robot.d_enabled (Robot.with_enabled true Examples.robot) = true /\
  exists r',
    Robot.writeDigital ToBoolean JBool Examples.memo_write 0 (JNum 7)
      (Robot.with_enabled true Examples.robot) = Ok r' /\
    Robot.calls r' = [Robot.call_write "board" "digital" 0 (JBool true)] /\
    Obj.own (Robot.d_devices r') "board" = Some [("digital", 0, JBool true)].
Proof.
  split; [reflexivity |].
  destruct (writeDigital_reaches_mapped_device ToBoolean JBool
              Examples.memo_write
              (Robot.with_enabled true Examples.robot) 0 (JNum 7)
              {| Robot.device := Some "board";
                 Robot.devicePortType := "digital";
                 Robot.devicePort := 0;
                 Robot.direction := None |}
              "board" [] [("digital", 0, JBool true)]
              eq_refl eq_refl eq_refl eq_refl eq_refl)
    as (r' & Hrun & Hcalls & Hdev & _).
  exists r'. split; [exact Hrun |]. split; [exact Hcalls | exact Hdev].
Defined.

Lemma writePWM_passes_value_unchanged_witness :
  Robot.d_enabled (Robot.with_enabled true Examples.robot) = true /\
  exists r',
    Robot.writePWM Examples.memo_write 1 (JNum 7)
      (Robot.with_enabled true Examples.robot) = Ok r' /\
    Robot.calls r' = [Robot.call_write "board" "pwm" 1 (JNum 7)] /\
    Obj.own (Robot.d_devices r') "board" = Some [("pwm", 1, JNum 7)].
Proof.
  split; [reflexivity |].
  destruct (writePWM_passes_value_unchanged
              (Interface := unit) (DeviceClass := unit) (DeviceConfig := unit)
              Examples.memo_write
              (Robot.with_enabled true Examples.robot) 1 (JNum 7)
              {| Robot.device := Some "board";
                 Robot.devicePortType := "pwm";
                 Robot.devicePort := 1;
                 Robot.direction := Some "OUT" |}
              "board" [] [("pwm", 1, JNum 7)]
              eq_refl eq_refl eq_refl eq_refl eq_refl)
    as (r' & Hrun & Hcalls & Hdev & _).
  exists r'. split; [exact Hrun |]. split; [exact Hcalls | exact Hdev].
Defined.

Lemma reads_return_the_device_value_witness :
  Obj.own (Robot.d_devices Examples.robot) "board" = Some [] /\
  exists r',
    Robot.readAnalog Examples.memo_read 0 Examples.robot
    = Ok (JUndefined, r') /\
    Robot.calls r' = [Robot.call_read jsval "board" "analog" 0].
Proof.
  split; [reflexivity |].
  destruct (reads_return_the_device_value
              (Interface := unit) (DeviceClass := unit) (DeviceConfig := unit)
              Examples.memo_read Examples.robot 0
              {| Robot.device := Some "board";
                 Robot.devicePortType := "analog";
                 Robot.devicePort := 0;
                 Robot.direction := Some "IN" |}
              "board" [] [] JUndefined eq_refl eq_refl eq_refl)
    as (_ & Hanalog & _).
  destruct (Hanalog eq_refl) as (r' & Hrun & Hcalls & _).
  exists r'. split; [exact Hrun | exact Hcalls].
Defined.

Lemma configureDigitalPinMode_checks_mode_then_direction_witness :
  Robot.PinModes_undefined Examples.modes "SPIN" = true /\
  Robot.configureDigitalPinMode Examples.memo_configurePin Examples.modes
    7 "SPIN" Examples.robot
  = Throw (Error "Invalid pin mode (SPIN) specified") /\
  exists r',
    Robot.configureDigitalPinMode Examples.memo_configurePin Examples.modes
      0 "INPUT" Examples.robot = Ok r' /\
    Robot.calls r' = [Robot.call_configurePin jsval "board" 0 "INPUT"].
Proof.
  split; [reflexivity |]. split.
  - exact (proj1 (configureDigitalPinMode_checks_mode_then_direction
                    Examples.memo_configurePin Examples.modes
                    Examples.robot 7 "SPIN") eq_refl).
  - destruct (proj2 (proj2 (configureDigitalPinMode_checks_mode_then_direction
                              Examples.memo_configurePin Examples.modes
                              Examples.robot 0 "INPUT"))
                {| Robot.device := Some "board";
                   Robot.devicePortType := "digital";
                   Robot.devicePort := 0;
                   Robot.direction := None |}
                "board" [] []
                eq_refl eq_refl eq_refl eq_refl eq_refl eq_refl)
      as (r' & Hrun & Hcalls & _).
    exists r'. split; [exact Hrun | exact Hcalls].
Defined.

Lemma enable_calls_every_device_once_witness :
  NoDup (Obj.keys (Robot.d_devices Examples.robot)) /\
  exists r',
    Robot.enable MoreExamples.memo_switch Examples.robot = Ok r' /\
    Robot.d_enabled r' = true /\
    Robot.calls r' = [Robot.call_enable jsval "board"].
Proof.
  assert (Hnd : NoDup (Obj.keys (Robot.d_devices Examples.robot))).
  { cbn. constructor; [intros [] | constructor]. }
  split; [exact Hnd |].
  destruct (enable_calls_every_device_once
              MoreExamples.memo_switch Examples.robot
              (fun d => ex_intro _ d eq_refl) Hnd)
    as (r' & Hrun & Hflag & Hcalls & _).
  exists r'. split; [exact Hrun |]. split; [exact Hflag | exact Hcalls].
Defined.

Lemma disable_calls_every_device_and_stops_writes_witness :
  NoDup (Obj.keys (Robot.d_devices Examples.robot)) /\
  exists r',
    Robot.disable MoreExamples.memo_switch
      (Robot.with_enabled true Examples.robot) = Ok r' /\
    Robot.d_enabled r' = false /\
    Robot.writeDigital ToBoolean JBool Examples.memo_write 0 (JNum 7) r'
    = Ok r'.
Proof.
  assert (Hnd : NoDup (Obj.keys (Robot.d_devices Examples.robot))).
  { cbn. constructor; [intros [] | constructor]. }
  split; [exact Hnd |].
  destruct (disable_calls_every_device_and_stops_writes
              ToBoolean JBool Examples.memo_write
              MoreExamples.memo_switch
              (Robot.with_enabled true Examples.robot) 0 (JNum 7)
              (fun d => ex_intro _ d eq_refl) Hnd)
    as (r' & Hrun & Hflag & _ & _ & _ & Hwrite & _).
  exists r'. split; [exact Hrun |]. split; [exact Hflag | exact Hwrite].
Defined.

Lemma first_interface_of_an_id_wins_witness :
  Obj.own
    (Robot.d_interfaces (Robot.blank jsval Examples.Memo MoreExamples.buses))
    "i2c" = None /\
  Robot.getInterface "i2c"
    (Robot.setupInterfaces
       (Robot.blank jsval Examples.Memo MoreExamples.buses))
  = Obj.Own (Some 1%nat).
Proof.
  split; [reflexivity |].
  apply (proj1 (first_interface_of_an_id_wins
                  (Robot.blank jsval Examples.Memo MoreExamples.buses)
                  _ "i2c" eq_refl eq_refl)
               {| Robot.if_type := "I2C"; Robot.if_id := "i2c";
                  Robot.if_implementation := Some 1%nat |});
    reflexivity.
Defined.

Lemma new_throws_without_a_device_class_witness :
  Examples.memo_builtin "Servo" = None /\
  Examples.robot_of MoreExamples.classless
  = Throw (TypeError "deviceImpl is not a constructor").
Proof.
  split; [reflexivity |].
  destruct (new_throws_without_a_device_class (JSValue := jsval)
              Examples.memo_construct Examples.memo_builtin
              MoreExamples.classless) as [_ Hbad].
  eapply (Hbad [Examples.memo_spec] _ []); reflexivity.
Defined.

Lemma new_maps_every_port_witness :
  Robot.devices Examples.config = Some [Examples.memo_spec] /\
  exists r,
    Examples.robot_of Examples.config = Ok r /\
    Robot.d_enabled r = false /\
    exists pd,
      Obj.own (Robot.d_portDeviceMaps r) "PWM-1" = Some pd /\
      Robot.devicePort pd = 1 /\
      Robot.device pd = Some "board".
Proof.
  split; [reflexivity |].
  destruct (new_maps_every_port (JSValue := jsval)
              Examples.memo_construct Examples.memo_builtin
              Examples.config [Examples.memo_spec] eq_refl)
    as (r & Hnew & Hflag & _ & _ & Hports).
  - intros spec iface [<- | []]. exists tt, []. split; reflexivity.
  - intros spec [<- | []]. cbn. discriminate.
  - cbn. intros name [<- | [<- | [<- | []]]]; reflexivity.
  - exists r. split; [exact Hnew |]. split; [exact Hflag |].
    destruct (Hports "PWM-1" (Examples.port "board" "pwm" 1 (Some "OUT")))
      as (pd & Hown & _ & Hport & _ & Hdev & _).
    { reflexivity. }
    exists pd. split; [exact Hown |]. split; [exact Hport |].
    apply Hdev. cbn. left. reflexivity.
Defined.

Lemma getPortList_lists_every_channel_witness :
  0 <= 1 <= Str.max_safe_integer /\
  In {| Robot.channel := 1; Robot.pd_direction := None |}
     (Robot.pwm (fst (Robot.getPortList Examples.modes Examples.robot))).
Proof.
  assert (Hn : 0 <= 1 <= Str.max_safe_integer)
    by (split; discriminate).
  split; [exact Hn |].
  apply (proj2 (proj2 (getPortList_lists_every_channel Examples.modes
                         Examples.robot 1
                         {| Robot.device := Some "board";
                            Robot.devicePortType := "pwm";
                            Robot.devicePort := 1;
                            Robot.direction := Some "OUT" |} Hn))).
  cbn. right. right. left. reflexivity.
Defined.
